(** * The CLEF-HIPE-2020 scorer: result aggregation and stratified reporting

    A shallow embedding of [clef_evaluation.py] and the verification of its
    reporting pipeline: the evaluation wrapper, the stratum labels, the
    assembly of report rows, the two output files and the handling of the
    submission file name.

    Python values are modelled as follows.
    - [str] is [string]; the text is taken to be ASCII, so that the order of
      [String.compare] is the order of Python's code points and the case
      mappings only touch the letters A-Z and a-z.
    - [dict] is an association list in insertion order ([dict]), with
      Python's update-in-place and append-when-new assignment.
    - [int] is [Z]; [float] and [datetime] are abstract ([PyFloat],
      [PyDatetime]): the scorer only parses, prints and rounds them.
    - exceptions are values of [exn]; code that can raise returns a [result],
      and code with effects runs in the monad [M] over a [World] that keeps
      the chronological trace of what the process did. *)

From stdpp Require Import base list strings sorting pretty.
From Stdlib Require Import ZArith Lia Ascii.

Open Scope Z_scope.

(** ** The fragment of Python's runtime the scorer relies on *)

Module Py.

(** *** Exceptions and results *)

Inductive exn : Type :=
| AssertionError (msg : string)
| ValueError
| TypeError
| KeyError (key : string)
| IndexError
| UnboundLocalError (name : string)
| OSError
| SystemExit (code : Z)
| ForeignError (what : string).

Inductive result (A : Type) : Type :=
| Ok (a : A)
| Raise (e : exn).
Arguments Ok {A} a.
Arguments Raise {A} e.

Definition rbind {A B} (r : result A) (k : A → result B) : result B :=
  match r with
  | Ok a => k a
  | Raise e => Raise e
  end.

Definition of_option {A} (e : exn) (o : option A) : result A :=
  match o with
  | Some a => Ok a
  | None => Raise e
  end.

(** [[f(x) for x in xs]]: the first exception aborts the comprehension. *)
Fixpoint rmap {A B} (f : A → result B) (xs : list A) : result (list B) :=
  match xs with
  | [] => Ok []
  | x :: xs' =>
      rbind (f x) (λ y, rbind (rmap f xs') (λ ys, Ok (y :: ys)))
  end.

Definition is_ok {A} (r : result A) : bool :=
  match r with Ok _ => true | Raise _ => false end.

(** *** Strings *)

Definition truthy (s : string) : bool :=
  match s with EmptyString => false | _ => true end.

Definition opt_truthy (o : option string) : bool :=
  match o with Some s => truthy s | None => false end.

Definition ascii_eqb (a b : ascii) : bool := bool_decide (a = b).

(** [s.split(sep)] for a separator of one character. *)
Fixpoint split (sep : ascii) (s : string) : list string :=
  match s with
  | EmptyString => [EmptyString]
  | String c s' =>
      if ascii_eqb c sep then EmptyString :: split sep s'
      else match split sep s' with
           | [] => [String c EmptyString]
           | w :: ws => String c w :: ws
           end
  end.

(** [s.replace(old, new)] for a non-empty [old]: the occurrences are found
    from the left and do not overlap. [skip] counts the characters of an
    occurrence that are still to be dropped. *)
Fixpoint replace_go (old new : string) (skip : nat) (s : string) : string :=
  match s with
  | EmptyString => EmptyString
  | String c s' =>
      match skip with
      | S k => replace_go old new k s'
      | O =>
          if String.prefix old s
          then new +:+ replace_go old new (Nat.pred (String.length old)) s'
          else String c (replace_go old new O s')
      end
  end.

Definition replace (old new s : string) : string := replace_go old new O s.

(** [needle in s] on strings. *)
Fixpoint contains (needle s : string) : bool :=
  String.prefix needle s ||
  match s with
  | EmptyString => false
  | String _ s' => contains needle s'
  end.

Definition is_upper (c : ascii) : bool :=
  let n := nat_of_ascii c in (65 <=? n)%nat && (n <=? 90)%nat.
Definition is_lower (c : ascii) : bool :=
  let n := nat_of_ascii c in (97 <=? n)%nat && (n <=? 122)%nat.

Definition lower_char (c : ascii) : ascii :=
  if is_upper c then ascii_of_nat (nat_of_ascii c + 32) else c.
Definition upper_char (c : ascii) : ascii :=
  if is_lower c then ascii_of_nat (nat_of_ascii c - 32) else c.

Fixpoint map_chars (f : ascii → ascii) (s : string) : string :=
  match s with
  | EmptyString => EmptyString
  | String c s' => String (f c) (map_chars f s')
  end.

Definition lower : string → string := map_chars lower_char.
Definition upper : string → string := map_chars upper_char.

Fixpoint mem_char (c : ascii) (chars : string) : bool :=
  match chars with
  | EmptyString => false
  | String d chars' => ascii_eqb c d || mem_char c chars'
  end.

(** [s.lstrip(chars)] removes leading characters that occur in [chars];
    it is not the removal of a prefix. *)
Fixpoint lstrip (chars : string) (s : string) : string :=
  match s with
  | EmptyString => EmptyString
  | String c s' => if mem_char c chars then lstrip chars s' else s
  end.

(** The white space that [int] skips around an ASCII literal. *)
Definition is_space (c : ascii) : bool :=
  let n := nat_of_ascii c in
  ((9 <=? n)%nat && (n <=? 13)%nat) || (n =? 32)%nat.

Fixpoint lstrip_space (s : string) : string :=
  match s with
  | EmptyString => EmptyString
  | String c s' => if is_space c then lstrip_space s' else s
  end.

Definition strip_space (s : string) : string :=
  String.rev (lstrip_space (String.rev (lstrip_space s))).

Definition digit_of (c : ascii) : option Z :=
  let n := nat_of_ascii c in
  if (48 <=? n)%nat && (n <=? 57)%nat then Some (Z.of_nat (n - 48)) else None.

(** The digits of a decimal literal: at least one digit, and single
    underscores only between digits. [acc] is the value read so far and
    [after_digit] tells whether the previous character was a digit. *)
Fixpoint digits_go (acc : Z) (after_digit : bool) (s : string) : option Z :=
  match s with
  | EmptyString => if after_digit then Some acc else None
  | String c s' =>
      match digit_of c with
      | Some d => digits_go (10 * acc + d) true s'
      | None =>
          if ascii_eqb c "_"%char && after_digit
          then match s' with
               | EmptyString => None
               | String c' _ =>
                   match digit_of c' with
                   | Some _ => digits_go acc false s'
                   | None => None
                   end
               end
          else None
      end
  end.

(** [int(s)] in base ten; [None] is [ValueError]. *)
Definition int_of_str (s : string) : option Z :=
  match strip_space s with
  | String "-" ds => Z.opp <$> digits_go 0 false ds
  | String "+" ds => digits_go 0 false ds
  | ds => digits_go 0 false ds
  end.

Definition int (s : string) : result Z := of_option ValueError (int_of_str s).

(** [str(n)] for an [int]. *)
Definition str_of_int (n : Z) : string := pretty n.

(** [text.splitlines()] on the line boundaries of the ASCII range; a
    carriage return followed by a line feed is one boundary. *)
Definition is_linebreak (c : ascii) : bool :=
  let n := nat_of_ascii c in
  ((10 <=? n)%nat && (n <=? 13)%nat) || ((28 <=? n)%nat && (n <=? 30)%nat).

Fixpoint splitlines_go (cur : string) (s : string) : list string :=
  match s with
  | EmptyString =>
      match cur with EmptyString => [] | _ => [String.rev cur] end
  | String c s' =>
      if is_linebreak c then
        String.rev cur ::
          match c, s' with
          | "013"%char, String "010" s'' => splitlines_go EmptyString s''
          | _, _ => splitlines_go EmptyString s'
          end
      else splitlines_go (String c cur) s'
  end.

(** *** pathlib, for POSIX paths *)

(** The parts of [pathlib.Path(p)] below the root: empty components and
    single dots are dropped. *)
Definition path_parts (p : string) : list string :=
  filter (λ c, c ≠ EmptyString ∧ c ≠ ".") (split "/" p).

(** [Path(p).name] *)
Definition path_name (p : string) : string := default EmptyString (last (path_parts p)).

(** [name.rfind(".")]: the index of the last dot. *)
Fixpoint rfind_dot (i : nat) (s : string) : option nat :=
  match s with
  | EmptyString => None
  | String c s' =>
      match rfind_dot (S i) s' with
      | Some j => Some j
      | None => if ascii_eqb c "." then Some i else None
      end
  end.

(** Where [name] is cut into stem and suffix: at its last dot, unless that
    dot is the first or the last character. *)
Definition suffix_index (name : string) : option nat :=
  match rfind_dot O name with
  | Some i =>
      if bool_decide (0 < i < Nat.pred (String.length name))%nat then Some i else None
  | None => None
  end.

(** [Path(p).suffix] and [Path(p).stem] *)
Definition path_suffix (p : string) : string :=
  let name := path_name p in
  match suffix_index name with
  | Some i => String.substring i (String.length name - i) name
  | None => EmptyString
  end.

Definition path_stem (p : string) : string :=
  let name := path_name p in
  match suffix_index name with
  | Some i => String.substring O i name
  | None => name
  end.

(** *** Dictionaries

    A [dict] keeps its items in insertion order. Assigning to a key that is
    present replaces the value where it stands; a new key goes to the end. *)

Definition dict (V : Type) : Type := list (string * V).

Fixpoint get {V} (k : string) (d : dict V) : option V :=
  match d with
  | [] => None
  | (k', v) :: d' => if String.eqb k k' then Some v else get k d'
  end.

Fixpoint set {V} (k : string) (v : V) (d : dict V) : dict V :=
  match d with
  | [] => [(k, v)]
  | (k', v') :: d' =>
      if String.eqb k k' then (k, v) :: d' else (k', v') :: set k v d'
  end.

Definition keys {V} (d : dict V) : list string := d.*1.

(** [d[k]] *)
Definition getitem {V} (k : string) (d : dict V) : result V :=
  of_option (KeyError k) (get k d).

(** [sorted(d)]: the keys in the order of their code points. *)
Definition sorted (l : list string) : list string := merge_sort String.le l.

End Py.

Import Py.

(** ** What the scorer takes from outside

    Floating-point numbers and dates are only parsed, printed and rounded by
    the scorer; the matching collaborator ([ner_evaluation.ner_eval.Evaluator])
    and the file system belong to the host. *)

Class PyFloat : Type := {
  float : Type;
  (** [float(s)]; [None] is [ValueError] *)
  float_of_str : string → option float;
  (** [str(x)], the way an f-string renders a float *)
  float_str : float → string;
  (** [round(x, ndigits)] *)
  float_round : float → Z → float;
}.

Class PyDatetime : Type := {
  datetime : Type;
  (** [datetime.strptime(s, format)]; [None] is [ValueError] *)
  strptime : string → string → option datetime;
  (** [d.strftime(format)] *)
  strftime : datetime → string → string;
  dt_month : datetime → Z;
  dt_day : datetime → Z;
}.

Section Data.
Context `{PyFloat, PyDatetime}.

(** The values found in a result bundle and in a report row. *)
Inductive value : Type :=
| VInt (n : Z)
| VFloat (x : float)
| VStr (s : string)
| VNone.

(** metric name -> value, for one tag under one regime *)
Definition metrics : Type := dict value.
(** regime -> metrics: what the collaborator computes for a tag, or for a
    whole column *)
Definition bundle : Type := dict metrics.
(** tag -> bundle *)
Definition per_tag : Type := dict bundle.
(** column -> tag -> bundle: the [eval_stats] of one stratum *)
Definition stats : Type := dict per_tag.
(** one report row *)
Definition row : Type := dict value.

(** A column handed to the collaborator is a name, or a list of names that
    are evaluated in lock-step (union mode). *)
Inductive column : Type :=
| Col (name : string)
| ColGroup (names : list string).

Definition noise_level : Type := option (float * float).
Definition time_period : Type := option (datetime * datetime).
Definition tagset : Type := option (list string).

(** A file to write: a path as given, or [pathlib.Path(dir) / name]. *)
Inductive path : Type :=
| Path (p : string)
| PathIn (dir name : string).

(** What the process does, in the order in which it does it. *)
Inductive event : Type :=
| ENewEvaluator (f_ref f_pred : string) (glueing : option (list (list string)))
| EEvaluate (col : column) (eval_type : string) (merge_lines : bool) (n_best : Z)
    (noise : noise_level) (time : time_period) (tags : tagset)
| EReadText (p : string)
| EOpenW (p : path)
| EWriteTsv (p : path) (fieldnames : list string) (rows : list row)
| EWriteJson (p : path) (content : stats)
| EPrint (s : string)
| ELogError (s : string).
End Data.

Class Host `{PyFloat, PyDatetime} : Type := {
  (** the state of the world outside the process, the collaborator included *)
  host_state : Type;
  (** [Evaluator(f_ref, f_pred, glueing_col_pairs)] *)
  host_new_evaluator :
    host_state → string → string → option (list (list string)) → host_state * result unit;
  (** [evaluator.evaluate(col, eval_type, merge_lines, n_best, noise_level,
      time_period, tags)]: the column-global bundle and the bundles per tag *)
  host_evaluate :
    host_state → column → string → bool → Z → noise_level → time_period → tagset →
    host_state * result (bundle * per_tag);
  (** [open(p).read()] *)
  host_read_text : host_state → string → host_state * result string;
  (** [open(p, "w")] *)
  host_open_w : host_state → path → host_state * result unit;
  (** the order in which this process iterates over a set of strings *)
  set_order : list string → list string;
  set_order_perm : ∀ l, set_order l ≡ₚ l;
}.

(** ** The monad of the process *)

Section Monad.
Context `{Host}.

Record World : Type := mkWorld {
  trace : list event;
  host : host_state;
}.

Definition M (A : Type) : Type := World → World * result A.

Definition ret {A} (a : A) : M A := λ w, (w, Ok a).

Definition bind {A B} (m : M A) (k : A → M B) : M B :=
  λ w, match m w with
       | (w', Ok a) => k a w'
       | (w', Raise e) => (w', Raise e)
       end.

Definition raise {A} (e : exn) : M A := λ w, (w, Raise e).

Definition lift {A} (r : result A) : M A := λ w, (w, r).

Definition emit (e : event) : M unit :=
  λ w, (mkWorld (trace w ++ [e]) (host w), Ok tt).

(** A call into the host: the event is recorded, the host moves on. *)
Definition call {A} (e : event) (f : host_state → host_state * result A) : M A :=
  λ w, let '(h, r) := f (host w) in (mkWorld (trace w ++ [e]) h, r).

(** [try: m  except <those e with handler e = Some k>: k] *)
Definition try_except {A} (m : M A) (handler : exn → option (M A)) : M A :=
  λ w, match m w with
       | (w', Ok a) => (w', Ok a)
       | (w', Raise e) =>
           match handler e with
           | Some k => k w'
           | None => (w', Raise e)
           end
       end.

(** [for x in xs: s = body(x, s)] *)
Fixpoint for_each {A S} (xs : list A) (body : A → S → M S) (s : S) : M S :=
  match xs with
  | [] => ret s
  | x :: xs' => bind (body x s) (for_each xs' body)
  end.
End Monad.

Declare Scope py_scope.
Delimit Scope py_scope with py.
Notation "x <- m ;; k" := (bind m (λ x, k))
  (at level 100, m at next level, right associativity) : py_scope.
Notation "m ;;; k" := (bind m (λ _, k))
  (at level 100, right associativity) : py_scope.
Notation "x <~ r ;; k" := (rbind r (λ x, k))
  (at level 100, r at next level, right associativity) : py_scope.
Notation "r ;;~ k" := (rbind r (λ _, k))
  (at level 100, right associativity) : py_scope.
Open Scope py_scope.

(** ** The scorer *)

Definition FINE_COLUMNS : list string :=
  ["NE-FINE-LIT"; "NE-FINE-METO"; "NE-FINE-COMP"; "NE-NESTED"].
Definition COARSE_COLUMNS : list string := ["NE-COARSE-LIT"; "NE-COARSE-METO"].
Definition NEL_COLUMNS : list string := ["NEL-LIT"; "NEL-METO"].

(** [assert b] *)
Definition assert (b : bool) : result unit :=
  if b then Ok tt else Raise (AssertionError EmptyString).

(** [for x in xs: s = body(x, s)] for a body without effects *)
Fixpoint rfor {A S} (xs : list A) (body : A → S → result S) (s : S) : result S :=
  match xs with
  | [] => Ok s
  | x :: xs' => rbind (body x s) (rfor xs' body)
  end.

(** *** [enforce_filename] *)

(** The body of the [try] block. *)
Definition enforce_filename_try (fname : string) : result (string * string) :=
  let f_obj := lower fname in
  let submission := path_stem f_obj in
  let suffix := path_suffix f_obj in
  match split "_" submission with
  | [team; bundle; lang; n_submission] =>
      bundle <~ int (lstrip "bundle" bundle) ;;
      assert (bool_decide (suffix = ".tsv")) ;;~
      assert (bool_decide (lang ∈ ["de"; "fr"; "en"])) ;;~
      assert (bool_decide (1 ≤ bundle < 6)) ;;~
      Ok (submission, lang)
  | _ => Raise ValueError
  end.

Definition enforce_filename_msg (fname : string) : string :=
  "The filename of the system response '" +:+ fname +:+
  "' needs to comply with the shared task requirements. " +:+
  "Rename according to the following scheme: TEAMNAME_TASKBUNDLEID_LANG_RUNNUMBER.tsv".

Section Scorer.
Context `{Host}.

Definition enforce_filename (fname : string) : M (string * string) :=
  try_except (lift (enforce_filename_try fname))
    (λ e, match e with
          | ValueError | AssertionError _ =>
              Some (let msg := enforce_filename_msg fname in
                    emit (ELogError msg) ;;; raise (AssertionError msg))
          | _ => None
          end).

(** *** [evaluation_wrapper] *)

(** The key a column makes in a [dict]: a list cannot be hashed. *)
Definition hashable (col : column) : result string :=
  match col with
  | Col name => Ok name
  | ColGroup _ => Raise TypeError
  end.

Definition evaluate (col : column) (eval_type : string) (merge_lines : bool) (n_best : Z)
    (noise : noise_level) (time : time_period) (tags : tagset) : M (bundle * per_tag) :=
  call (EEvaluate col eval_type merge_lines n_best noise time tags)
       (λ h, host_evaluate h col eval_type merge_lines n_best noise time tags).

(** The loop of [evaluation_wrapper], on the two dictionaries it fills. *)
Fixpoint evaluation_wrapper_loop (cols : list column) (eval_type : string) (n_best : Z)
    (noise : noise_level) (time : time_period) (tags : tagset)
    (eval_global : dict bundle) (eval_per_tag : stats) : M stats :=
  match cols with
  | [] => ret eval_per_tag
  | col :: cols' =>
      r <- evaluate col eval_type true n_best noise time tags ;;
      k <- lift (hashable col) ;;
      let eval_global := set k r.1 eval_global in
      let eval_per_tag := set k r.2 eval_per_tag in
      (* add aggregated stats across types as artificial tag *)
      g <- lift (getitem k eval_global) ;;
      pt <- lift (getitem k eval_per_tag) ;;
      let eval_per_tag := set k (set "ALL" g pt) eval_per_tag in
      evaluation_wrapper_loop cols' eval_type n_best noise time tags eval_global eval_per_tag
  end.

Definition evaluation_wrapper (cols : list column) (eval_type : string) (n_best : Z)
    (noise : noise_level) (time : time_period) (tags : tagset) : M stats :=
  evaluation_wrapper_loop cols eval_type n_best noise time tags [] [].
End Scorer.

(** *** Stratum labels *)

Section Labels.
Context `{PyFloat, PyDatetime}.

Definition define_noise_label (noise : noise_level) : string :=
  match noise with
  | Some (noise_lower, noise_upper) =>
      "LED-" +:+ float_str noise_lower +:+ "-" +:+ float_str noise_upper
  | None => "LED-ALL"
  end.

Definition define_time_label (time : time_period) : string :=
  match time with
  | Some (date_start, date_end) =>
      let only_years :=
        forallb (λ _, true)
          (filter (λ date, dt_day date = 1 ∧ dt_month date = 1) [date_start; date_end]) in
      let '(date_start, date_end) :=
        if only_years
        then (strftime date_start "%Y", strftime date_end "%Y")
        else (strftime date_start "%Y", strftime date_end "%Y") in
      "TIME-" +:+ date_start +:+ "-" +:+ date_end
  | None => "TIME-ALL"
  end.

(** The [eval_suffix] of the NERC loop of [get_results]. *)
Definition nerc_eval_suffix (suffix : string) (noise : noise_level) (time : time_period)
    : string :=
  (if truthy suffix then suffix +:+ "-" else EmptyString)
  +:+ define_time_label time +:+ "-" +:+ define_noise_label noise.

(** The [eval_suffix] of the NEL loop, and what union mode makes of it. *)
Definition nel_eval_suffix (suffix : string) (n : Z) (noise : noise_level)
    (time : time_period) : string :=
  (if truthy suffix then suffix +:+ "-" else EmptyString)
  +:+ define_time_label time +:+ "-" +:+ define_noise_label noise
  +:+ ("-@" +:+ str_of_int n).

Definition union_eval_suffix (eval_suffix : string) : string :=
  "union_lit_meto-" +:+ eval_suffix.
End Labels.

(** *** [assemble_tsv_output] *)

Definition metric_names : list string := ["P"; "R"; "F1"].
Definition figures : list string := ["TP"; "FP"; "FN"].
Definition aggregations : list string := ["micro"; "macro_doc"].

Definition fieldnames : list string :=
  ["System"; "Evaluation"; "Label"; "P"; "R"; "F1"; "F1_std"; "P_std"; "R_std";
   "TP"; "FP"; "FN"].

(** mapping terminology fuzzy->type *)
Definition storage_regime (regime : string) : string :=
  if String.eqb regime "fuzzy" then "ent_type" else regime.

Section Assemble.
Context `{PyFloat}.

(** [round(fig, ndigits)]: an [int] is returned as it is, a [float] is
    rounded, anything else is a [TypeError]. *)
Definition round (fig : value) (ndigits : Z) : result value :=
  match fig with
  | VInt n => Ok (VInt n)
  | VFloat x => Ok (VFloat (float_round x ndigits))
  | VStr _ | VNone => Raise TypeError
  end.

(** [eval_stats[col][tag][regime][key]] *)
Definition stat (eval_stats : stats) (col tag regime key : string) : result value :=
  by_tag <~ getitem col eval_stats ;;
  by_regime <~ getitem tag by_tag ;;
  by_metric <~ getitem regime by_regime ;;
  getitem key by_metric.

(** The last loop over the items of a row: every value is rounded, and a
    value that cannot be rounded stays. *)
Definition round_results (results : row) : result row :=
  rfor results
    (λ '(metric, fig) results,
       match round fig 3 with
       | Ok v => Ok (set metric v results)
       | Raise TypeError => Ok results
       | Raise e => Raise e
       end)
    results.

(** The row of one tag: the body of the innermost loop. *)
Definition tag_results (submission : string) (eval_stats : stats)
    (col aggr regime eval_regime tag : string) : result row :=
  let results : row := [] in
  let results := set "System" (VStr submission) results in
  let results := set "Evaluation" (VStr eval_regime) results in
  let results := set "Label" (VStr tag) results in
  results <~ rfor metric_names
    (λ metric results,
       let mapped_metric := metric +:+ "_" +:+ aggr in
       v <~ stat eval_stats col tag regime mapped_metric ;;
       Ok (set metric v results))
    results ;;
  (* add TP/FP/FN for micro analysis *)
  results <~ (if String.eqb aggr "micro"
              then rfor figures
                     (λ fig results,
                        v <~ stat eval_stats col tag regime fig ;;
                        Ok (set fig v results))
                     results
              else Ok results) ;;
  results <~ (if contains "macro" aggr
              then rfor metric_names
                     (λ metric results,
                        let mapped_metric := metric +:+ "_" +:+ aggr +:+ "_std" in
                        v <~ stat eval_stats col tag regime mapped_metric ;;
                        Ok (set (metric +:+ "_std") v results))
                     results
              else Ok results) ;;
  round_results results.

(** The loop over the tags of a column, for one aggregation and regime. *)
Definition regime_rows (submission : string) (eval_stats : stats) (only_aggregated : bool)
    (suffix col aggr regime : string) (rows : list row) : result (list row) :=
  let eval_regime := col +:+ "-" +:+ aggr +:+ "-" +:+ regime +:+ suffix in
  let regime := storage_regime regime in
  by_tag <~ getitem col eval_stats ;;
  rfor (sorted (keys by_tag))
    (λ tag rows,
       if only_aggregated && negb (String.eqb tag "ALL") then Ok rows
       else
         results <~ tag_results submission eval_stats col aggr regime eval_regime tag ;;
         Ok (rows ++ [results]))
    rows.

Definition assemble_tsv_output (submission : string) (eval_stats : stats)
    (regimes : list string) (only_aggregated : bool) (suffix : string)
    : result (list string * list row) :=
  let rows : list row := [] in
  let suffix := if truthy suffix then "-" +:+ suffix else suffix in
  rows <~ rfor (sorted (keys eval_stats))
    (λ col rows,
       rfor aggregations
         (λ aggr rows,
            rfor regimes
              (λ regime rows,
                 regime_rows submission eval_stats only_aggregated suffix col aggr regime rows)
              rows)
         rows)
    rows ;;
  Ok (fieldnames, rows).
End Assemble.

(** *** [get_results] *)

Section GetResults.
Context `{Host}.

(** The local variables that the loops over the strata assign. A variable
    that no iteration has assigned is unbound. *)
Record locals : Type := mkLocals {
  l_rows : option (list row);
  l_fieldnames : option (list string);
  l_eval_stats : option stats;
}.

Definition unbound : locals := mkLocals None None None.

(** [fieldnames, rows_temp = ...; rows += rows_temp] with [eval_stats] *)
Definition accumulate (eval_stats : stats) (out : list string * list row) (loc : locals)
    : M locals :=
  rows <- lift (of_option (UnboundLocalError "rows") (l_rows loc)) ;;
  ret (mkLocals (Some (rows ++ out.2)) (Some out.1) (Some eval_stats)).

(** One turn of the loop of the NERC tasks. *)
Definition nerc_body (submission suffix : string) (columns : list string) (tags : tagset)
    (stratum : noise_level * time_period) (loc : locals) : M locals :=
  let '(noise, time) := stratum in
  eval_stats <- evaluation_wrapper (Col <$> columns) "nerc" 1 noise time tags ;;
  let eval_suffix := nerc_eval_suffix suffix noise time in
  out <- lift (assemble_tsv_output submission eval_stats ["fuzzy"; "strict"] false eval_suffix) ;;
  accumulate eval_stats out loc.

(** One turn of the loop of the NEL task. *)
Definition nel_body (submission suffix : string) (union : bool)
    (stratum : Z * (noise_level * time_period)) (loc : locals) : M locals :=
  let '(n, (noise, time)) := stratum in
  let eval_suffix := nel_eval_suffix suffix n noise time in
  r <- (if union then
          (* nest columns to ensure iterating in parallel on both columns *)
          eval_stats <- evaluation_wrapper [ColGroup NEL_COLUMNS] "nel" n noise time None ;;
          ret (eval_stats, union_eval_suffix eval_suffix)
        else
          eval_stats <- evaluation_wrapper (Col <$> NEL_COLUMNS) "nel" n noise time None ;;
          ret (eval_stats, eval_suffix)) ;;
  out <- lift (assemble_tsv_output submission r.1 ["fuzzy"] true r.2) ;;
  accumulate r.1 out loc.

(** The loops over the strata, by task. *)
Definition evaluate_strata (task submission suffix : string) (tags : tagset)
    (n_best : list Z) (union : bool)
    (noise_levels : list noise_level) (time_periods : list time_period) : M locals :=
  if bool_decide (task ∈ ["nerc_fine"; "nerc_coarse"]) then
    let columns :=
      set_order (if String.eqb task "nerc_fine" then FINE_COLUMNS else COARSE_COLUMNS) in
    for_each (list_prod noise_levels time_periods)
      (nerc_body submission suffix columns tags)
      (mkLocals (Some []) None None)
  else if String.eqb task "nel" then
    for_each (list_prod n_best (list_prod noise_levels time_periods))
      (nel_body submission suffix union)
      (mkLocals (Some []) None None)
  else ret unbound.

(** The names of the two output files. *)
Definition output_name (f_pred task suffix extension : string) : string :=
  let suffix := if truthy suffix then "_" +:+ suffix else suffix in
  replace ".tsv" ("_" +:+ task +:+ suffix +:+ extension) (path_name f_pred).

Definition open_w (p : path) : M unit := call (EOpenW p) (λ h, host_open_w h p).

(** The end of [get_results]: the two files are written. *)
Definition write_outputs (f_pred task outdir suffix : string) (loc : locals) : M unit :=
  let f_tsv := PathIn outdir (output_name f_pred task suffix ".tsv") in
  let f_json := PathIn outdir (output_name f_pred task suffix ".json") in
  open_w f_tsv ;;;
  fieldnames <- lift (of_option (UnboundLocalError "fieldnames") (l_fieldnames loc)) ;;
  rows <- lift (of_option (UnboundLocalError "rows") (l_rows loc)) ;;
  emit (EWriteTsv f_tsv fieldnames rows) ;;;
  open_w f_json ;;;
  eval_stats <- lift (of_option (UnboundLocalError "eval_stats") (l_eval_stats loc)) ;;
  emit (EWriteJson f_json eval_stats).

Definition get_results (f_ref f_pred task : string) (skip_check : bool)
    (glueing_cols : option string) (n_best : list Z) (union : bool)
    (outdir suffix : string) (f_tagset : option string)
    (noise_levels : list noise_level) (time_periods : list time_period) : M unit :=
  sl <- (if negb skip_check then enforce_filename f_pred else ret (f_pred, "LANG")) ;;
  let submission := sl.1 in
  let glueing_col_pairs :=
    match glueing_cols with
    | Some g => if truthy g then Some (split "+" <$> split "," g) else None
    | None => None
    end in
  tags <- (match f_tagset with
           | Some f =>
               if truthy f then
                 text <- call (EReadText f) (λ h, host_read_text h f) ;;
                 ret (Some (remove_dups (splitlines_go EmptyString (upper text))))
               else ret None
           | None => ret None
           end) ;;
  call (ENewEvaluator f_ref f_pred glueing_col_pairs)
       (λ h, host_new_evaluator h f_ref f_pred glueing_col_pairs) ;;;
  loc <- evaluate_strata task submission suffix tags n_best union noise_levels time_periods ;;
  write_outputs f_pred task outdir suffix loc.
End GetResults.

(** *** [check_validity_of_arguments] and [main] *)

(** The parsed command line. *)
Record Args : Type := mkArgs {
  args_f_ref : string;
  args_f_pred : string;
  args_f_log : string;
  args_task : string;
  args_glueing_cols : option string;
  args_n_best : option string;
  args_union : bool;
  args_skip_check : bool;
  args_outdir : string;
  args_suffix : string;
  args_f_tagset : option string;
  args_noise_level : option string;
  args_time_period : option string;
}.

Definition invalid_alternative_msg : string :=
  "The provided arguments are not valid. Alternative annotations are only allowed for the NEL evaluation.".

Definition invalid_schema_msg : string :=
  "The provided arguments are not valid. Restrict to a single evaluation schema for NEL, either a ranked n-best list or the union of the metonymic and literal column.".

(** [str(e)], as [print(e)] shows an exception; only the messages that the
    scorer gives its own exceptions are modelled. *)
Definition exn_str (e : exn) : string :=
  match e with
  | AssertionError msg => msg
  | ForeignError what => what
  | _ => EmptyString
  end.

(** [except Exception] *)
Definition is_Exception (e : exn) : bool :=
  match e with
  | SystemExit _ => false
  | _ => true
  end.

(** The status with which the process ends. *)
Definition exit_status {A} (r : result A) : Z :=
  match r with
  | Ok _ => 0
  | Raise (SystemExit code) => code
  | Raise _ => 1
  end.

Section Main.
Context `{Host}.

Definition check_validity_of_arguments (args : Args) : M unit :=
  if negb (String.eqb (args_task args) "nel")
     && (args_union args || opt_truthy (args_n_best args))
  then emit (ELogError invalid_alternative_msg) ;;;
       raise (AssertionError invalid_alternative_msg)
  else if args_union args && opt_truthy (args_n_best args)
  then emit (ELogError invalid_schema_msg) ;;;
       raise (AssertionError invalid_schema_msg)
  else ret tt.

(** [[int(n) for n in args.n_best.split(",")]], or [[1]] *)
Definition parse_n_best (n_best : option string) : result (list Z) :=
  match n_best with
  | Some s => if truthy s then rmap int (split "," s) else Ok [1]
  | None => Ok [1]
  end.

(** [lower, upper] of one noise band, as floats *)
Definition parse_noise_band (level : list string) : result (float * float) :=
  match level with
  | [lower; upper] =>
      lower <~ of_option ValueError (float_of_str lower) ;;
      upper <~ of_option ValueError (float_of_str upper) ;;
      Ok (lower, upper)
  | _ => Raise ValueError
  end.

Definition parse_noise_levels (noise : option string) : result (list noise_level) :=
  match noise with
  | Some s =>
      if truthy s then
        let noise_levels := split "-" <$> split "," s in
        noise_levels <~ rmap parse_noise_band noise_levels ;;
        (* add case to evaluate on all entities regardless of noise *)
        Ok (None :: (Some <$> noise_levels))
      else Ok [None]
  | None => Ok [None]
  end.

(** [(strptime(period[0], format), strptime(period[1], format))] *)
Definition parse_period (format : string) (period : list string)
    : result (datetime * datetime) :=
  match period with
  | [] => Raise IndexError
  | p0 :: rest =>
      date_start <~ of_option ValueError (strptime p0 format) ;;
      match rest with
      | [] => Raise IndexError
      | p1 :: _ =>
          date_end <~ of_option ValueError (strptime p1 format) ;;
          Ok (date_start, date_end)
      end
  end.

Definition parse_time_periods (time : option string) : result (list time_period) :=
  match time with
  | Some s =>
      if truthy s then
        let time_periods := split "-" <$> split "," s in
        time_periods <~
          match rmap (parse_period "%Y") time_periods with
          | Raise ValueError => rmap (parse_period "%Y/%m/%d") time_periods
          | r => r
          end ;;
        (* add case to evaluate on all entities regardless of period *)
        Ok (None :: (Some <$> time_periods))
      else Ok [None]
  | None => Ok [None]
  end.

Definition main (args : Args) : M unit :=
  (* log to file *)
  open_w (Path (args_f_log args)) ;;;
  try_except (check_validity_of_arguments args)
    (λ e, if is_Exception e
          then Some (emit (EPrint (exn_str e)) ;;; raise (SystemExit 1))
          else None) ;;;
  n_best <- lift (parse_n_best (args_n_best args)) ;;
  noise_levels <- lift (parse_noise_levels (args_noise_level args)) ;;
  time_periods <- lift (parse_time_periods (args_time_period args)) ;;
  try_except
    (get_results (args_f_ref args) (args_f_pred args) (args_task args)
       (args_skip_check args) (args_glueing_cols args) n_best (args_union args)
       (args_outdir args) (args_suffix args) (args_f_tagset args)
       noise_levels time_periods)
    (λ e, match e with
          | AssertionError _ =>
              (* don't interrupt the pipeline *)
              Some (emit (EPrint (exn_str e)))
          | _ => None
          end).
End Main.

(** ** A sample host

    The scorer is run on concrete inputs against this host. Decimal
    fixed-point numbers (in millionths) stand in for floats, a date is its
    year, month and day, and the collaborator is a counter that answers each
    call with bundles made from the number of the call. *)

Module Sample.

Definition all_digits (s : string) : bool :=
  truthy s && bool_decide (Forall (λ c, is_Some (digit_of c)) (String.list_ascii_of_string s)).

Definition digits_value (s : string) : Z :=
  default 0 (digits_go 0 false s).

(** [n] in exactly [width] digits, [n] being below [10 ^ width] *)
Fixpoint zero_pad (width : nat) (n : Z) : string :=
  match width with
  | O => EmptyString
  | S w => zero_pad w (n / 10) +:+ str_of_int (n mod 10)
  end.

Fixpoint rstrip_zeros_rev (s : string) : string :=
  match s with
  | String "0" s' => rstrip_zeros_rev s'
  | _ => s
  end.

Definition decimal_of_str (s : string) : option Z :=
  match split "." s with
  | [whole] => if all_digits whole then Some (digits_value whole * 1000000) else None
  | [whole; frac] =>
      if all_digits whole && all_digits frac && bool_decide (String.length frac ≤ 6)%nat
      then Some (digits_value whole * 1000000
                 + digits_value frac * 10 ^ Z.of_nat (6 - String.length frac))
      else None
  | _ => None
  end.

Definition decimal_str (x : Z) : string :=
  let frac := String.rev (rstrip_zeros_rev (String.rev (zero_pad 6 (x mod 1000000)))) in
  str_of_int (x / 1000000) +:+ "." +:+ (if truthy frac then frac else "0").

(** rounding to [ndigits] places, ties to the even neighbour *)
Definition decimal_round (x : Z) (ndigits : Z) : Z :=
  let unit := 10 ^ (6 - ndigits) in
  let q := x / unit in
  let r := x mod unit in
  let q := if (2 * r <? unit) then q
           else if (unit <? 2 * r) then q + 1
           else if Z.even q then q else q + 1 in
  q * unit.

#[export] Instance decimal : PyFloat := {|
  float := Z;
  float_of_str := decimal_of_str;
  float_str := decimal_str;
  float_round := decimal_round;
|}.

Record date : Type := mkDate { year : Z; month : Z; day : Z }.

Definition valid_date (y m d : Z) : bool :=
  bool_decide (1 ≤ y ≤ 9999 ∧ 1 ≤ m ≤ 12 ∧ 1 ≤ d ≤ 31).

Definition date_of_str (s format : string) : option date :=
  if String.eqb format "%Y" then
    if all_digits s && bool_decide (String.length s = 4%nat) && valid_date (digits_value s) 1 1
    then Some (mkDate (digits_value s) 1 1) else None
  else if String.eqb format "%Y/%m/%d" then
    match split "/" s with
    | [y; m; d] =>
        if all_digits y && all_digits m && all_digits d
           && bool_decide (String.length y = 4%nat)
           && valid_date (digits_value y) (digits_value m) (digits_value d)
        then Some (mkDate (digits_value y) (digits_value m) (digits_value d)) else None
    | _ => None
    end
  else None.

Definition date_str (d : date) (format : string) : string :=
  if String.eqb format "%Y" then zero_pad 4 (year d) else format.

#[export] Instance calendar : PyDatetime := {|
  datetime := date;
  strptime := date_of_str;
  strftime := date_str;
  dt_month := month;
  dt_day := day;
|}.

(** The metrics of one tag under one regime, from its counts; a score
    without a meaningful deviation has an empty one. *)
Definition sample_metrics (tp fp fn : Z) : metrics :=
  let p := tp * 1000000 / (tp + fp) in
  let r := tp * 1000000 / (tp + fn) in
  let f1 := 2 * tp * 1000000 / (2 * tp + fp + fn) in
  [("P_micro", VFloat p); ("R_micro", VFloat r); ("F1_micro", VFloat f1);
   ("TP", VInt tp); ("FP", VInt fp); ("FN", VInt fn);
   ("P_macro_doc", VFloat p); ("R_macro_doc", VFloat r); ("F1_macro_doc", VFloat f1);
   ("P_macro_doc_std", VFloat 12345); ("R_macro_doc_std", VStr EmptyString);
   ("F1_macro_doc_std", VNone)].

Definition sample_bundle (tp fp fn : Z) : bundle :=
  [("strict", sample_metrics tp fp fn); ("ent_type", sample_metrics (tp + 1) fp fn)].

(** The answer to the call number [calls]: the tags overlap, so the
    column-global counts are not the sums of the counts per tag. *)
Definition sample_evaluate (calls : nat) (col : column) (eval_type : string)
    (merge_lines : bool) (n_best : Z) (noise : noise_level) (time : time_period)
    (tags : tagset) : nat * result (bundle * per_tag) :=
  let c := Z.of_nat calls in
  (S calls,
   Ok (sample_bundle (5 + c) 2 1,
       [("pers", sample_bundle (3 + c) 1 1); ("loc", sample_bundle (4 + c) 2 1)])).

#[export] Instance counter : Host := {|
  host_state := nat;
  host_new_evaluator := λ h _ _ _, (h, Ok tt);
  host_evaluate := sample_evaluate;
  host_read_text := λ h _, (h, Ok "pers");
  host_open_w := λ h _, (h, Ok tt);
  set_order := reverse;
  set_order_perm := reverse_Permutation;
|}.

Definition start : World := mkWorld [] O.

End Sample.

(** * Verification *)

(** ** Dictionaries and sorting *)

Section DictFacts.
Context {V : Type}.
Implicit Types (d : dict V) (k : string) (v : V).

Lemma get_set_eq k v d : get k (set k v d) = Some v.
Proof.
  induction d as [|[k' v'] d IH]; simpl.
  - by rewrite String.eqb_refl.
  - destruct (String.eqb k k') eqn:E; simpl; rewrite ?String.eqb_refl, ?E; auto.
Qed.

Lemma get_set_ne k k' v d : k ≠ k' → get k' (set k v d) = get k' d.
Proof.
  intros Hne. induction d as [|[k0 v0] d IH]; simpl.
  - destruct (String.eqb_spec k' k); congruence.
  - destruct (String.eqb_spec k k0) as [->|]; simpl.
    + destruct (String.eqb_spec k' k0); congruence.
    + destruct (String.eqb_spec k' k0); auto.
Qed.

Lemma set_set k v1 v2 d : set k v2 (set k v1 d) = set k v2 d.
Proof.
  induction d as [|[k' v'] d IH]; simpl.
  - by rewrite String.eqb_refl.
  - destruct (String.eqb k k') eqn:E; simpl; rewrite ?String.eqb_refl, ?E; congruence.
Qed.

Lemma get_Some_keys k v d : get k d = Some v → k ∈ keys d.
Proof.
  induction d as [|[k' v'] d IH]; simpl; [done|].
  destruct (String.eqb_spec k k') as [->|]; intros.
  - apply list_elem_of_here.
  - apply list_elem_of_further; auto.
Qed.

Lemma get_None_keys k d : get k d = None ↔ k ∉ keys d.
Proof.
  induction d as [|[k' v'] d IH]; simpl.
  - split; [intros _ ?%elem_of_nil; done | done].
  - rewrite not_elem_of_cons.
    destruct (String.eqb_spec k k') as [->|]; [split; [done | intros []; done]|].
    rewrite IH. tauto.
Qed.

Lemma keys_get k d : k ∈ keys d → is_Some (get k d).
Proof.
  intros Hin. destruct (get k d) eqn:E; [eauto|].
  by apply get_None_keys in E.
Qed.

(** Assigning to a key that is present keeps the keys as they are; a new
    key goes to the end. *)
Lemma keys_set_in k v d : k ∈ keys d → keys (set k v d) = keys d.
Proof.
  induction d as [|[k' v'] d IH]; simpl; [by intros ?%elem_of_nil|].
  destruct (String.eqb_spec k k') as [->|]; simpl; [done|].
  intros [?|?]%elem_of_cons; [done|]. f_equal. auto.
Qed.

Lemma keys_set_new k v d : k ∉ keys d → keys (set k v d) = keys d ++ [k].
Proof.
  induction d as [|[k' v'] d IH]; simpl; [done|].
  rewrite not_elem_of_cons. intros [Hne Hnin].
  destruct (String.eqb_spec k k'); [done|]. simpl. f_equal. auto.
Qed.

Lemma set_app_new k v d : k ∉ keys d → set k v d = d ++ [(k, v)].
Proof.
  induction d as [|[k' v'] d IH]; simpl; [done|].
  rewrite not_elem_of_cons. intros [Hne Hnin].
  destruct (String.eqb_spec k k'); [done|]. f_equal. auto.
Qed.

Lemma set_app_here k v v0 d1 d2 :
  k ∉ keys d1 → set k v (d1 ++ (k, v0) :: d2) = d1 ++ (k, v) :: d2.
Proof.
  induction d1 as [|[k' v'] d1 IH]; simpl.
  - by rewrite String.eqb_refl.
  - rewrite not_elem_of_cons. intros [Hne Hnin].
    destruct (String.eqb_spec k k'); [done|]. f_equal. auto.
Qed.

Lemma NoDup_keys_set k v d : NoDup (keys d) → NoDup (keys (set k v d)).
Proof.
  intros Hnd. destruct (decide (k ∈ keys d)) as [Hin|Hnin].
  - by rewrite keys_set_in.
  - rewrite keys_set_new by done. apply NoDup_app. split_and!; [done| |apply NoDup_singleton].
    intros x Hx ->%list_elem_of_singleton. done.
Qed.
End DictFacts.

(** [sorted] gives the one sorted arrangement of its argument. *)
Lemma sorted_Permutation l : sorted l ≡ₚ l.
Proof. apply merge_sort_Permutation. Qed.

Lemma sorted_StronglySorted l : StronglySorted String.le (sorted l).
Proof. apply StronglySorted_merge_sort; apply _. Qed.

Lemma sorted_perm_eq l1 l2 : l1 ≡ₚ l2 → sorted l1 = sorted l2.
Proof.
  intros Hp. apply (StronglySorted_unique String.le); try apply sorted_StronglySorted.
  by rewrite !sorted_Permutation.
Qed.

Lemma sorted_of_sorted l : StronglySorted String.le l → sorted l = l.
Proof.
  intros Hs. apply (StronglySorted_unique String.le);
    [apply sorted_StronglySorted | done | apply sorted_Permutation].
Qed.

Lemma elem_of_sorted x l : x ∈ sorted l ↔ x ∈ l.
Proof. by rewrite sorted_Permutation. Qed.

(** ** Loops that collect *)

Lemma elem_of_concat {A} (x : A) (ls : list (list A)) :
  x ∈ concat ls ↔ ∃ l, l ∈ ls ∧ x ∈ l.
Proof.
  rewrite list_elem_of_In, in_concat. split.
  - intros (l & ?%list_elem_of_In & ?%list_elem_of_In). eauto.
  - intros (l & ?%list_elem_of_In & ?%list_elem_of_In). eauto.
Qed.

(** [rconcat f xs] runs [f] on the elements of [xs] in turn and chains what
    it returns: the loops of [assemble_tsv_output] have this shape. *)
Definition rconcat {A B} (f : A → result (list B)) (xs : list A) : result (list B) :=
  ls <~ rmap f xs ;; Ok (concat ls).

Section ComprehensionFacts.
Context {A B : Type}.

Lemma rbind_Ok {X Y} (r : result X) (k : X → result Y) y :
  rbind r k = Ok y ↔ ∃ x, r = Ok x ∧ k x = Ok y.
Proof.
  destruct r as [x|e]; simpl; split.
  - intros Hk. by exists x.
  - by intros (x' & [= <-] & Hk).
  - done.
  - by intros (x & Hx & _).
Qed.

Lemma rmap_Ok (f : A → result B) xs ys :
  rmap f xs = Ok ys ↔ Forall2 (λ x y, f x = Ok y) xs ys.
Proof.
  revert ys. induction xs as [|x xs IH]; intros ys; simpl.
  - split; [intros [= <-]; constructor | by intros ->%Forall2_nil_inv_l].
  - rewrite rbind_Ok. split.
    + intros (y & Hy & (ys' & Hys & [= <-])%rbind_Ok). constructor; [done | by apply IH].
    + intros (y & ys' & Hy & Hys & ->)%Forall2_cons_inv_l.
      exists y. split; [done|]. apply rbind_Ok. exists ys'. split; [by apply IH | done].
Qed.

Lemma rmap_ext (f g : A → result B) xs :
  (∀ x, x ∈ xs → f x = g x) → rmap f xs = rmap g xs.
Proof.
  induction xs as [|x xs IH]; intros Hfg; simpl; [done|].
  rewrite Hfg by apply list_elem_of_here. rewrite IH; [done|].
  intros ??. apply Hfg. by apply list_elem_of_further.
Qed.

Lemma rmap_total (f : A → result B) xs :
  (∀ x, x ∈ xs → ∃ y, f x = Ok y) → ∃ ys, rmap f xs = Ok ys.
Proof.
  induction xs as [|x xs IH]; intros Hf; simpl; [eauto|].
  destruct (Hf x) as [y ->]; [apply list_elem_of_here|].
  destruct IH as [ys ->]; [|simpl; eauto].
  intros ??. apply Hf. by apply list_elem_of_further.
Qed.

End ComprehensionFacts.

Section LoopFacts.
Context {A B S : Type}.

Lemma rconcat_Ok (f : A → result (list B)) xs rows :
  rconcat f xs = Ok rows ↔ ∃ ls, Forall2 (λ x l, f x = Ok l) xs ls ∧ rows = concat ls.
Proof.
  unfold rconcat. rewrite rbind_Ok. split.
  - intros (ls & Hls%rmap_Ok & [= <-]). by exists ls.
  - intros (ls & Hls%rmap_Ok & ->). by exists ls.
Qed.

Lemma rconcat_ext (f g : A → result (list B)) xs :
  (∀ x, x ∈ xs → f x = g x) → rconcat f xs = rconcat g xs.
Proof. intros. unfold rconcat. by rewrite (rmap_ext f g). Qed.

Lemma rconcat_total (f : A → result (list B)) xs :
  (∀ x, x ∈ xs → ∃ l, f x = Ok l) → ∃ rows, rconcat f xs = Ok rows.
Proof. intros [ls Hls]%rmap_total. unfold rconcat. rewrite Hls. simpl. eauto. Qed.

(** Whatever a collecting loop returns was returned for one element. *)
Lemma rconcat_elem_of (f : A → result (list B)) xs rows r :
  rconcat f xs = Ok rows → r ∈ rows → ∃ x l, x ∈ xs ∧ f x = Ok l ∧ r ∈ l.
Proof.
  intros (ls & Hls & ->)%rconcat_Ok (l & Hl & Hr)%elem_of_concat.
  apply list_elem_of_lookup in Hl as [i Hi].
  destruct (Forall2_lookup_r _ _ _ _ _ Hls Hi) as (x & Hx & Hfx).
  exists x, l. split_and!; [by eapply list_elem_of_lookup_2 | done | done].
Qed.

Lemma rconcat_cons (f : A → result (list B)) x xs :
  rconcat f (x :: xs) = (l <~ f x ;; ls <~ rconcat f xs ;; Ok (l ++ ls)).
Proof.
  unfold rconcat. simpl. destruct (f x); simpl; [|done]. by destruct (rmap f xs).
Qed.

Lemma rfor_ext (body1 body2 : A → S → result S) xs s :
  (∀ x s, body1 x s = body2 x s) → rfor xs body1 s = rfor xs body2 s.
Proof.
  intros Hb. revert s. induction xs as [|x xs IH]; intros s; simpl; [done|].
  rewrite Hb. destruct (body2 x s); simpl; auto.
Qed.

(** A loop whose body appends what it computes is a collecting loop. *)
Lemma rfor_collect (g : A → result (list B)) (body : A → list B → result (list B)) xs acc :
  (∀ x acc, body x acc = (new <~ g x ;; Ok (acc ++ new))) →
  rfor xs body acc = (new <~ rconcat g xs ;; Ok (acc ++ new)).
Proof.
  intros Hb. revert acc. induction xs as [|x xs IH]; intros acc.
  - simpl. by rewrite app_nil_r.
  - simpl rfor. rewrite Hb, rconcat_cons. destruct (g x) as [l|]; simpl; [|done].
    rewrite IH. destruct (rconcat g xs); simpl; [|done]. by rewrite app_assoc.
Qed.
End LoopFacts.

(** ** The rows of a report *)

Section AssembleSpec.
Context `{PyFloat}.

(** What the rounding loop makes of a value. *)
Definition rounded (v : value) : value :=
  match v with
  | VFloat x => VFloat (float_round x 3)
  | VInt _ | VStr _ | VNone => v
  end.

(** The [Evaluation] field of the rows of a column, aggregation and regime. *)
Definition evaluation_label (col aggr regime suffix : string) : string :=
  col +:+ "-" +:+ aggr +:+ "-" +:+ regime +:+ (if truthy suffix then "-" +:+ suffix else suffix).

(** A row, from the values found in the bundle. *)
Definition row_of (submission label tag : string) (p r f1 : value)
    (counts stds : option (value * value * value)) : row :=
  [("System", VStr submission); ("Evaluation", VStr label); ("Label", VStr tag);
   ("P", rounded p); ("R", rounded r); ("F1", rounded f1)]
  ++ match counts with
     | Some (tp, fp, fn) => [("TP", rounded tp); ("FP", rounded fp); ("FN", rounded fn)]
     | None => []
     end
  ++ match stds with
     | Some (p_std, r_std, f1_std) =>
         [("P_std", rounded p_std); ("R_std", rounded r_std); ("F1_std", rounded f1_std)]
     | None => []
     end.

(** The values that a row takes from the bundle, in the order in which
    they are looked up. *)
Definition row_values (eval_stats : stats) (col aggr regime tag : string)
    : result (value * value * value * option (value * value * value)
              * option (value * value * value)) :=
  p <~ stat eval_stats col tag regime ("P_" +:+ aggr) ;;
  r <~ stat eval_stats col tag regime ("R_" +:+ aggr) ;;
  f1 <~ stat eval_stats col tag regime ("F1_" +:+ aggr) ;;
  counts <~ (if String.eqb aggr "micro" then
               tp <~ stat eval_stats col tag regime "TP" ;;
               fp <~ stat eval_stats col tag regime "FP" ;;
               fn <~ stat eval_stats col tag regime "FN" ;;
               Ok (Some (tp, fp, fn))
             else Ok None) ;;
  stds <~ (if contains "macro" aggr then
             p_std <~ stat eval_stats col tag regime ("P_" +:+ aggr +:+ "_std") ;;
             r_std <~ stat eval_stats col tag regime ("R_" +:+ aggr +:+ "_std") ;;
             f1_std <~ stat eval_stats col tag regime ("F1_" +:+ aggr +:+ "_std") ;;
             Ok (Some (p_std, r_std, f1_std))
           else Ok None) ;;
  Ok (p, r, f1, counts, stds).

(** The rows of one column, aggregation and regime. *)
Definition group_rows (submission : string) (eval_stats : stats) (only_aggregated : bool)
    (suffix col aggr regime : string) : result (list row) :=
  by_tag <~ getitem col eval_stats ;;
  rconcat
    (λ tag,
       if only_aggregated && negb (String.eqb tag "ALL") then Ok []
       else
         results <~ tag_results submission eval_stats col aggr (storage_regime regime)
                      (col +:+ "-" +:+ aggr +:+ "-" +:+ regime +:+ suffix) tag ;;
         Ok [results])
    (sorted (keys by_tag)).

Lemma round_total (v : value) : round v 3 = Ok (rounded v) ∨ (round v 3 = Raise TypeError ∧ rounded v = v).
Proof. destruct v; simpl; auto. Qed.

Lemma round_results_go (pre todo : row) :
  NoDup (keys (pre ++ todo)) →
  rfor todo
    (λ '(metric, fig) results,
       match round fig 3 with
       | Ok v => Ok (set metric v results)
       | Raise TypeError => Ok results
       | Raise e => Raise e
       end)
    (pre ++ todo)
  = Ok (pre ++ (prod_map id rounded <$> todo)).
Proof.
  revert pre. induction todo as [|[k v] todo IH]; intros pre Hnd; simpl; [done|].
  unfold keys in Hnd. rewrite fmap_app, fmap_cons in Hnd. simpl in Hnd.
  apply NoDup_app in Hnd as (Hd & Hdt & Ht).
  assert (k ∉ pre.*1) as Hk by (intros Hin; apply (Hdt _ Hin), list_elem_of_here).
  assert (NoDup (keys ((pre ++ [(k, rounded v)]) ++ todo))) as Hnd'.
  { unfold keys. rewrite !fmap_app. simpl. rewrite <- app_assoc. simpl.
    apply NoDup_app. split_and!; done. }
  specialize (IH _ Hnd'). rewrite <- !app_assoc in IH. simpl in IH.
  destruct (round_total v) as [->|[-> Hv]]; simpl.
  - rewrite set_app_here by done. apply IH.
  - rewrite Hv in IH |- *. apply IH.
Qed.

(** The rounding loop rounds every value where it stands. *)
Lemma round_results_spec (results : row) :
  NoDup (keys results) → round_results results = Ok (prod_map id rounded <$> results).
Proof. intros Hnd. apply (round_results_go [] results Hnd). Qed.
End AssembleSpec.

Section AssembleFacts.
Context `{PyFloat}.
Implicit Types (eval_stats : stats) (rows : list row).

(** The tags for which a row is made. *)
Definition reported_tags (only_aggregated : bool) (by_tag : per_tag) : list string :=
  filter (λ tag, only_aggregated && negb (String.eqb tag "ALL") = false) (sorted (keys by_tag)).

(** The [Evaluation] and [Label] fields of a row. *)
Definition row_index (r : row) : option value * option value :=
  (get "Evaluation" r, get "Label" r).

(** The [Evaluation] and [Label] fields of the rows of a report, in the
    order of the rows. *)
Definition report_index (eval_stats : stats) (regimes : list string)
    (only_aggregated : bool) (suffix : string) : list (option value * option value) :=
  concat ((λ col,
    concat ((λ aggr,
      concat ((λ regime,
        (λ tag, (Some (VStr (evaluation_label col aggr regime suffix)), Some (VStr tag)))
          <$> reported_tags only_aggregated (default [] (get col eval_stats)))
      <$> regimes))
    <$> aggregations))
  <$> sorted (keys eval_stats)).

Lemma tag_results_spec submission eval_stats col aggr regime label tag :
  tag_results submission eval_stats col aggr regime label tag
  = (vals <~ row_values eval_stats col aggr regime tag ;;
     let '(p, r, f1, counts, stds) := vals in
     Ok (row_of submission label tag p r f1 counts stds)).
Proof.
  unfold tag_results, row_values, metric_names, figures.
  cbn [rfor rbind].
  change ("P" +:+ "_" +:+ aggr) with ("P_" +:+ aggr).
  change ("R" +:+ "_" +:+ aggr) with ("R_" +:+ aggr).
  change ("F1" +:+ "_" +:+ aggr) with ("F1_" +:+ aggr).
  change ("P" +:+ "_" +:+ aggr +:+ "_std") with ("P_" +:+ aggr +:+ "_std").
  change ("R" +:+ "_" +:+ aggr +:+ "_std") with ("R_" +:+ aggr +:+ "_std").
  change ("F1" +:+ "_" +:+ aggr +:+ "_std") with ("F1_" +:+ aggr +:+ "_std").
  destruct (stat eval_stats col tag regime ("P_" +:+ aggr)) as [p|]; cbn [rbind]; [|done].
  destruct (stat eval_stats col tag regime ("R_" +:+ aggr)) as [r|]; cbn [rbind]; [|done].
  destruct (stat eval_stats col tag regime ("F1_" +:+ aggr)) as [f1|]; cbn [rbind]; [|done].
  destruct (aggr =? "micro")%string; destruct (contains "macro" aggr); cbn [rbind];
    repeat (match goal with
            | |- context [stat ?a ?b ?c ?d ?e] =>
                destruct (stat a b c d e); cbn [rbind]; [|done]
            end);
    (rewrite round_results_spec;
     [reflexivity | apply (bool_decide_unpack _); vm_compute; exact I]).
Qed.

Lemma rconcat_skip {A B} (skip : A → bool) (f : A → result B) xs :
  rconcat (λ x, if skip x then Ok [] else y <~ f x ;; Ok [y]) xs
  = rmap f (filter (λ x, skip x = false) xs).
Proof.
  induction xs as [|x xs IH]; [done|].
  rewrite rconcat_cons, IH, filter_cons.
  case_decide as Hskip.
  - rewrite Hskip. simpl. destruct (f x); simpl; [|done]. by destruct (rmap f _).
  - apply not_false_is_true in Hskip. rewrite Hskip. simpl. by destruct (rmap f _).
Qed.

Lemma group_rows_spec submission eval_stats only_aggregated suffix col aggr regime :
  group_rows submission eval_stats only_aggregated suffix col aggr regime
  = (by_tag <~ getitem col eval_stats ;;
     rmap (tag_results submission eval_stats col aggr (storage_regime regime)
             (col +:+ "-" +:+ aggr +:+ "-" +:+ regime +:+ suffix))
          (reported_tags only_aggregated by_tag)).
Proof.
  unfold group_rows. destruct (getitem col eval_stats) as [by_tag|]; simpl; [|done].
  apply (rconcat_skip (λ tag, only_aggregated && negb (String.eqb tag "ALL"))).
Qed.

Lemma regime_rows_spec submission eval_stats only_aggregated suffix col aggr regime rows :
  regime_rows submission eval_stats only_aggregated suffix col aggr regime rows
  = (new <~ group_rows submission eval_stats only_aggregated suffix col aggr regime ;;
     Ok (rows ++ new)).
Proof.
  unfold regime_rows, group_rows.
  destruct (getitem col eval_stats) as [by_tag|]; cbn [rbind]; [|done].
  apply rfor_collect. intros tag acc.
  destruct (only_aggregated && negb (String.eqb tag "ALL")); cbn [rbind].
  - by rewrite app_nil_r.
  - by destruct (tag_results _ _ _ _ _ _ _).
Qed.

(** The report is the chain of the rows of its groups: columns in sorted
    order, then the aggregations, then the regimes. *)
Lemma assemble_tsv_output_spec submission eval_stats regimes only_aggregated suffix :
  assemble_tsv_output submission eval_stats regimes only_aggregated suffix
  = (rows <~ rconcat (λ col,
               rconcat (λ aggr,
                 rconcat (λ regime,
                   group_rows submission eval_stats only_aggregated
                     (if truthy suffix then "-" +:+ suffix else suffix) col aggr regime)
                   regimes)
                 aggregations)
               (sorted (keys eval_stats)) ;;
     Ok (fieldnames, rows)).
Proof.
  unfold assemble_tsv_output.
  rewrite (rfor_collect (λ col,
               rconcat (λ aggr,
                 rconcat (λ regime,
                   group_rows submission eval_stats only_aggregated
                     (if truthy suffix then "-" +:+ suffix else suffix) col aggr regime)
                   regimes)
                 aggregations)).
  - by destruct (rconcat _ _).
  - intros col acc. apply rfor_collect. intros aggr acc'. apply rfor_collect.
    intros regime acc''. apply regime_rows_spec.
Qed.
End AssembleFacts.

Section ReportFacts.
Context `{PyFloat}.
Implicit Types (eval_stats : stats) (rows : list row).

Lemma rconcat_fmap {A B C} (f : A → result (list B)) (g : A → list C) (h : B → C) xs l :
  (∀ x l, x ∈ xs → f x = Ok l → h <$> l = g x) →
  rconcat f xs = Ok l → h <$> l = concat (g <$> xs).
Proof.
  revert l. induction xs as [|x xs IH]; intros l Hfg.
  - by intros [= <-].
  - rewrite rconcat_cons. intros (l1 & Hl1 & (l2 & Hl2 & [= <-])%rbind_Ok)%rbind_Ok.
    rewrite fmap_app, fmap_cons. simpl. f_equal.
    + apply Hfg; [apply list_elem_of_here | done].
    + apply IH; [|done]. intros ????. apply Hfg; [by apply list_elem_of_further | done].
Qed.

Lemma rmap_fmap {A B C} (f : A → result B) (g : A → C) (h : B → C) xs l :
  (∀ x y, x ∈ xs → f x = Ok y → h y = g x) →
  rmap f xs = Ok l → h <$> l = g <$> xs.
Proof.
  revert l. induction xs as [|x xs IH]; intros l Hfg; simpl.
  - by intros [= <-].
  - intros (y & Hy & (ys & Hys & [= <-])%rbind_Ok)%rbind_Ok.
    rewrite fmap_cons. f_equal.
    + apply Hfg; [apply list_elem_of_here | done].
    + apply IH; [|done]. intros ????. apply Hfg; [by apply list_elem_of_further | done].
Qed.

Lemma row_index_row_of submission label tag p r f1 counts stds :
  row_index (row_of submission label tag p r f1 counts stds)
  = (Some (VStr label), Some (VStr tag)).
Proof. reflexivity. Qed.

Lemma tag_results_Ok submission eval_stats col aggr regime label tag row :
  tag_results submission eval_stats col aggr regime label tag = Ok row ↔
  ∃ p r f1 counts stds,
    row_values eval_stats col aggr regime tag = Ok (p, r, f1, counts, stds)
    ∧ row = row_of submission label tag p r f1 counts stds.
Proof.
  rewrite tag_results_spec, rbind_Ok. split.
  - intros ([[[[p r] f1] counts] stds] & Hv & [= <-]). by exists p, r, f1, counts, stds.
  - intros (p & r & f1 & counts & stds & Hv & ->). by exists (p, r, f1, counts, stds).
Qed.

Lemma getitem_Ok {V} k (d : dict V) v : getitem k d = Ok v ↔ get k d = Some v.
Proof. unfold getitem. destruct (get k d); simpl; naive_solver. Qed.

(** The fields that identify the rows of a report. *)
Lemma assemble_tsv_output_index submission eval_stats regimes only_aggregated suffix out :
  assemble_tsv_output submission eval_stats regimes only_aggregated suffix = Ok out →
  out.1 = fieldnames
  ∧ row_index <$> out.2 = report_index eval_stats regimes only_aggregated suffix.
Proof.
  rewrite assemble_tsv_output_spec.
  intros (rows & Hrows & [= <-])%rbind_Ok. split; [done|]. simpl.
  revert Hrows. apply rconcat_fmap. intros col l _. apply rconcat_fmap.
  intros aggr l' _. apply rconcat_fmap. intros regime l'' _.
  rewrite group_rows_spec. intros (by_tag & Hget%getitem_Ok & Hmap)%rbind_Ok.
  rewrite Hget. simpl. revert Hmap. apply rmap_fmap.
  intros tag row _ (p & r & f1 & counts & stds & _ & ->)%tag_results_Ok. done.
Qed.

(** Every row of a report is the row of a column, an aggregation, a regime
    and a tag. *)
Lemma assemble_tsv_output_elem_of submission eval_stats regimes only_aggregated suffix
    out row :
  assemble_tsv_output submission eval_stats regimes only_aggregated suffix = Ok out →
  row ∈ out.2 →
  ∃ col aggr regime tag by_tag,
    col ∈ keys eval_stats ∧ aggr ∈ aggregations ∧ regime ∈ regimes
    ∧ get col eval_stats = Some by_tag
    ∧ tag ∈ reported_tags only_aggregated by_tag
    ∧ tag_results submission eval_stats col aggr (storage_regime regime)
        (evaluation_label col aggr regime suffix) tag = Ok row.
Proof.
  rewrite assemble_tsv_output_spec.
  intros (rows & Hrows & [= <-])%rbind_Ok Hrow. simpl in Hrow.
  destruct (rconcat_elem_of _ _ _ _ Hrows Hrow) as (col & l & Hcol & Hl & Hrow1).
  destruct (rconcat_elem_of _ _ _ _ Hl Hrow1) as (aggr & l' & Haggr & Hl' & Hrow2).
  destruct (rconcat_elem_of _ _ _ _ Hl' Hrow2) as (regime & l'' & Hregime & Hl'' & Hrow3).
  rewrite group_rows_spec in Hl''.
  apply rbind_Ok in Hl'' as (by_tag & Hget%getitem_Ok & Hmap%rmap_Ok).
  apply list_elem_of_lookup in Hrow3 as [i Hi].
  destruct (Forall2_lookup_r _ _ _ _ _ Hmap Hi) as (tag & Htag & Hres).
  exists col, aggr, regime, tag, by_tag. split_and!; try done.
  - exact (proj1 (elem_of_sorted _ _) Hcol).
  - by eapply list_elem_of_lookup_2.
Qed.
End ReportFacts.

(** ** Complete bundles

    The data model has every metric present under every tag and regime; a
    metric without a meaningful value is present with an empty value. *)

Definition metric_keys : list string :=
  ["P_micro"; "R_micro"; "F1_micro"; "TP"; "FP"; "FN";
   "P_macro_doc"; "R_macro_doc"; "F1_macro_doc";
   "P_macro_doc_std"; "R_macro_doc_std"; "F1_macro_doc_std"].

(** Looks up a metric that a complete bundle is known to have. *)
Ltac use_stat Hstat key :=
  let v := fresh "v" in
  let Hv := fresh "Hv" in
  destruct (Hstat key) as [v Hv];
  [apply (bool_decide_unpack _); vm_compute; exact I|];
  rewrite Hv; clear Hv; cbn [rbind].

Section Complete.
Context `{PyFloat}.

Definition complete_bundle (regimes : list string) (b : bundle) : bool :=
  forallb (λ regime,
    match get (storage_regime regime) b with
    | Some by_metric => forallb (λ key, bool_decide (is_Some (get key by_metric))) metric_keys
    | None => false
    end) regimes.

Definition complete_per_tag (regimes : list string) (by_tag : per_tag) : bool :=
  forallb (λ item, complete_bundle regimes item.2) by_tag.

Definition complete (regimes : list string) (eval_stats : stats) : bool :=
  forallb (λ item, complete_per_tag regimes item.2) eval_stats.

Lemma get_elem_of {V} k (d : dict V) v : get k d = Some v → (k, v) ∈ d.
Proof.
  induction d as [|[k' v'] d IH]; simpl; [done|].
  destruct (String.eqb_spec k k') as [->|].
  - intros [= ->]. apply list_elem_of_here.
  - intros. apply list_elem_of_further. auto.
Qed.

Lemma forallb_elem_of {A} (f : A → bool) l x : forallb f l = true → x ∈ l → f x = true.
Proof. rewrite forallb_forall. intros Hf ?%list_elem_of_In. auto. Qed.

Lemma complete_stat regimes eval_stats col by_tag tag regime key :
  complete regimes eval_stats = true →
  get col eval_stats = Some by_tag → tag ∈ keys by_tag →
  regime ∈ regimes → key ∈ metric_keys →
  ∃ v, stat eval_stats col tag (storage_regime regime) key = Ok v.
Proof.
  intros Hc Hcol Htag Hregime Hkey.
  destruct (keys_get _ _ Htag) as [b Hb].
  pose proof (forallb_elem_of _ _ _ Hc (get_elem_of _ _ _ Hcol)) as Hpt. simpl in Hpt.
  pose proof (forallb_elem_of _ _ _ Hpt (get_elem_of _ _ _ Hb)) as Hbu. simpl in Hbu.
  pose proof (forallb_elem_of _ _ _ Hbu Hregime) as Hr. cbv beta in Hr.
  destruct (get (storage_regime regime) b) as [by_metric|] eqn:Hm; [|done].
  pose proof (forallb_elem_of _ _ _ Hr Hkey) as Hk. cbv beta in Hk.
  apply bool_decide_eq_true in Hk as [v Hv].
  exists v. unfold stat, getitem.
  rewrite Hcol; simpl. rewrite Hb; simpl. rewrite Hm; simpl. by rewrite Hv.
Qed.

Lemma complete_row_values regimes eval_stats col by_tag tag regime aggr :
  complete regimes eval_stats = true →
  get col eval_stats = Some by_tag → tag ∈ keys by_tag →
  regime ∈ regimes → aggr ∈ aggregations →
  ∃ vals, row_values eval_stats col aggr (storage_regime regime) tag = Ok vals.
Proof.
  intros Hc Hcol Htag Hregime Haggr.
  assert (∀ key, key ∈ metric_keys →
            ∃ v, stat eval_stats col tag (storage_regime regime) key = Ok v) as Hstat
    by (intros; by eapply complete_stat).
  assert (aggr = "micro" ∨ aggr = "macro_doc") as [-> | ->].
  { unfold aggregations in Haggr.
    apply elem_of_cons in Haggr as [?|Haggr]; [by left|].
    apply elem_of_cons in Haggr as [?|Haggr]; [by right|].
    by apply elem_of_nil in Haggr. }
  - unfold row_values.
    change (String.eqb "micro" "micro") with true.
    change (contains "macro" "micro") with false.
    change ("P_" +:+ "micro") with "P_micro".
    change ("R_" +:+ "micro") with "R_micro".
    change ("F1_" +:+ "micro") with "F1_micro".
    use_stat Hstat "P_micro". use_stat Hstat "R_micro". use_stat Hstat "F1_micro".
    use_stat Hstat "TP". use_stat Hstat "FP". use_stat Hstat "FN". eauto.
  - unfold row_values.
    change (String.eqb "macro_doc" "micro") with false.
    change (contains "macro" "macro_doc") with true.
    change ("P_" +:+ "macro_doc") with "P_macro_doc".
    change ("R_" +:+ "macro_doc") with "R_macro_doc".
    change ("F1_" +:+ "macro_doc") with "F1_macro_doc".
    change ("P_" +:+ "macro_doc" +:+ "_std") with "P_macro_doc_std".
    change ("R_" +:+ "macro_doc" +:+ "_std") with "R_macro_doc_std".
    change ("F1_" +:+ "macro_doc" +:+ "_std") with "F1_macro_doc_std".
    use_stat Hstat "P_macro_doc". use_stat Hstat "R_macro_doc".
    use_stat Hstat "F1_macro_doc". use_stat Hstat "P_macro_doc_std".
    use_stat Hstat "R_macro_doc_std". use_stat Hstat "F1_macro_doc_std". eauto.
Qed.

(** With complete bundles, the report is assembled. *)
Lemma complete_assemble_tsv_output submission regimes eval_stats only_aggregated suffix :
  complete regimes eval_stats = true →
  ∃ rows, assemble_tsv_output submission eval_stats regimes only_aggregated suffix
          = Ok (fieldnames, rows).
Proof.
  intros Hc. rewrite assemble_tsv_output_spec.
  destruct (rconcat_total (λ col,
               rconcat (λ aggr,
                 rconcat (λ regime,
                   group_rows submission eval_stats only_aggregated
                     (if truthy suffix then "-" +:+ suffix else suffix) col aggr regime)
                   regimes)
                 aggregations) (sorted (keys eval_stats))) as [rows ->]; [|simpl; eauto].
  intros col Hcol. apply (proj1 (elem_of_sorted _ _)) in Hcol.
  apply rconcat_total. intros aggr Haggr.
  apply rconcat_total. intros regime Hregime. rewrite group_rows_spec.
  destruct (keys_get _ _ Hcol) as [by_tag Hget]. unfold getitem. rewrite Hget. simpl.
  apply rmap_total. intros tag Htag.
  apply list_elem_of_filter in Htag as [_ Htag].
  apply (proj1 (elem_of_sorted _ _)) in Htag.
  destruct (complete_row_values _ _ _ _ _ _ _ Hc Hget Htag Hregime Haggr)
    as [[[[[p r] f1] counts] stds] Hv].
  eexists. apply tag_results_Ok. by exists p, r, f1, counts, stds.
Qed.
End Complete.

(** ** The fields of a row *)

Section RowFacts.
Context `{PyFloat}.
Implicit Types (eval_stats : stats) (rows : list row).

Lemma row_values_Ok eval_stats col aggr regime tag p r f1 counts stds :
  row_values eval_stats col aggr regime tag = Ok (p, r, f1, counts, stds) →
  stat eval_stats col tag regime ("P_" +:+ aggr) = Ok p
  ∧ stat eval_stats col tag regime ("R_" +:+ aggr) = Ok r
  ∧ stat eval_stats col tag regime ("F1_" +:+ aggr) = Ok f1
  ∧ (if String.eqb aggr "micro"
     then ∃ tp fp fn, counts = Some (tp, fp, fn)
            ∧ stat eval_stats col tag regime "TP" = Ok tp
            ∧ stat eval_stats col tag regime "FP" = Ok fp
            ∧ stat eval_stats col tag regime "FN" = Ok fn
     else counts = None)
  ∧ (if contains "macro" aggr
     then ∃ p_std r_std f1_std, stds = Some (p_std, r_std, f1_std)
            ∧ stat eval_stats col tag regime ("P_" +:+ aggr +:+ "_std") = Ok p_std
            ∧ stat eval_stats col tag regime ("R_" +:+ aggr +:+ "_std") = Ok r_std
            ∧ stat eval_stats col tag regime ("F1_" +:+ aggr +:+ "_std") = Ok f1_std
     else stds = None).
Proof.
  unfold row_values.
  intros (p' & Hp & (r' & Hr & (f1' & Hf1 & (counts' & Hc & (stds' & Hs & Heq)%rbind_Ok)
    %rbind_Ok)%rbind_Ok)%rbind_Ok)%rbind_Ok.
  injection Heq as <- <- <- <- <-. split_and!; try done.
  - destruct (String.eqb aggr "micro"); [|by injection Hc as <-].
    apply rbind_Ok in Hc as (tp & Htp & (fp & Hfp & (fn & Hfn & [= <-])%rbind_Ok)%rbind_Ok).
    by exists tp, fp, fn.
  - destruct (contains "macro" aggr); [|by injection Hs as <-].
    apply rbind_Ok in Hs as (ps & Hps & (rs & Hrs & (fs & Hfs & [= <-])%rbind_Ok)%rbind_Ok).
    by exists ps, rs, fs.
Qed.

Lemma row_of_metrics submission label tag p r f1 counts stds :
  let row := row_of submission label tag p r f1 counts stds in
  get "System" row = Some (VStr submission)
  ∧ get "Evaluation" row = Some (VStr label)
  ∧ get "Label" row = Some (VStr tag)
  ∧ get "P" row = Some (rounded p)
  ∧ get "R" row = Some (rounded r)
  ∧ get "F1" row = Some (rounded f1).
Proof. by split_and!. Qed.

Lemma row_of_counts submission label tag p r f1 counts stds :
  let row := row_of submission label tag p r f1 counts stds in
  get "TP" row = (λ c, rounded c.1.1) <$> counts
  ∧ get "FP" row = (λ c, rounded c.1.2) <$> counts
  ∧ get "FN" row = (λ c, rounded c.2) <$> counts.
Proof. destruct counts as [[[??]?]|], stds as [[[??]?]|]; by split_and!. Qed.

Lemma row_of_stds submission label tag p r f1 counts stds :
  let row := row_of submission label tag p r f1 counts stds in
  get "P_std" row = (λ c, rounded c.1.1) <$> stds
  ∧ get "R_std" row = (λ c, rounded c.1.2) <$> stds
  ∧ get "F1_std" row = (λ c, rounded c.2) <$> stds.
Proof. destruct counts as [[[??]?]|], stds as [[[??]?]|]; by split_and!. Qed.

Lemma rconcat_elem_of_2 {A B} (f : A → result (list B)) xs (all : list B) x l r :
  rconcat f xs = Ok all → x ∈ xs → f x = Ok l → r ∈ l → r ∈ all.
Proof.
  intros (ls & Hls & ->)%rconcat_Ok [i Hi]%list_elem_of_lookup Hfx Hr.
  destruct (Forall2_lookup_l _ _ _ _ _ Hls Hi) as (l' & Hl' & Hfx').
  apply elem_of_concat. exists l. split; [|done].
  rewrite Hfx in Hfx'. injection Hfx' as <-. by eapply list_elem_of_lookup_2.
Qed.

(** Conversely, the row of a column, an aggregation, a regime and a
    reported tag is in the report. *)
Lemma assemble_tsv_output_elem_of_2 submission eval_stats regimes only_aggregated suffix
    out col aggr regime tag by_tag :
  assemble_tsv_output submission eval_stats regimes only_aggregated suffix = Ok out →
  get col eval_stats = Some by_tag → aggr ∈ aggregations → regime ∈ regimes →
  tag ∈ reported_tags only_aggregated by_tag →
  ∃ row, row ∈ out.2
    ∧ tag_results submission eval_stats col aggr (storage_regime regime)
        (evaluation_label col aggr regime suffix) tag = Ok row.
Proof.
  rewrite assemble_tsv_output_spec.
  intros (rows & Hrows & [= <-])%rbind_Ok Hget Haggr Hregime Htag. simpl.
  assert (col ∈ sorted (keys eval_stats)) as Hcol
    by (apply elem_of_sorted; by eapply get_Some_keys).
  pose proof Hrows as (ls & Hls & _)%rconcat_Ok.
  pose proof Hcol as [i Hi]%list_elem_of_lookup.
  destruct (Forall2_lookup_l _ _ _ _ _ Hls Hi) as (l & _ & Hl).
  pose proof Hl as (ls' & Hls' & _)%rconcat_Ok.
  pose proof Haggr as [j Hj]%list_elem_of_lookup.
  destruct (Forall2_lookup_l _ _ _ _ _ Hls' Hj) as (l' & _ & Hl').
  pose proof Hl' as (ls'' & Hls'' & _)%rconcat_Ok.
  pose proof Hregime as [k Hk]%list_elem_of_lookup.
  destruct (Forall2_lookup_l _ _ _ _ _ Hls'' Hk) as (l'' & _ & Hl'').
  pose proof Hl'' as Hg. rewrite group_rows_spec in Hg. unfold getitem in Hg.
  rewrite Hget in Hg. simpl in Hg. apply rmap_Ok in Hg.
  pose proof Htag as [n Hn]%list_elem_of_lookup.
  destruct (Forall2_lookup_l _ _ _ _ _ Hg Hn) as (row & Hrow & Hres).
  exists row. split; [|done].
  eapply rconcat_elem_of_2; [exact Hrows | exact Hcol | exact Hl |].
  eapply rconcat_elem_of_2; [exact Hl | exact Haggr | exact Hl' |].
  eapply rconcat_elem_of_2; [exact Hl' | exact Hregime | exact Hl'' |].
  by eapply list_elem_of_lookup_2.
Qed.
End RowFacts.

(** ** Regimes, metrics and rounding in the rows *)

Section RowClaims.
Context `{PyFloat}.

(** The nested lookup [eval_stats[col][tag][regime][key]], dictionary by
    dictionary. *)
Lemma stat_Ok (eval_stats : stats) col tag regime key v :
stat eval_stats col tag regime key = Ok v ↔
∃ by_tag by_regime by_metric,
  get col eval_stats = Some by_tag ∧ get tag by_tag = Some by_regime
  ∧ get regime by_regime = Some by_metric ∧ get key by_metric = Some v.
Proof.
unfold stat, getitem. split.
- destruct (get col eval_stats) as [by_tag|] eqn:Hc; simpl; [|done].
  destruct (get tag by_tag) as [by_regime|] eqn:Ht; simpl; [|done].
  destruct (get regime by_regime) as [by_metric|] eqn:Hr; simpl; [|done].
  destruct (get key by_metric) as [v'|] eqn:Hv; simpl; [|done].
  intros [= <-]. by exists by_tag, by_regime, by_metric.
- intros (by_tag & by_regime & by_metric & Hc & Ht & Hr & Hv).
  rewrite Hc; simpl. rewrite Ht; simpl. rewrite Hr; simpl. by rewrite Hv.
Qed.

Lemma stat_get (eval_stats : stats) col tag regime key by_tag by_regime by_metric v :
get col eval_stats = Some by_tag → get tag by_tag = Some by_regime →
get regime by_regime = Some by_metric →
stat eval_stats col tag regime key = Ok v → get key by_metric = Some v.
Proof.
intros Hc Ht Hr (? & ? & ? & Hc' & Ht' & Hr' & Hv)%stat_Ok.
rewrite Hc in Hc'. injection Hc' as <-. rewrite Ht in Ht'. injection Ht' as <-.
rewrite Hr in Hr'. by injection Hr' as <-.
Qed.

(** C5. In a report that was assembled, every row is the row of a column, an
    aggregation, a requested regime and a tag of the column. Its [Evaluation]
    field is made from the regime as it was requested, so that a row of
    [fuzzy] says [fuzzy]; its scores are the values that the result bundle
    [eval_stats[col][tag]] holds under the key [ent_type] when the regime is
    [fuzzy], and under the regime's own name otherwise, so that [strict] is
    read under [strict]. Conversely, every column, aggregation, requested
    regime and reported tag has such a row in the report. *)
Theorem fuzzy_is_displayed_and_ent_type_is_read
    submission (eval_stats : stats) regimes only_aggregated suffix out :
assemble_tsv_output submission eval_stats regimes only_aggregated suffix = Ok out →
(∀ row, row ∈ out.2 →
   ∃ col aggr regime tag by_tag by_regime by_metric p r f1,
     regime ∈ regimes
     ∧ get "Evaluation" row
       = Some (VStr (col +:+ "-" +:+ aggr +:+ "-" +:+ regime
                     +:+ (if truthy suffix then "-" +:+ suffix else suffix)))
     ∧ get "Label" row = Some (VStr tag)
     ∧ get col eval_stats = Some by_tag
     ∧ get tag by_tag = Some by_regime
     ∧ get (if String.eqb regime "fuzzy" then "ent_type" else regime) by_regime
       = Some by_metric
     ∧ get ("P_" +:+ aggr) by_metric = Some p
     ∧ get ("R_" +:+ aggr) by_metric = Some r
     ∧ get ("F1_" +:+ aggr) by_metric = Some f1
     ∧ get "P" row = Some (rounded p)
     ∧ get "R" row = Some (rounded r)
     ∧ get "F1" row = Some (rounded f1))
∧ (∀ col by_tag aggr regime tag,
     get col eval_stats = Some by_tag → aggr ∈ ["micro"; "macro_doc"] → regime ∈ regimes →
     tag ∈ keys by_tag → (only_aggregated = true → tag = "ALL") →
     ∃ row by_regime by_metric p r f1,
       row ∈ out.2
       ∧ get "Evaluation" row
         = Some (VStr (col +:+ "-" +:+ aggr +:+ "-" +:+ regime
                       +:+ (if truthy suffix then "-" +:+ suffix else suffix)))
       ∧ get "Label" row = Some (VStr tag)
       ∧ get tag by_tag = Some by_regime
       ∧ get (if String.eqb regime "fuzzy" then "ent_type" else regime) by_regime
         = Some by_metric
       ∧ get ("P_" +:+ aggr) by_metric = Some p
       ∧ get ("R_" +:+ aggr) by_metric = Some r
       ∧ get ("F1_" +:+ aggr) by_metric = Some f1
       ∧ get "P" row = Some (rounded p)
       ∧ get "R" row = Some (rounded r)
       ∧ get "F1" row = Some (rounded f1)).
Proof.
intros Hout. split.
- intros row Hrow.
  destruct (assemble_tsv_output_elem_of _ _ _ _ _ _ _ Hout Hrow)
    as (col & aggr & regime & tag & by_tag & _ & _ & Hregime & Hcol & _ & Hres).
  apply tag_results_Ok in Hres as (p & r & f1 & counts & stds & Hv & ->).
  apply row_values_Ok in Hv as (Hp & Hr & Hf1 & _).
  pose proof Hp as (by_tag' & by_regime & by_metric & Hcol' & Htag & Hreg & Hpv)%stat_Ok.
  rewrite Hcol in Hcol'. injection Hcol' as <-.
  exists col, aggr, regime, tag, by_tag, by_regime, by_metric, p, r, f1.
  split_and!; try done.
  + by eapply stat_get.
  + by eapply stat_get.
- intros col by_tag aggr regime tag Hcol Haggr Hregime Htag Honly.
  assert (tag ∈ reported_tags only_aggregated by_tag) as Hrep.
  { unfold reported_tags. apply list_elem_of_filter. split; [|by apply elem_of_sorted].
    destruct only_aggregated; [|done]. rewrite (Honly eq_refl). done. }
  destruct (assemble_tsv_output_elem_of_2 _ _ _ _ _ _ _ _ _ _ _
              Hout Hcol Haggr Hregime Hrep) as (row & Hrow & Hres).
  apply tag_results_Ok in Hres as (p & r & f1 & counts & stds & Hv & ->).
  apply row_values_Ok in Hv as (Hp & Hr & Hf1 & _).
  pose proof Hp as (by_tag' & by_regime & by_metric & Hcol' & Htag' & Hreg & Hpv)%stat_Ok.
  rewrite Hcol in Hcol'. injection Hcol' as <-.
  eexists _, by_regime, by_metric, p, r, f1.
  split_and!; try done.
  + by eapply stat_get.
  + by eapply stat_get.
Qed.

(** The row that [tag_results] makes, whatever the aggregation kind. *)
Lemma tag_results_fields submission (eval_stats : stats) col aggr regime label tag row :
  tag_results submission eval_stats col aggr regime label tag = Ok row →
  (∀ metric, metric ∈ metric_names →
     ∃ v, stat eval_stats col tag regime (metric +:+ "_" +:+ aggr) = Ok v
          ∧ get metric row = Some (rounded v))
  ∧ (∀ fig, fig ∈ figures →
       (aggr = "micro" →
          ∃ v, stat eval_stats col tag regime fig = Ok v
               ∧ get fig row = Some (rounded v))
       ∧ (aggr ≠ "micro" → get fig row = None))
  ∧ (∀ metric, metric ∈ metric_names →
       (contains "macro" aggr = true →
          ∃ v, stat eval_stats col tag regime (metric +:+ "_" +:+ aggr +:+ "_std") = Ok v
               ∧ get (metric +:+ "_std") row = Some (rounded v))
       ∧ (contains "macro" aggr = false → get (metric +:+ "_std") row = None)).
Proof.
  intros (p & r & f1 & counts & stds & Hv & ->)%tag_results_Ok.
  apply row_values_Ok in Hv as (Hp & Hr & Hf1 & Hcounts & Hstds).
  split_and!.
  - intros metric Hm. unfold metric_names in Hm.
    apply elem_of_cons in Hm as [->|Hm]; [by exists p|].
    apply elem_of_cons in Hm as [->|Hm]; [by exists r|].
    apply elem_of_cons in Hm as [->|Hm]; [by exists f1|].
    by apply elem_of_nil in Hm.
  - intros fig Hfig.
    destruct (String.eqb_spec aggr "micro") as [Hmicro|Hmicro].
    + destruct Hcounts as (tp & fp & fn & -> & Htp & Hfp & Hfn).
      split; [intros _|done]. unfold figures in Hfig.
      apply elem_of_cons in Hfig as [->|Hfig]; [by exists tp|].
      apply elem_of_cons in Hfig as [->|Hfig]; [by exists fp|].
      apply elem_of_cons in Hfig as [->|Hfig]; [by exists fn|].
      by apply elem_of_nil in Hfig.
    + subst counts. split; [done|intros _]. unfold figures in Hfig.
      apply elem_of_cons in Hfig as [->|Hfig]; [by destruct stds as [[[??]?]|]|].
      apply elem_of_cons in Hfig as [->|Hfig]; [by destruct stds as [[[??]?]|]|].
      apply elem_of_cons in Hfig as [->|Hfig]; [by destruct stds as [[[??]?]|]|].
      by apply elem_of_nil in Hfig.
  - intros metric Hm.
    destruct (contains "macro" aggr).
    + destruct Hstds as (ps & rs & fs & -> & Hps & Hrs & Hfs).
      split; [intros _|done]. unfold metric_names in Hm.
      apply elem_of_cons in Hm as [->|Hm];
        [exists ps; split; [done | by destruct counts as [[[??]?]|]]|].
      apply elem_of_cons in Hm as [->|Hm];
        [exists rs; split; [done | by destruct counts as [[[??]?]|]]|].
      apply elem_of_cons in Hm as [->|Hm];
        [exists fs; split; [done | by destruct counts as [[[??]?]|]]|].
      by apply elem_of_nil in Hm.
    + subst stds. split; [done|intros _]. unfold metric_names in Hm.
      apply elem_of_cons in Hm as [->|Hm]; [by destruct counts as [[[??]?]|]|].
      apply elem_of_cons in Hm as [->|Hm]; [by destruct counts as [[[??]?]|]|].
      apply elem_of_cons in Hm as [->|Hm]; [by destruct counts as [[[??]?]|]|].
      by apply elem_of_nil in Hm.
Qed.

(** C6. Every row of a report belongs to a column, an aggregation, [micro] or
    [macro_doc], a requested regime and a tag, which its [Evaluation] and
    [Label] fields name, and its values come from the metrics that the result
    bundle holds for them, [eval_stats[col][tag][key]] with [key] the storage
    key of the regime. P, R and F1 are always there, with the values under
    [<metric>_<aggregation>]; TP, FP and FN are there, with the values under
    these names, exactly when the aggregation is [micro]; P_std, R_std and
    F1_std are there, with the values under [<metric>_<aggregation>_std],
    exactly when [macro] occurs in the aggregation. *)
Theorem metrics_always_counts_for_micro_deviations_for_macro
    submission (eval_stats : stats) regimes only_aggregated suffix out row :
assemble_tsv_output submission eval_stats regimes only_aggregated suffix = Ok out →
row ∈ out.2 →
∃ col aggr regime tag by_tag by_regime by_metric,
  (aggr = "micro" ∨ aggr = "macro_doc") ∧ regime ∈ regimes
  ∧ get "Evaluation" row
    = Some (VStr (col +:+ "-" +:+ aggr +:+ "-" +:+ regime
                  +:+ (if truthy suffix then "-" +:+ suffix else suffix)))
  ∧ get "Label" row = Some (VStr tag)
  ∧ get col eval_stats = Some by_tag
  ∧ get tag by_tag = Some by_regime
  ∧ get (if String.eqb regime "fuzzy" then "ent_type" else regime) by_regime = Some by_metric
  ∧ (∀ metric, metric ∈ ["P"; "R"; "F1"] →
       ∃ v, get (metric +:+ "_" +:+ aggr) by_metric = Some v
            ∧ get metric row = Some (rounded v))
  ∧ (∀ fig, fig ∈ ["TP"; "FP"; "FN"] →
       (aggr = "micro" →
          ∃ v, get fig by_metric = Some v ∧ get fig row = Some (rounded v))
       ∧ (aggr ≠ "micro" → get fig row = None))
  ∧ (∀ metric, metric ∈ ["P"; "R"; "F1"] →
       (contains "macro" aggr = true →
          ∃ v, get (metric +:+ "_" +:+ aggr +:+ "_std") by_metric = Some v
               ∧ get (metric +:+ "_std") row = Some (rounded v))
       ∧ (contains "macro" aggr = false → get (metric +:+ "_std") row = None)).
Proof.
intros Hout Hrow.
destruct (assemble_tsv_output_elem_of _ _ _ _ _ _ _ Hout Hrow)
  as (col & aggr & regime & tag & by_tag & _ & Haggr & Hregime & Hcol & _ & Hres).
pose proof Hres as (p & r & f1 & counts & stds & Hv & Hrow_of)%tag_results_Ok.
apply row_values_Ok in Hv as (Hp & _).
apply stat_Ok in Hp as (by_tag' & by_regime & by_metric & Hcol' & Htag & Hreg & _).
rewrite Hcol in Hcol'. injection Hcol' as <-.
destruct (tag_results_fields _ _ _ _ _ _ _ _ Hres) as (Hm & Hf & Hs).
exists col, aggr, regime, tag, by_tag, by_regime, by_metric.
split_and!; try done.
- unfold aggregations in Haggr.
  apply elem_of_cons in Haggr as [?|Haggr]; [by left|].
  apply elem_of_cons in Haggr as [?|Haggr]; [by right|].
  by apply elem_of_nil in Haggr.
- by subst row.
- by subst row.
- intros metric Hmetric. destruct (Hm metric Hmetric) as (v & Hv & Hg).
  exists v. split; [by eapply stat_get | done].
- intros fig Hfig. destruct (Hf fig Hfig) as [Hmicro Hother]. split; [|done].
  intros Ha. destruct (Hmicro Ha) as (v & Hv & Hg).
  exists v. split; [by eapply stat_get | done].
- intros metric Hmetric. destruct (Hs metric Hmetric) as [Hmacro Hother]. split; [|done].
  intros Ha. destruct (Hmacro Ha) as (v & Hv & Hg).
  exists v. split; [by eapply stat_get | done].
Qed.

(** C7. The rounding loop never raises: it rounds a float to 3 places,
    returns an [int] as it is, and leaves a string or [None], the empty
    values, as they are. With complete bundles, whose metrics are present
    and possibly empty, the report is assembled and has the row of every
    column, aggregation, regime and reported tag, with the values of the
    bundle rounded or left in this way. *)
Theorem empty_values_pass_and_rows_are_emitted
    submission (eval_stats : stats) regimes only_aggregated suffix :
  complete regimes eval_stats = true →
  (∀ results : row, NoDup (keys results) →
     round_results results = Ok (prod_map id rounded <$> results))
  ∧ (∀ x n s, rounded (VFloat x) = VFloat (float_round x 3) ∧ rounded (VInt n) = VInt n
              ∧ rounded (VStr s) = VStr s ∧ rounded VNone = VNone)
  ∧ ∃ rows,
      assemble_tsv_output submission eval_stats regimes only_aggregated suffix
      = Ok (fieldnames, rows)
      ∧ row_index <$> rows = report_index eval_stats regimes only_aggregated suffix
      ∧ ∀ col by_tag aggr regime tag,
          get col eval_stats = Some by_tag → aggr ∈ aggregations → regime ∈ regimes →
          tag ∈ reported_tags only_aggregated by_tag →
          ∃ p r f1 counts stds,
            row_values eval_stats col aggr (storage_regime regime) tag
            = Ok (p, r, f1, counts, stds)
            ∧ row_of submission (evaluation_label col aggr regime suffix) tag
                p r f1 counts stds ∈ rows.
Proof.
  intros Hc. split_and!; [apply round_results_spec | done |].
  destruct (complete_assemble_tsv_output submission _ _ only_aggregated suffix Hc)
    as [rows Hrows].
  exists rows. split_and!; [done | |].
  - by destruct (assemble_tsv_output_index _ _ _ _ _ _ Hrows).
  - intros col by_tag aggr regime tag Hget Haggr Hregime Htag.
    destruct (assemble_tsv_output_elem_of_2 _ _ _ _ _ _ _ _ _ _ _
                Hrows Hget Haggr Hregime Htag) as (row & Hrow & Hres).
    apply tag_results_Ok in Hres as (p & r & f1 & counts & stds & Hv & ->).
    by exists p, r, f1, counts, stds.
Qed.
End RowClaims.

(** ** The order of insertion does not show in a report *)

(** Two dictionaries that are equal as maps: they have the same keys, with
    related values, in whatever order the keys were inserted. *)
Definition dict_equiv {V} (R : relation V) (d1 d2 : dict V) : Prop :=
∀ k, option_Forall2 R (get k d1) (get k d2).

Section Insertion.
Context `{PyFloat}.

(** Equality as maps, down to the values of the metrics. *)
Definition same_stats : relation stats :=
dict_equiv (dict_equiv (dict_equiv (dict_equiv (=)))).

(** The keys of a Python dictionary are distinct: here, the columns and the
    tags of each column, which are the keys that the report iterates over. *)
Definition distinct_keys (eval_stats : stats) : Prop :=
NoDup (keys eval_stats) ∧ Forall (λ item, NoDup (keys item.2)) eval_stats.

Lemma dict_equiv_keys {V} (R : relation V) (d1 d2 : dict V) :
NoDup (keys d1) → NoDup (keys d2) → dict_equiv R d1 d2 → keys d1 ≡ₚ keys d2.
Proof.
intros Hnd1 Hnd2 Heq. apply NoDup_Permutation; [done | done |].
intros k. specialize (Heq k). split; intros [v Hv]%keys_get; rewrite Hv in Heq.
- destruct (get k d2) as [v'|] eqn:Hv'; [by eapply get_Some_keys | inversion Heq].
- destruct (get k d1) as [v'|] eqn:Hv'; [by eapply get_Some_keys | inversion Heq].
Qed.

Lemma dict_equiv_get {V} (R : relation V) (d1 d2 : dict V) k :
dict_equiv R d1 d2 →
(get k d1 = None ∧ get k d2 = None)
∨ ∃ v1 v2, get k d1 = Some v1 ∧ get k d2 = Some v2 ∧ R v1 v2.
Proof.
intros Heq. destruct (Heq k) as [v1 v2 HR|]; [right|left]; eauto.
Qed.

Lemma same_stats_stat s1 s2 col tag regime key :
same_stats s1 s2 → stat s1 col tag regime key = stat s2 col tag regime key.
Proof.
intros Hs. unfold stat, getitem.
destruct (dict_equiv_get (V:=per_tag) _ _ _ col Hs)
  as [[-> ->]|(by_tag1 & by_tag2 & -> & -> & Ht)]; simpl; [done|].
destruct (dict_equiv_get (V:=bundle) _ _ _ tag Ht)
  as [[-> ->]|(b1 & b2 & -> & -> & Hb)]; simpl; [done|].
destruct (dict_equiv_get (V:=metrics) _ _ _ regime Hb)
  as [[-> ->]|(m1 & m2 & -> & -> & Hm)]; simpl; [done|].
by destruct (dict_equiv_get (V:=value) _ _ _ key Hm)
  as [[-> ->]|(v1 & v2 & -> & -> & ->)].
Qed.

Lemma same_stats_tag_results submission s1 s2 col aggr regime label tag :
same_stats s1 s2 →
tag_results submission s1 col aggr regime label tag
= tag_results submission s2 col aggr regime label tag.
Proof.
intros Hs. rewrite !tag_results_spec. unfold row_values.
by rewrite !(same_stats_stat s1 s2).
Qed.

Lemma same_stats_group_rows submission s1 s2 only_aggregated suffix col aggr regime :
distinct_keys s1 → distinct_keys s2 → same_stats s1 s2 →
group_rows submission s1 only_aggregated suffix col aggr regime
= group_rows submission s2 only_aggregated suffix col aggr regime.
Proof.
intros [_ Hd1] [_ Hd2] Hs. rewrite !group_rows_spec. unfold getitem.
destruct (dict_equiv_get (V:=per_tag) _ _ _ col Hs)
  as [[-> ->]|(by_tag1 & by_tag2 & H1 & H2 & Ht)]; [done|].
rewrite H1, H2. simpl.
assert (reported_tags only_aggregated by_tag1 = reported_tags only_aggregated by_tag2) as ->.
{ unfold reported_tags. f_equal. apply sorted_perm_eq.
  apply get_elem_of in H1, H2.
  apply (dict_equiv_keys (V:=bundle) _ by_tag1 by_tag2
           (proj1 (Forall_forall _ _) Hd1 _ H1) (proj1 (Forall_forall _ _) Hd2 _ H2) Ht). }
apply rmap_ext. intros tag _. by apply same_stats_tag_results.
Qed.

(** C9. Two result bundles that are equal as maps give the same report, row
    for row: the columns and the tags are taken in sorted order, and every
    value is looked up by its keys. *)
Theorem report_independent_of_insertion_order
  submission (s1 s2 : stats) regimes only_aggregated suffix :
distinct_keys s1 → distinct_keys s2 → same_stats s1 s2 →
assemble_tsv_output submission s1 regimes only_aggregated suffix
= assemble_tsv_output submission s2 regimes only_aggregated suffix.
Proof.
intros Hd1 Hd2 Hs. rewrite !assemble_tsv_output_spec.
assert (sorted (keys s1) = sorted (keys s2)) as ->.
{ apply sorted_perm_eq. apply (dict_equiv_keys _ _ _ (proj1 Hd1) (proj1 Hd2) Hs). }
f_equal. apply rconcat_ext. intros col _. apply rconcat_ext. intros aggr _.
apply rconcat_ext. intros regime _. by apply same_stats_group_rows.
Qed.
End Insertion.

(** ** Runs of the process *)

Section MonadFacts.
Context `{Host}.

Lemma bind_Ok {A B} (m : M A) (k : A → M B) w w' b :
bind m k w = (w', Ok b) ↔ ∃ w1 a, m w = (w1, Ok a) ∧ k a w1 = (w', Ok b).
Proof.
unfold bind. destruct (m w) as [w1 [a|e]]; split.
- intros Hk. by exists w1, a.
- by intros (w1' & a' & [= <- <-] & Hk).
- done.
- by intros (w1' & a' & [=] & _).
Qed.

Lemma bind_Raise {A B} (m : M A) (k : A → M B) w w' e :
bind m k w = (w', Raise e) ↔
m w = (w', Raise e) ∨ ∃ w1 a, m w = (w1, Ok a) ∧ k a w1 = (w', Raise e).
Proof.
unfold bind. destruct (m w) as [w1 [a|e']]; split.
- intros Hk. right. by exists w1, a.
- intros [[=]|(w1' & a' & [= <- <-] & Hk)]. done.
- intros [= <- <-]. by left.
- intros [[= <- <-]|(w1' & a' & [=] & _)]. done.
Qed.

Lemma bind_assoc {A B C} (m : M A) (k : A → M B) (k' : B → M C) w :
bind (bind m k) k' w = bind m (λ a, bind (k a) k') w.
Proof. unfold bind. by destruct (m w) as [w1 [a|e]]. Qed.

Lemma bind_ext {A B} (m : M A) (k1 k2 : A → M B) w :
(∀ a w, k1 a w = k2 a w) → bind m k1 w = bind m k2 w.
Proof. intros Hk. unfold bind. destruct (m w) as [w1 [a|e]]; auto. Qed.

Lemma lift_Ok {A} (r : result A) w w' a : lift r w = (w', Ok a) ↔ w' = w ∧ r = Ok a.
Proof. unfold lift. split; [by intros [= <- ->] | by intros [-> ->]]. Qed.

(** A loop that ends normally is a chain of turns that end normally. *)
Inductive turns {A S} (body : A → S → M S) : list A → S → World → S → World → Prop :=
| turns_nil s w : turns body [] s w s w
| turns_cons x xs s w s1 w1 s' w' :
    body x s w = (w1, Ok s1) → turns body xs s1 w1 s' w' →
    turns body (x :: xs) s w s' w'.

Lemma for_each_Ok {A S} (body : A → S → M S) xs s w s' w' :
for_each xs body s w = (w', Ok s') ↔ turns body xs s w s' w'.
Proof.
revert s w. induction xs as [|x xs IH]; intros s w; simpl.
- split; [intros [= <- <-]; constructor | by inversion 1].
- rewrite bind_Ok. split.
  + intros (w1 & s1 & Hb & Hrest%IH). by econstructor.
  + inversion 1 as [|? ? ? ? s1 w1 ? ? Hb Hrest]; subst.
    exists w1, s1. split; [done | by apply IH].
Qed.

Lemma for_each_ext {A S} (body1 body2 : A → S → M S) xs s w :
(∀ x s w, body1 x s w = body2 x s w) → for_each xs body1 s w = for_each xs body2 s w.
Proof.
intros Hb. revert s w. induction xs as [|x xs IH]; intros s w; simpl; [done|].
unfold bind. rewrite Hb. destruct (body2 x s w) as [w1 [s1|e]]; auto.
Qed.

Lemma for_each_fmap {A A' S} (f : A → A') (body : A' → S → M S) xs s w :
for_each (f <$> xs) body s w = for_each xs (λ x, body (f x)) s w.
Proof.
revert s w. induction xs as [|x xs IH]; intros s w; simpl; [done|].
unfold bind. destruct (body (f x) s w) as [w1 [s1|e]]; auto.
Qed.
End MonadFacts.

(** ** The evaluation wrapper *)

Section WrapperFacts.
Context `{Host}.

Definition evaluate_event (eval_type : string) (n_best : Z) (noise : noise_level)
  (time : time_period) (tags : tagset) (col : column) : event :=
EEvaluate col eval_type true n_best noise time tags.

(** The collaborator answers the calls for the columns, one after the other. *)
Inductive answered (eval_type : string) (n_best : Z) (noise : noise_level)
  (time : time_period) (tags : tagset)
  : host_state → list string → list (bundle * per_tag) → host_state → Prop :=
| answered_nil h : answered eval_type n_best noise time tags h [] [] h
| answered_cons h col cols g by_tag h1 answers h' :
    host_evaluate h (Col col) eval_type true n_best noise time tags = (h1, Ok (g, by_tag)) →
    answered eval_type n_best noise time tags h1 cols answers h' →
    answered eval_type n_best noise time tags h (col :: cols) ((g, by_tag) :: answers) h'.

(** What the wrapper makes of the answers: under each column, the bundles
    per tag with the column-global bundle added under [ALL]. *)
Definition with_ALL (answer : bundle * per_tag) : per_tag := set "ALL" answer.1 answer.2.

Definition fill (eval_per_tag : stats) (cols : list string) (answers : list (bundle * per_tag))
  : stats :=
foldl (λ acc item, set item.1 (with_ALL item.2) acc) eval_per_tag (zip cols answers).

Lemma evaluation_wrapper_loop_name col cols eval_type n_best noise time tags eval_global
  eval_per_tag w :
evaluation_wrapper_loop (Col col :: cols) eval_type n_best noise time tags
  eval_global eval_per_tag w
= match host_evaluate (host w) (Col col) eval_type true n_best noise time tags with
  | (h, Ok answer) =>
      evaluation_wrapper_loop cols eval_type n_best noise time tags
        (set col answer.1 eval_global) (set col (with_ALL answer) eval_per_tag)
        (mkWorld (trace w ++ [evaluate_event eval_type n_best noise time tags (Col col)]) h)
  | (h, Raise e) =>
      (mkWorld (trace w ++ [evaluate_event eval_type n_best noise time tags (Col col)]) h,
       Raise e)
  end.
Proof.
simpl. unfold bind at 1. unfold evaluate, call.
destruct (host_evaluate (host w) (Col col) eval_type true n_best noise time tags)
  as [h [[g by_tag]|e]]; [|done].
unfold bind, lift, getitem. simpl. rewrite !get_set_eq. simpl. by rewrite set_set.
Qed.

(** A list of columns cannot be a key: the wrapper calls the collaborator
    for it and raises [TypeError] when it stores the answer. *)
Lemma evaluation_wrapper_loop_group names cols eval_type n_best noise time tags eval_global
  eval_per_tag w :
evaluation_wrapper_loop (ColGroup names :: cols) eval_type n_best noise time tags
  eval_global eval_per_tag w
= match host_evaluate (host w) (ColGroup names) eval_type true n_best noise time tags with
  | (h, r) =>
      (mkWorld (trace w ++ [evaluate_event eval_type n_best noise time tags (ColGroup names)]) h,
       match r with Ok _ => Raise TypeError | Raise e => Raise e end)
  end.
Proof.
simpl. unfold bind at 1. unfold evaluate, call.
by destruct (host_evaluate (host w) (ColGroup names) eval_type true n_best noise time tags)
  as [h [[g by_tag]|e]].
Qed.

Lemma evaluation_wrapper_loop_Ok cols eval_type n_best noise time tags eval_global
  eval_per_tag w w' eval_stats :
evaluation_wrapper_loop (Col <$> cols) eval_type n_best noise time tags
  eval_global eval_per_tag w = (w', Ok eval_stats)
↔ ∃ answers,
    answered eval_type n_best noise time tags (host w) cols answers (host w')
    ∧ trace w' = trace w ++ (evaluate_event eval_type n_best noise time tags ∘ Col <$> cols)
    ∧ eval_stats = fill eval_per_tag cols answers.
Proof.
revert eval_global eval_per_tag w.
induction cols as [|col cols IH]; intros eval_global eval_per_tag w.
- simpl. split.
  + intros [= <- <-]. exists []. split_and!; [constructor | by rewrite app_nil_r | done].
  + intros (answers & Ha & Ht & ->). inversion Ha; subst.
    destruct w as [t h], w' as [t' h']. simpl in *. rewrite app_nil_r in Ht. by subst.
- rewrite fmap_cons, evaluation_wrapper_loop_name.
  destruct (host_evaluate (host w) (Col col) eval_type true n_best noise time tags)
    as [h [answer|e]] eqn:Hev.
  + rewrite IH. simpl. split.
    * intros (answers & Ha & Ht & ->). exists (answer :: answers). split_and!.
      -- destruct answer. by econstructor.
      -- by rewrite Ht, <- app_assoc.
      -- done.
    * intros (answers & Ha & Ht & ->). inversion Ha as [|? ? ? g by_tag h1 rest ? Hev' Hrest];
         subst. rewrite Hev in Hev'. injection Hev' as <- <-.
       exists rest. split_and!; [done | by rewrite Ht, <- app_assoc | done].
  + split; [done|]. intros (answers & Ha & _ & _).
    inversion Ha as [|? ? ? g by_tag h1 rest ? Hev' Hrest]; subst.
    rewrite Hev in Hev'. done.
Qed.
End WrapperFacts.

Section WrapperClaims.
Context `{Host}.

Lemma answered_length eval_type n_best noise time tags h cols answers h' :
answered eval_type n_best noise time tags h cols answers h' → length answers = length cols.
Proof. induction 1; simpl; auto. Qed.

Lemma fill_get_other acc cols answers col :
col ∉ cols → get col (fill acc cols answers) = get col acc.
Proof.
revert acc answers. induction cols as [|c cols IH]; intros acc [|a answers] Hnin; try done.
apply not_elem_of_cons in Hnin as [Hne Hnin].
unfold fill. simpl. fold (fill (set c (with_ALL a) acc) cols answers).
rewrite IH by done. by apply get_set_ne.
Qed.

Lemma fill_get acc cols answers i col answer :
NoDup cols → cols !! i = Some col → answers !! i = Some answer →
get col (fill acc cols answers) = Some (with_ALL answer).
Proof.
revert acc answers i. induction cols as [|c cols IH]; intros acc [|a answers] i Hnd Hc Ha;
  try done.
apply NoDup_cons in Hnd as [Hnin Hnd].
unfold fill. simpl. fold (fill (set c (with_ALL a) acc) cols answers).
destruct i as [|i]; simpl in *.
- injection Hc as ->. injection Ha as ->. rewrite fill_get_other by done. apply get_set_eq.
- by eapply IH.
Qed.

Lemma fill_keys acc cols answers :
NoDup (keys acc ++ cols) → length answers = length cols →
keys (fill acc cols answers) = keys acc ++ cols.
Proof.
revert acc answers. induction cols as [|c cols IH]; intros acc [|a answers] Hnd Hlen;
  try done.
- unfold fill. simpl. by rewrite app_nil_r.
- unfold fill. simpl. fold (fill (set c (with_ALL a) acc) cols answers).
  assert (c ∉ keys acc) as Hc.
  { apply NoDup_app in Hnd as (_ & Hd & _). intros Hin. apply (Hd _ Hin), list_elem_of_here. }
  rewrite IH.
  + rewrite keys_set_new by done. by rewrite <- app_assoc.
  + rewrite keys_set_new by done. by rewrite <- app_assoc.
  + simpl in Hlen. lia.
Qed.

(** For columns given by their names, the wrapper returns, under every
    column, the bundles per tag that the collaborator returned for the column,
    with the column-global bundle of the same call under [ALL]. *)
Lemma evaluation_wrapper_ALL cols eval_type n_best noise time tags w w' eval_stats :
NoDup cols →
evaluation_wrapper (Col <$> cols) eval_type n_best noise time tags w = (w', Ok eval_stats) →
∃ answers,
  answered eval_type n_best noise time tags (host w) cols answers (host w')
  ∧ trace w' = trace w ++ (evaluate_event eval_type n_best noise time tags ∘ Col <$> cols)
  ∧ keys eval_stats = cols
  ∧ ∀ i col answer, cols !! i = Some col → answers !! i = Some answer →
      ∃ by_tag, get col eval_stats = Some by_tag
        ∧ get "ALL" by_tag = Some answer.1
        ∧ ∀ tag, tag ≠ "ALL" → get tag by_tag = get tag answer.2.
Proof.
intros Hnd (answers & Ha & Ht & ->)%evaluation_wrapper_loop_Ok.
exists answers. split_and!; [done | done | |].
- apply (fill_keys [] cols answers); [done | by eapply answered_length].
- intros i col answer Hc Hans. exists (with_ALL answer). split_and!.
  + by eapply fill_get.
  + apply get_set_eq.
  + intros tag Htag. apply get_set_ne. congruence.
Qed.

(** C1. In union mode the wrapper is given the list of the two NEL columns
    as one column. It calls the collaborator for it, cannot store the answer
    under a list, and raises: no result map is returned, with or without an
    [ALL] entry. *)
Theorem union_columns_raise_TypeError (n_best : Z) (noise : noise_level)
  (time : time_period) (w : World) :
evaluation_wrapper [ColGroup NEL_COLUMNS] "nel" n_best noise time None w
= (mkWorld (trace w ++ [EEvaluate (ColGroup NEL_COLUMNS) "nel" true n_best noise time None])
     (host_evaluate (host w) (ColGroup NEL_COLUMNS) "nel" true n_best noise time None).1,
   match (host_evaluate (host w) (ColGroup NEL_COLUMNS) "nel" true n_best noise time None).2 with
   | Ok _ => Raise TypeError
   | Raise e => Raise e
   end).
Proof.
unfold evaluation_wrapper. rewrite evaluation_wrapper_loop_group.
by destruct (host_evaluate _ _ _ _ _ _ _ _).
Qed.
End WrapperClaims.

(** ** The loops over the strata *)

Section Strata.
Context `{Host}.

(** A stratum of a run: the cutoff, the noise band and the time period. The
    NERC tasks have no cutoff and evaluate with the default, 1. *)
Definition stratum : Type := Z * (noise_level * time_period).

Definition is_nerc (task : string) : bool :=
bool_decide (task ∈ ["nerc_fine"; "nerc_coarse"]).

Definition task_strata (task : string) (n_best : list Z)
  (noise_levels : list noise_level) (time_periods : list time_period) : list stratum :=
if is_nerc task then pair 1 <$> list_prod noise_levels time_periods
else list_prod n_best (list_prod noise_levels time_periods).

(** The call of the wrapper for a stratum. *)
Definition stratum_wrapper (task : string) (union : bool) (tags : tagset) (x : stratum)
  : M stats :=
if is_nerc task then
  evaluation_wrapper
    (Col <$> set_order (if String.eqb task "nerc_fine" then FINE_COLUMNS else COARSE_COLUMNS))
    "nerc" 1 x.2.1 x.2.2 tags
else if union then evaluation_wrapper [ColGroup NEL_COLUMNS] "nel" x.1 x.2.1 x.2.2 None
else evaluation_wrapper (Col <$> NEL_COLUMNS) "nel" x.1 x.2.1 x.2.2 None.

(** The label of a stratum: the suffix given to [assemble_tsv_output]. In
    union mode it is the suffix that [nel_body] makes once the wrapper has
    returned, which it does not ([stratum_wrapper_union] below): no row has
    it. *)
Definition stratum_label (task suffix : string) (union : bool) (x : stratum) : string :=
if is_nerc task then nerc_eval_suffix suffix x.2.1 x.2.2
else if union then union_eval_suffix (nel_eval_suffix suffix x.1 x.2.1 x.2.2)
else nel_eval_suffix suffix x.1 x.2.1 x.2.2.

(** The rows of a stratum. *)
Definition stratum_report (task submission suffix : string) (union : bool) (x : stratum)
  (eval_stats : stats) : result (list string * list row) :=
if is_nerc task
then assemble_tsv_output submission eval_stats ["fuzzy"; "strict"] false
       (stratum_label task suffix union x)
else assemble_tsv_output submission eval_stats ["fuzzy"] true
       (stratum_label task suffix union x).

(** One turn of either loop. *)
Definition stratum_turn (task submission suffix : string) (union : bool) (tags : tagset)
  (x : stratum) (loc : locals) : M locals :=
eval_stats <- stratum_wrapper task union tags x ;;
out <- lift (stratum_report task submission suffix union x eval_stats) ;;
accumulate eval_stats out loc.

Lemma nerc_body_turn task submission suffix union tags noise time loc w :
is_nerc task = true →
nerc_body submission suffix
  (set_order (if String.eqb task "nerc_fine" then FINE_COLUMNS else COARSE_COLUMNS))
  tags (noise, time) loc w
= stratum_turn task submission suffix union tags (1, (noise, time)) loc w.
Proof.
intros Hn. unfold nerc_body, stratum_turn, stratum_wrapper, stratum_report, stratum_label.
by rewrite Hn.
Qed.

Lemma nel_body_turn task submission suffix union tags x loc w :
is_nerc task = false →
nel_body submission suffix union x loc w
= stratum_turn task submission suffix union tags x loc w.
Proof.
intros Hn. destruct x as [n [noise time]].
unfold nel_body, stratum_turn, stratum_wrapper, stratum_report, stratum_label.
rewrite Hn. simpl. unfold bind.
destruct union.
- by destruct (evaluation_wrapper _ _ _ _ _ _ w) as [w1 [st|e]].
- by destruct (evaluation_wrapper _ _ _ _ _ _ w) as [w1 [st|e]].
Qed.

(** The two loops of [get_results] are one loop over the strata of the task. *)
Lemma evaluate_strata_turns task submission suffix tags n_best union noise_levels
  time_periods w :
is_nerc task = true ∨ task = "nel" →
evaluate_strata task submission suffix tags n_best union noise_levels time_periods w
= for_each (task_strata task n_best noise_levels time_periods)
    (stratum_turn task submission suffix union tags) (mkLocals (Some []) None None) w.
Proof.
intros Htask. unfold evaluate_strata, task_strata. fold (is_nerc task).
destruct (is_nerc task) eqn:Hn.
- rewrite for_each_fmap. apply for_each_ext. intros [noise time] loc w0.
  by apply nerc_body_turn.
- destruct Htask as [Ht | ->]; [congruence|]. simpl. apply for_each_ext. intros x loc w0.
  by apply nel_body_turn.
Qed.

Lemma evaluate_strata_unknown task submission suffix tags n_best union noise_levels
  time_periods w :
is_nerc task = false → task ≠ "nel" →
evaluate_strata task submission suffix tags n_best union noise_levels time_periods w
= (w, Ok unbound).
Proof.
intros Hn Hnel. unfold evaluate_strata. fold (is_nerc task). rewrite Hn.
by destruct (String.eqb_spec task "nel").
Qed.

(** The strata are evaluated and reported, one after the other: for each,
    the bundle that the wrapper returned and the rows made from it. *)
Inductive reported (task submission suffix : string) (union : bool) (tags : tagset)
  : World → list stratum → list (stats * list row) → World → Prop :=
| reported_nil w : reported task submission suffix union tags w [] [] w
| reported_cons w x xs eval_stats out w1 outcomes w' :
    stratum_wrapper task union tags x w = (w1, Ok eval_stats) →
    stratum_report task submission suffix union x eval_stats = Ok out →
    reported task submission suffix union tags w1 xs outcomes w' →
    reported task submission suffix union tags w (x :: xs)
      ((eval_stats, out.2) :: outcomes) w'.

Lemma stratum_report_fieldnames task submission suffix union x eval_stats out :
stratum_report task submission suffix union x eval_stats = Ok out → out.1 = fieldnames.
Proof.
unfold stratum_report. destruct (is_nerc task); intros Hout;
  by destruct (assemble_tsv_output_index _ _ _ _ _ _ Hout).
Qed.

Lemma stratum_turn_Ok task submission suffix union tags x loc w w' loc' :
stratum_turn task submission suffix union tags x loc w = (w', Ok loc') ↔
∃ eval_stats out rows,
  stratum_wrapper task union tags x w = (w', Ok eval_stats)
  ∧ stratum_report task submission suffix union x eval_stats = Ok out
  ∧ l_rows loc = Some rows
  ∧ loc' = mkLocals (Some (rows ++ out.2)) (Some fieldnames) (Some eval_stats).
Proof.
unfold stratum_turn, accumulate. rewrite bind_Ok. split.
- intros (w1 & st & Hw & (w2 & out & [-> Hout]%lift_Ok
    & (w3 & rows & [-> Hrows]%lift_Ok & [= <- <-])%bind_Ok)%bind_Ok).
  exists st, out, rows. rewrite (stratum_report_fieldnames _ _ _ _ _ _ _ Hout).
  split_and!; try done. destruct (l_rows loc); simpl in Hrows; congruence.
- intros (st & out & rows & Hw & Hout & Hrows & ->).
  exists w', st. split; [done|]. apply bind_Ok. exists w', out.
  split; [by apply lift_Ok|]. apply bind_Ok. exists w', rows.
  split; [apply lift_Ok; by rewrite Hrows|].
  by rewrite (stratum_report_fieldnames _ _ _ _ _ _ _ Hout).
Qed.

(** What the loop leaves in the local variables: the rows of all the strata,
    and the bundle of the last one. *)
Definition after_strata (loc : locals) (rows : list row) (outcomes : list (stats * list row))
  : locals :=
mkLocals (Some (rows ++ concat (snd <$> outcomes)))
  (match outcomes with [] => l_fieldnames loc | _ => Some fieldnames end)
  (match last outcomes with Some o => Some o.1 | None => l_eval_stats loc end).

Lemma turns_reported task submission suffix union tags xs loc rows w loc' w' :
l_rows loc = Some rows →
turns (stratum_turn task submission suffix union tags) xs loc w loc' w' ↔
∃ outcomes,
  reported task submission suffix union tags w xs outcomes w'
  ∧ loc' = after_strata loc rows outcomes.
Proof.
revert loc rows w. induction xs as [|x xs IH]; intros loc rows w Hrows.
- assert (after_strata loc rows [] = loc) as Hnil.
  { unfold after_strata. simpl. rewrite app_nil_r. destruct loc. simpl in *. by subst. }
  split.
  + intros Ht. assert (loc' = loc ∧ w' = w) as [-> ->] by (by inversion Ht).
    exists []. split; [constructor | done].
  + intros (outcomes & Hrep & ->).
    assert (outcomes = [] ∧ w' = w) as [-> ->] by (by inversion Hrep).
    rewrite Hnil. constructor.
- split.
  + inversion 1 as [|? ? ? ? loc1 w1 ? ? Hturn Hrest]; subst.
    apply stratum_turn_Ok in Hturn as (st & out & rows' & Hw & Hout & Hrows' & ->).
    rewrite Hrows in Hrows'. injection Hrows' as <-.
    apply (IH _ (rows ++ out.2)) in Hrest as (outcomes & Hrep & ->); [|done].
    exists ((st, out.2) :: outcomes). split; [by econstructor|].
    unfold after_strata. simpl. rewrite <- app_assoc. f_equal.
    * by destruct outcomes.
    * rewrite last_cons. by destruct (last outcomes).
  + intros (outcomes & Hrep & ->).
    inversion Hrep as [|? ? ? st out w1 rest ? Hw Hout Hrest]; subst.
    econstructor.
    * apply stratum_turn_Ok. by exists st, out, rows.
    * apply (IH _ (rows ++ out.2)); [done|]. exists rest. split; [done|].
      unfold after_strata. simpl. rewrite <- app_assoc. f_equal.
      -- by destruct rest.
      -- rewrite last_cons. by destruct (last rest).
Qed.
End Strata.

(** ** [get_results], from the file name to the two files *)

Definition is_output `{PyFloat, PyDatetime} (e : event) : bool :=
match e with
| EOpenW _ | EWriteTsv _ _ _ | EWriteJson _ _ => true
| _ => false
end.

Definition is_evaluate `{PyFloat, PyDatetime} (e : event) : bool :=
match e with
| EEvaluate _ _ _ _ _ _ _ => true
| _ => false
end.

Section GetResultsFacts.
Context `{Host}.

(** What [get_results] does before the loops: the file name is checked, the
    tagset is read and the collaborator is made. *)
Definition prelude (f_ref f_pred : string) (skip_check : bool)
  (glueing_cols f_tagset : option string) : M (string * tagset) :=
sl <- (if negb skip_check then enforce_filename f_pred else ret (f_pred, "LANG")) ;;
let glueing_col_pairs :=
  match glueing_cols with
  | Some g => if truthy g then Some (split "+" <$> split "," g) else None
  | None => None
  end in
tags <- (match f_tagset with
         | Some f =>
             if truthy f then
               text <- call (EReadText f) (λ h, host_read_text h f) ;;
               ret (Some (remove_dups (splitlines_go EmptyString (upper text))))
             else ret None
         | None => ret None
         end) ;;
call (ENewEvaluator f_ref f_pred glueing_col_pairs)
     (λ h, host_new_evaluator h f_ref f_pred glueing_col_pairs) ;;;
ret (sl.1, tags).

Lemma get_results_prelude f_ref f_pred task skip_check glueing_cols n_best union outdir
  suffix f_tagset noise_levels time_periods w :
get_results f_ref f_pred task skip_check glueing_cols n_best union outdir suffix f_tagset
  noise_levels time_periods w
= bind (prelude f_ref f_pred skip_check glueing_cols f_tagset)
    (λ p, loc <- evaluate_strata task p.1 suffix p.2 n_best union noise_levels time_periods ;;
          write_outputs f_pred task outdir suffix loc) w.
Proof.
symmetry. unfold get_results, prelude.
rewrite bind_assoc. apply bind_ext. intros sl w1.
rewrite bind_assoc. apply bind_ext. intros tags w2.
rewrite bind_assoc. apply bind_ext. intros [] w3.
done.
Qed.

(** The check of the file name, with its message. *)
Lemma enforce_filename_try_raises fname e :
enforce_filename_try fname = Raise e → e = ValueError ∨ e = AssertionError EmptyString.
Proof.
unfold enforce_filename_try.
destruct (split "_" (path_stem (lower fname))) as [|team [|bundle [|lang [|run [|? ?]]]]];
  try (intros [= <-]; by left).
unfold int. destruct (int_of_str (lstrip "bundle" bundle)) as [n|]; simpl;
  [|intros [= <-]; by left].
unfold assert. repeat case_bool_decide; simpl; intros [= <-]; by right.
Qed.

Lemma enforce_filename_spec fname w :
enforce_filename fname w
= match enforce_filename_try fname with
  | Ok r => (w, Ok r)
  | Raise _ =>
      (mkWorld (trace w ++ [ELogError (enforce_filename_msg fname)]) (host w),
       Raise (AssertionError (enforce_filename_msg fname)))
  end.
Proof.
unfold enforce_filename, try_except, lift.
destruct (enforce_filename_try fname) as [r|e] eqn:He; [done|].
by destruct (enforce_filename_try_raises _ _ He) as [-> | ->].
Qed.

(** The end of a run that completes: the two files are opened and written,
    the table first. *)
Lemma write_outputs_Ok f_pred task outdir suffix loc w w' :
write_outputs f_pred task outdir suffix loc w = (w', Ok tt) ↔
∃ names rows eval_stats h1 h2,
  l_fieldnames loc = Some names ∧ l_rows loc = Some rows
  ∧ l_eval_stats loc = Some eval_stats
  ∧ host_open_w (host w) (PathIn outdir (output_name f_pred task suffix ".tsv")) = (h1, Ok tt)
  ∧ host_open_w h1 (PathIn outdir (output_name f_pred task suffix ".json")) = (h2, Ok tt)
  ∧ w' = mkWorld
           (trace w ++
            [EOpenW (PathIn outdir (output_name f_pred task suffix ".tsv"));
             EWriteTsv (PathIn outdir (output_name f_pred task suffix ".tsv")) names rows;
             EOpenW (PathIn outdir (output_name f_pred task suffix ".json"));
             EWriteJson (PathIn outdir (output_name f_pred task suffix ".json")) eval_stats])
           h2.
Proof.
unfold write_outputs, open_w, call, bind, lift, emit.
destruct w as [t h]. simpl.
destruct (host_open_w h (PathIn outdir (output_name f_pred task suffix ".tsv")))
  as [h1 [[]|e1]] eqn:Ho1; simpl.
2: { split; [done|]. by intros (?&?&?&?&?&?&?&?&[=]&?). }
destruct (l_fieldnames loc) as [names|]; simpl.
2: { split; [done|]. by intros (?&?&?&?&?&[=]&?). }
destruct (l_rows loc) as [rows|]; simpl.
2: { split; [done|]. by intros (?&?&?&?&?&?&[=]&?). }
destruct (host_open_w h1 (PathIn outdir (output_name f_pred task suffix ".json")))
  as [h2 [[]|e2]] eqn:Ho2; simpl.
2: { split; [done|]. intros (?&?&?&?&?&?&?&?&[= <-]&Hj&?). rewrite Ho2 in Hj. done. }
destruct (l_eval_stats loc) as [eval_stats|]; simpl.
2: { split; [done|]. by intros (?&?&?&?&?&?&?&[=]&?). }
rewrite <- !app_assoc. simpl. split.
- intros [= <-]. by exists names, rows, eval_stats, h1, h2.
- intros (?&?&?&?&?&[= <-]&[= <-]&[= <-]&[= <-]&Hj&->). rewrite Ho2 in Hj.
  by injection Hj as <-.
Qed.
End GetResultsFacts.

Section RunFacts.
Context `{Host}.

Lemma forallb_app_true {A} (f : A → bool) l1 l2 :
forallb f l1 = true → forallb f l2 = true → forallb f (l1 ++ l2) = true.
Proof. intros H1' H2'. rewrite forallb_app. by rewrite H1', H2'. Qed.

Lemma stratum_wrapper_trace task union tags x w w' eval_stats :
stratum_wrapper task union tags x w = (w', Ok eval_stats) →
∃ events, trace w' = trace w ++ events ∧ forallb is_evaluate events = true.
Proof.
unfold stratum_wrapper, evaluation_wrapper.
assert (∀ cols eval_type n_best noise time,
          forallb is_evaluate
            (evaluate_event eval_type n_best noise time tags ∘ Col <$> cols) = true) as Hev
  by (intros cols *; by induction cols).
assert (∀ cols eval_type n_best noise time,
          forallb is_evaluate
            (evaluate_event eval_type n_best noise time None ∘ Col <$> cols) = true) as Hev'
  by (intros cols *; by induction cols).
destruct (is_nerc task); [|destruct union].
- intros (answers & _ & Ht & _)%evaluation_wrapper_loop_Ok. eauto.
- rewrite evaluation_wrapper_loop_group.
  by destruct (host_evaluate _ _ _ _ _ _ _ _) as [h [?|?]].
- intros (answers & _ & Ht & _)%evaluation_wrapper_loop_Ok. eauto.
Qed.

Lemma reported_trace task submission suffix union tags w xs outcomes w' :
reported task submission suffix union tags w xs outcomes w' →
∃ events, trace w' = trace w ++ events ∧ forallb is_evaluate events = true.
Proof.
induction 1 as [w|w x xs st out w1 outcomes w' Hw Hout Hrest (evs & Ht & Hevs)].
- exists []. by rewrite app_nil_r.
- destruct (stratum_wrapper_trace _ _ _ _ _ _ _ Hw) as (evs1 & Ht1 & Hevs1).
  exists (evs1 ++ evs). split; [by rewrite Ht, Ht1, app_assoc | by apply forallb_app_true].
Qed.

Lemma reported_length task submission suffix union tags w xs outcomes w' :
reported task submission suffix union tags w xs outcomes w' → length outcomes = length xs.
Proof. induction 1; simpl; auto. Qed.

Lemma prelude_trace f_ref f_pred skip_check glueing_cols f_tagset w w0 p :
prelude f_ref f_pred skip_check glueing_cols f_tagset w = (w0, Ok p) →
∃ events, trace w0 = trace w ++ events
  ∧ forallb (λ e, negb (is_output e) && negb (is_evaluate e)) events = true.
Proof.
unfold prelude.
intros (w1 & sl & Hsl & (w2 & tags & Htags & (w3 & [] & Hnew & [= <- <-])%bind_Ok)%bind_Ok)
  %bind_Ok.
assert (w1 = w) as ->.
{ destruct skip_check; simpl in Hsl; [by injection Hsl as <-|].
  rewrite enforce_filename_spec in Hsl.
  destruct (enforce_filename_try f_pred); by injection Hsl as <-. }
assert (∃ evs, trace w2 = trace w ++ evs
          ∧ forallb (λ e, negb (is_output e) && negb (is_evaluate e)) evs = true)
  as (evs & Ht2 & Hevs).
{ destruct f_tagset as [f|]; [destruct (truthy f)|].
  - apply bind_Ok in Htags as (w1' & text & Hread & [= <- <-]).
    unfold call in Hread. destruct (host_read_text (host w) f) as [h r].
    injection Hread as <- _. by exists [EReadText f].
  - injection Htags as <- _. exists []. by rewrite app_nil_r.
  - injection Htags as <- _. exists []. by rewrite app_nil_r. }
unfold call in Hnew. destruct (host_new_evaluator _ _ _ _) as [h r].
injection Hnew as <- _. simpl. eexists (evs ++ [_]).
split; [by rewrite Ht2, app_assoc | by apply forallb_app_true].
Qed.

(** A run of [get_results] that completes: the strata of the task were all
    evaluated and reported, and then the two files were written. *)
Lemma get_results_Ok f_ref f_pred task skip_check glueing_cols n_best union outdir suffix
  f_tagset noise_levels time_periods w w' :
get_results f_ref f_pred task skip_check glueing_cols n_best union outdir suffix f_tagset
  noise_levels time_periods w = (w', Ok tt) →
∃ submission tags w0 w1 outcomes final,
  prelude f_ref f_pred skip_check glueing_cols f_tagset w = (w0, Ok (submission, tags))
  ∧ reported task submission suffix union tags w0
      (task_strata task n_best noise_levels time_periods) outcomes w1
  ∧ last outcomes = Some final
  ∧ trace w'
    = trace w1 ++
      [EOpenW (PathIn outdir (output_name f_pred task suffix ".tsv"));
       EWriteTsv (PathIn outdir (output_name f_pred task suffix ".tsv"))
         fieldnames (concat (snd <$> outcomes));
       EOpenW (PathIn outdir (output_name f_pred task suffix ".json"));
       EWriteJson (PathIn outdir (output_name f_pred task suffix ".json")) final.1].
Proof.
rewrite get_results_prelude.
intros (w0 & [submission tags] & Hpre & (w1 & loc & Hloop & Hwrite)%bind_Ok)%bind_Ok.
simpl in Hloop.
apply write_outputs_Ok in Hwrite
  as (names & rows & st & h1 & h2 & Hnames & Hrows & Hst & _ & _ & ->).
destruct (is_nerc task) eqn:Hn; [|destruct (decide (task = "nel")) as [Hnel|Hnel]].
3: { rewrite evaluate_strata_unknown in Hloop by done. by injection Hloop as _ <-. }
all: rewrite evaluate_strata_turns in Hloop by auto;
  apply for_each_Ok in Hloop;
  apply (turns_reported _ _ _ _ _ _ _ []) in Hloop as (outcomes & Hrep & ->); [|done];
  unfold after_strata in Hnames, Hrows, Hst; simpl in Hnames, Hrows, Hst;
  destruct (last outcomes) as [final|] eqn:Hlast;
    [|apply last_None in Hlast; by subst outcomes];
  injection Hst as <-; injection Hrows as <-;
  assert (names = fieldnames) as -> by (destruct outcomes; [done | by injection Hnames]);
  by exists submission, tags, w0, w1, outcomes, final.
Qed.
End RunFacts.

Section OutputClaims.
Context `{Host}.

Lemma filter_no_output (events : list event) :
forallb (λ e, negb (is_output e)) events = true → filter (λ e, is_output e = true) events = [].
Proof.
induction events as [|e events IH]; simpl; [done|].
intros [He Hrest]%andb_prop. rewrite filter_cons.
rewrite decide_False by (destruct (is_output e); done). auto.
Qed.

Lemma forallb_weaken {A} (f g : A → bool) l :
(∀ x, f x = true → g x = true) → forallb f l = true → forallb g l = true.
Proof.
intros Hfg. induction l as [|x l IH]; simpl; [done|].
intros [Hx Hl]%andb_prop. by rewrite (Hfg _ Hx), IH.
Qed.
End OutputClaims.

(** ** The names of the output files *)

Section StringFacts.

Lemma app_String c s t : String c s +:+ t = String c (s +:+ t).
Proof. reflexivity. Qed.

Lemma app_Empty t : EmptyString +:+ t = t.
Proof. reflexivity. Qed.

Lemma app_Empty_r s : s +:+ EmptyString = s.
Proof. induction s as [|c s IH]; [done|]. by rewrite app_String, IH. Qed.

Lemma substring_all s : String.substring 0 (String.length s) s = s.
Proof. induction s as [|c s IH]; simpl; [done|]. by rewrite IH. Qed.

Lemma substring_split s i :
(i ≤ String.length s)%nat →
s = String.substring 0 i s +:+ String.substring i (String.length s - i) s.
Proof.
revert i. induction s as [|c s IH]; intros i Hi.
- destruct i; simpl in *; [done | lia].
- destruct i as [|i]; simpl in *.
  + by rewrite app_Empty, substring_all.
  + rewrite app_String. f_equal. apply IH. lia.
Qed.

(** The name of a path is its stem followed by its suffix. *)
Lemma path_name_split p : path_name p = path_stem p +:+ path_suffix p.
Proof.
unfold path_stem, path_suffix, suffix_index.
destruct (rfind_dot 0 (path_name p)) as [i|]; [|by rewrite app_Empty_r].
case_bool_decide as Hi; [|by rewrite app_Empty_r].
apply substring_split. lia.
Qed.

Lemma prefix_tsv_app s :
s ≠ EmptyString → String.prefix ".tsv" s = false →
String.prefix ".tsv" (s +:+ ".tsv") = false.
Proof.
destruct s as [|c1 [|c2 [|c3 [|c4 s]]]]; intros Hne; [done|..];
  rewrite ?app_String, ?app_Empty; cbn [String.prefix];
  repeat (destruct (Ascii.ascii_dec _ _); try done);
  by destruct s.
Qed.

(** In a name that ends with its only occurrence of [.tsv], the occurrence
    is what [replace] replaces. *)
Lemma replace_tsv new stem :
contains ".tsv" stem = false →
replace ".tsv" new (stem +:+ ".tsv") = stem +:+ new.
Proof.
unfold replace. induction stem as [|c stem IH]; intros Hc.
- rewrite !app_Empty. simpl. by rewrite app_Empty_r.
- simpl in Hc. apply orb_false_elim in Hc as [Hp Hc].
  pose proof (prefix_tsv_app (String c stem) ltac:(done) Hp) as Hp'.
  rewrite !app_String in *. cbn [replace_go]. rewrite Hp'. f_equal. by apply IH.
Qed.
End StringFacts.

(** The file name that the specification describes: the stem, the task, and
    a suffix made of the labels of the strata and of the suffix of the user,
    with a hyphen between the two when both are there. *)
Definition described_suffix (stratum_labels : list string) (user : string) : string :=
let labels := String.concat "-" stratum_labels in
if truthy labels && truthy user then labels +:+ "-" +:+ user else labels +:+ user.

Definition described_name (stem task suffix extension : string) : string :=
stem +:+ "_" +:+ task +:+ (if truthy suffix then "_" +:+ suffix else EmptyString)
+:+ extension.

Section NameClaims.
Context `{Host}.

Lemma output_name_stem f_pred task suffix extension :
path_suffix f_pred = ".tsv" → contains ".tsv" (path_stem f_pred) = false →
output_name f_pred task suffix extension
= path_stem f_pred +:+ "_" +:+ task
  +:+ (if truthy suffix then "_" +:+ suffix else EmptyString) +:+ extension.
Proof.
intros Hsuffix Hstem. unfold output_name.
rewrite path_name_split, Hsuffix, replace_tsv by done.
by destruct suffix.
Qed.

(** C4. For a prediction file named [<stem>.tsv], whose stem has no [.tsv]
    in it, a run that completes writes [<stem>_<task>.tsv] and
    [<stem>_<task>.json] into the output directory, or
    [<stem>_<task>_<suffix>.tsv] and [<stem>_<task>_<suffix>.json] when the
    user gave a suffix, and no other file. The noise levels, the time periods
    and the cutoffs of the run are not in the names. *)
Theorem output_names_have_stem_task_and_user_suffix
  f_ref f_pred task skip_check glueing_cols n_best union outdir suffix f_tagset
  noise_levels time_periods w w' :
get_results f_ref f_pred task skip_check glueing_cols n_best union outdir suffix f_tagset
  noise_levels time_periods w = (w', Ok tt) →
path_suffix f_pred = ".tsv" → contains ".tsv" (path_stem f_pred) = false →
let user := if truthy suffix then "_" +:+ suffix else EmptyString in
let f_tsv := PathIn outdir (path_stem f_pred +:+ "_" +:+ task +:+ user +:+ ".tsv") in
let f_json := PathIn outdir (path_stem f_pred +:+ "_" +:+ task +:+ user +:+ ".json") in
∃ rows eval_stats,
  filter (λ e, is_output e = true) (drop (length (trace w)) (trace w'))
  = [EOpenW f_tsv; EWriteTsv f_tsv fieldnames rows;
     EOpenW f_json; EWriteJson f_json eval_stats].
Proof.
intros Hrun Hsuffix Hstem user f_tsv f_json.
destruct (get_results_Ok _ _ _ _ _ _ _ _ _ _ _ _ _ _ Hrun)
  as (submission & tags & w0 & w1 & outcomes & final & Hpre & Hrep & Hlast & Ht).
destruct (prelude_trace _ _ _ _ _ _ _ _ Hpre) as (evs0 & Ht0 & Hevs0).
destruct (reported_trace _ _ _ _ _ _ _ _ _ Hrep) as (evs1 & Ht1 & Hevs1).
assert (forallb (λ e, negb (is_output e)) (evs0 ++ evs1) = true) as Hbefore.
{ apply forallb_app_true.
  - revert Hevs0. apply forallb_weaken. by intros e [? _]%andb_prop.
  - revert Hevs1. apply forallb_weaken. by intros []. }
exists (concat (snd <$> outcomes)), final.1.
rewrite Ht, Ht1, Ht0, <- (app_assoc (trace w)), <- (app_assoc (trace w)).
rewrite drop_app_length, filter_app, (filter_no_output _ Hbefore).
rewrite !output_name_stem by done. done.
Qed.
End NameClaims.

(** ** The labels of the strata in the rows *)


Section LabelClaims.
Context `{Host}.

Lemma reported_elem_of task submission suffix union tags w xs outcomes w' o :
reported task submission suffix union tags w xs outcomes w' → o ∈ outcomes →
∃ x out wa wb,
  x ∈ xs ∧ stratum_wrapper task union tags x wa = (wb, Ok o.1)
  ∧ stratum_report task submission suffix union x o.1 = Ok out ∧ o.2 = out.2.
Proof.
induction 1 as [w|w x xs st out w1 outcomes w' Hw Hout Hrest IH].
- by intros ?%elem_of_nil.
- intros [->|Ho]%elem_of_cons.
  + exists x, out, w, w1. split_and!; try done. apply list_elem_of_here.
  + destruct (IH Ho) as (x' & out' & wa & wb & Hx & ?). exists x', out', wa, wb.
    split; [by apply list_elem_of_further | done].
Qed.



Lemma truthy_app_r s t : truthy t = true → truthy (s +:+ t) = true.
Proof. destruct s; [by rewrite app_Empty | done]. Qed.

Lemma stratum_label_truthy task suffix union x :
truthy (stratum_label task suffix union x) = true.
Proof.
unfold stratum_label, nerc_eval_suffix, nel_eval_suffix, union_eval_suffix.
assert (∀ time, truthy (define_time_label time) = true) as Ht.
{ intros [[a b]|]; [|done]. unfold define_time_label.
  by destruct (forallb _ _). }
destruct (is_nerc task); [|destruct union]; try done;
  apply truthy_app_r; destruct (define_time_label x.2.2) eqn:E; try done;
  by specialize (Ht x.2.2); rewrite E in Ht.
Qed.

(** In union mode no stratum is evaluated to the end. *)
Lemma stratum_wrapper_union task tags x w w' eval_stats :
is_nerc task = false → stratum_wrapper task true tags x w ≠ (w', Ok eval_stats).
Proof.
intros Hn. unfold stratum_wrapper, evaluation_wrapper. rewrite Hn.
rewrite evaluation_wrapper_loop_group.
by destruct (host_evaluate _ _ _ _ _ _ _ _) as [h [?|?]].
Qed.
End LabelClaims.

(** ** A file name that is not accepted *)

(** The arguments that [check_validity_of_arguments] lets through. *)
Definition valid_arguments (args : Args) : bool :=
negb (negb (String.eqb (args_task args) "nel")
      && (args_union args || opt_truthy (args_n_best args)))
&& negb (args_union args && opt_truthy (args_n_best args)).

(** The naming convention as the specification words it: four parts
    [TEAM_bundleN_LANG_RUN] with N from 1 to 5 and a language among de, fr and
    en, and the extension [.tsv]. *)
Definition described_convention (fname : string) : bool :=
match split "_" (path_stem fname) with
| [team; bundle; lang; run] =>
    bool_decide (bundle ∈ ["bundle1"; "bundle2"; "bundle3"; "bundle4"; "bundle5"])
    && bool_decide (lang ∈ ["de"; "fr"; "en"])
    && bool_decide (path_suffix fname = ".tsv")
| _ => false
end.

Section FilenameClaims.
Context `{Host}.

Lemma bind_step {A B} (m : M A) (k : A → M B) w w1 a :
m w = (w1, Ok a) → bind m k w = k a w1.
Proof. intros Hm. unfold bind. by rewrite Hm. Qed.

Lemma bind_raise_step {A B} (m : M A) (k : A → M B) w w1 e :
m w = (w1, Raise e) → bind m k w = (w1, Raise e).
Proof. intros Hm. unfold bind. by rewrite Hm. Qed.

Lemma try_except_Ok {A} (m : M A) handler w w1 a :
m w = (w1, Ok a) → try_except m handler w = (w1, Ok a).
Proof. intros Hm. unfold try_except. by rewrite Hm. Qed.

Lemma try_except_Raise {A} (m : M A) handler w w1 e :
m w = (w1, Raise e) →
try_except m handler w
= match handler e with Some k => k w1 | None => (w1, Raise e) end.
Proof. intros Hm. unfold try_except. by rewrite Hm. Qed.

Lemma check_validity_of_arguments_spec args w :
check_validity_of_arguments args w
= if valid_arguments args then (w, Ok tt)
  else if negb (String.eqb (args_task args) "nel")
          && (args_union args || opt_truthy (args_n_best args))
  then (mkWorld (trace w ++ [ELogError invalid_alternative_msg]) (host w),
        Raise (AssertionError invalid_alternative_msg))
  else (mkWorld (trace w ++ [ELogError invalid_schema_msg]) (host w),
        Raise (AssertionError invalid_schema_msg)).
Proof.
unfold check_validity_of_arguments, valid_arguments.
destruct (negb (String.eqb (args_task args) "nel")
          && (args_union args || opt_truthy (args_n_best args))); [done|].
by destruct (args_union args && opt_truthy (args_n_best args)).
Qed.

(** What [enforce_filename] accepts: in lower case, the name has the
    extension [.tsv] and its stem has four parts between underscores, the
    second of which, without the leading characters that occur in [bundle],
    reads as an integer from 1 to 5, and the third of which is a language. *)
Lemma enforce_filename_try_Ok fname submission lang :
enforce_filename_try fname = Ok (submission, lang) ↔
submission = path_stem (lower fname)
∧ path_suffix (lower fname) = ".tsv"
∧ lang ∈ ["de"; "fr"; "en"]
∧ ∃ team part run n,
    split "_" submission = [team; part; lang; run]
    ∧ int_of_str (lstrip "bundle" part) = Some n ∧ 1 ≤ n < 6.
Proof.
unfold enforce_filename_try.
destruct (split "_" (path_stem (lower fname)))
  as [|team [|part [|lang' [|run [|? ?]]]]] eqn:Hsplit;
  try (split;
       [done
       |intros (-> & _ & _ & ? & ? & ? & ? & Hs & _); rewrite Hsplit in Hs; discriminate]).
unfold int. destruct (int_of_str (lstrip "bundle" part)) as [n|] eqn:Hint; simpl.
2: { split; [done|]. intros (-> & _ & _ & ? & ? & ? & ? & Hs & Hn & _).
     rewrite Hsplit in Hs. injection Hs as <- <- <- <-. congruence. }
unfold assert. repeat case_bool_decide; simpl;
  (split;
   [intros [= <- <-]; split_and!; try done; by exists team, part, run, n
   |intros (-> & ? & ? & ? & ? & ? & ? & Hs & Hn & ?); rewrite Hsplit in Hs;
    injection Hs as <- <- <- <-; try done; try congruence]).
Qed.
End FilenameClaims.

Section Rejection.
Context `{Host}.

Lemma get_results_rejected f_ref f_pred task glueing_cols n_best union outdir suffix
  f_tagset noise_levels time_periods w :
is_ok (enforce_filename_try f_pred) = false →
get_results f_ref f_pred task false glueing_cols n_best union outdir suffix f_tagset
  noise_levels time_periods w
= (mkWorld (trace w ++ [ELogError (enforce_filename_msg f_pred)]) (host w),
   Raise (AssertionError (enforce_filename_msg f_pred))).
Proof.
intros Hno. unfold get_results. apply bind_raise_step. simpl.
rewrite enforce_filename_spec. by destruct (enforce_filename_try f_pred).
Qed.

Lemma digit_not_stripped c : is_Some (digit_of c) → mem_char c "bundle" = false.
Proof. destruct c as [[] [] [] [] [] [] [] []]; vm_compute; by intros [? ?]. Qed.

(** After the word [bundle], a number is what [lstrip] leaves. *)
Lemma lstrip_bundle_number c rest :
is_Some (digit_of c) → lstrip "bundle" ("bundle" +:+ String c rest) = String c rest.
Proof.
intros Hc. change (lstrip "bundle" ("bundle" +:+ String c rest))
  with (lstrip "bundle" (String c rest)).
cbn [lstrip]. by rewrite digit_not_stripped.
Qed.

(** The names that do not follow the scheme in their parts, their language or
    their extension, or whose bundle is a number that is not from 1 to 5, are
    not accepted. *)
Lemma enforce_filename_try_rejects fname :
(let name := lower fname in
 length (split "_" (path_stem name)) ≠ 4%nat
 ∨ path_suffix name ≠ ".tsv"
 ∨ ∃ team bundle lang run,
     split "_" (path_stem name) = [team; bundle; lang; run]
     ∧ (lang ∉ ["de"; "fr"; "en"]
        ∨ ∃ c rest n,
            bundle = "bundle" +:+ String c rest ∧ is_Some (digit_of c)
            ∧ int_of_str (String c rest) = Some n ∧ ¬ (1 ≤ n ≤ 5))) →
is_ok (enforce_filename_try fname) = false.
Proof.
intros Hv. destruct (enforce_filename_try fname) as [[submission lang]|e] eqn:Htry; [|done].
exfalso. apply enforce_filename_try_Ok in Htry
  as (-> & Hsuf & Hlang & team & part & run & n & Hsplit & Hint & Hn).
destruct Hv as [Hlen | [Hs | (team' & bundle & lang' & run' & Hsplit' & Hbad)]].
- by rewrite Hsplit in Hlen.
- done.
- rewrite Hsplit in Hsplit'. injection Hsplit' as <- <- <- <-.
  destruct Hbad as [Hl | (c & rest & n' & -> & Hc & Hint' & Hn')]; [done|].
  rewrite lstrip_bundle_number in Hint by done. rewrite Hint in Hint'.
  injection Hint' as <-. lia.
Qed.

(** C10. The check is not skipped, and the name of the prediction file, in
    lower case, departs from the scheme in one of these ways: its stem has not
    four parts between underscores, its extension is not [.tsv], its language
    is none of de, fr and en, or its second part is [bundle] followed by a
    number that is not from 1 to 5. Then [get_results] logs the message and
    raises [AssertionError] with it: the collaborator is not made, nothing is
    evaluated and no file is opened. [main], once the arguments are valid and
    the strata are parsed, catches the error and prints the message; the
    process ends with status 0. Arguments that are not valid end it with
    status 1, and no output file is opened either. *)
Theorem rejected_filename_is_printed_and_status_is_0
  (args : Args) (w : World) (h : host_state) n_best noise_levels time_periods :
args_skip_check args = false →
(let name := lower (args_f_pred args) in
 length (split "_" (path_stem name)) ≠ 4%nat
 ∨ path_suffix name ≠ ".tsv"
 ∨ ∃ team bundle lang run,
     split "_" (path_stem name) = [team; bundle; lang; run]
     ∧ (lang ∉ ["de"; "fr"; "en"]
        ∨ ∃ c rest n,
            bundle = "bundle" +:+ String c rest ∧ is_Some (digit_of c)
            ∧ int_of_str (String c rest) = Some n ∧ ¬ (1 ≤ n ≤ 5))) →
host_open_w (host w) (Path (args_f_log args)) = (h, Ok tt) →
valid_arguments args = true →
parse_n_best (args_n_best args) = Ok n_best →
parse_noise_levels (args_noise_level args) = Ok noise_levels →
parse_time_periods (args_time_period args) = Ok time_periods →
let msg := enforce_filename_msg (args_f_pred args) in
(∀ w0,
   get_results (args_f_ref args) (args_f_pred args) (args_task args) false
     (args_glueing_cols args) n_best (args_union args) (args_outdir args)
     (args_suffix args) (args_f_tagset args) noise_levels time_periods w0
   = (mkWorld (trace w0 ++ [ELogError msg]) (host w0), Raise (AssertionError msg)))
∧ main args w
  = (mkWorld (trace w ++ [EOpenW (Path (args_f_log args)); ELogError msg; EPrint msg]) h,
     Ok tt)
∧ exit_status (main args w).2 = 0
∧ (∀ args' w' h',
     host_open_w (host w') (Path (args_f_log args')) = (h', Ok tt) →
     valid_arguments args' = false →
     exit_status (main args' w').2 = 1
     ∧ filter (λ e, is_output e = true) (drop (length (trace w')) (trace (main args' w').1))
       = [EOpenW (Path (args_f_log args'))]).
Proof.
intros Hskip Hviolates Hopen Hvalid Hn Hnoise Htime msg.
pose proof (enforce_filename_try_rejects _ Hviolates) as Hno.
assert (main args w
        = (mkWorld (trace w ++ [EOpenW (Path (args_f_log args)); ELogError msg; EPrint msg]) h,
           Ok tt)) as Hmain.
{ unfold main.
  rewrite (bind_step _ _ w (mkWorld (trace w ++ [EOpenW (Path (args_f_log args))]) h) tt)
    by (unfold open_w, call; by rewrite Hopen).
  erewrite bind_step
    by (apply try_except_Ok; rewrite check_validity_of_arguments_spec, Hvalid; done).
  erewrite bind_step by (unfold lift; by rewrite Hn).
  erewrite bind_step by (unfold lift; by rewrite Hnoise).
  erewrite bind_step by (unfold lift; by rewrite Htime).
  erewrite try_except_Raise by (rewrite Hskip; by apply get_results_rejected).
  unfold emit. simpl. by rewrite <- !app_assoc. }
split_and!.
- intros w0. by apply get_results_rejected.
- done.
- by rewrite Hmain.
- intros args' w' h' Hopen' Hinvalid.
  assert (∃ m, main args' w'
               = (mkWorld (trace w' ++ [EOpenW (Path (args_f_log args')); ELogError m;
                                         EPrint m]) h',
                  Raise (SystemExit 1))) as [m ->].
  { unfold main.
    rewrite (bind_step _ _ w' (mkWorld (trace w' ++ [EOpenW (Path (args_f_log args'))]) h') tt)
      by (unfold open_w, call; by rewrite Hopen').
    assert (∃ m, ∀ w1, check_validity_of_arguments args' w1
                       = (mkWorld (trace w1 ++ [ELogError m]) (host w1),
                          Raise (AssertionError m))) as [m Hcheck].
    { destruct (negb (String.eqb (args_task args') "nel")
                && (args_union args' || opt_truthy (args_n_best args'))) eqn:Halt.
      - exists invalid_alternative_msg. intros w1.
        by rewrite check_validity_of_arguments_spec, Hinvalid, Halt.
      - exists invalid_schema_msg. intros w1.
        by rewrite check_validity_of_arguments_spec, Hinvalid, Halt. }
    exists m. erewrite bind_raise_step; [done|].
    erewrite try_except_Raise by apply Hcheck.
    unfold emit, raise, bind. simpl. by rewrite <- !app_assoc. }
  split; [done|]. simpl. by rewrite drop_app_length.
Qed.
End Rejection.

(** ** Runs against a collaborator that answers *)

(** A host that does not fail: files open, the collaborator is made, and
    every call for a column is answered with complete bundles. *)
Definition cooperative `{Host} : Prop :=
(∀ h f_ref f_pred glueing, (host_new_evaluator h f_ref f_pred glueing).2 = Ok tt)
∧ (∀ h col eval_type merge_lines n_best noise time tags,
     ∃ answer,
       (host_evaluate h (Col col) eval_type merge_lines n_best noise time tags).2 = Ok answer
       ∧ complete_bundle ["fuzzy"; "strict"] answer.1 = true
       ∧ complete_per_tag ["fuzzy"; "strict"] answer.2 = true)
∧ (∀ h p, is_ok (host_read_text h p).2 = true)
∧ (∀ h p, (host_open_w h p).2 = Ok tt).

Section Cooperative.
Context `{Host}.

Lemma forallb_set {V} (f : V → bool) k v (d : dict V) :
forallb (λ item, f item.2) d = true → f v = true →
forallb (λ item, f item.2) (set k v d) = true.
Proof.
intros Hd Hv. induction d as [|[k' v'] d IH]; simpl in *; [by rewrite Hv|].
apply andb_prop in Hd as [Hv' Hd].
destruct (String.eqb k k'); simpl; [by rewrite Hv, Hd | by rewrite Hv', IH].
Qed.

Lemma complete_fill acc cols answers :
complete ["fuzzy"; "strict"] acc = true →
Forall (λ answer, complete_bundle ["fuzzy"; "strict"] answer.1 = true
                  ∧ complete_per_tag ["fuzzy"; "strict"] answer.2 = true) answers →
complete ["fuzzy"; "strict"] (fill acc cols answers) = true.
Proof.
revert acc answers. induction cols as [|col cols IH]; intros acc [|answer answers] Hacc Hans;
  try done.
unfold fill. simpl. fold (fill (set col (with_ALL answer) acc) cols answers).
apply Forall_cons in Hans as [[Hg Hpt] Hans].
apply IH; [|done].
apply (forallb_set (complete_per_tag ["fuzzy"; "strict"])); [done|].
by apply (forallb_set (complete_bundle ["fuzzy"; "strict"])).
Qed.

Lemma cooperative_answered eval_type n_best noise time tags cols h :
cooperative →
∃ answers h',
  answered eval_type n_best noise time tags h cols answers h'
  ∧ Forall (λ answer, complete_bundle ["fuzzy"; "strict"] answer.1 = true
                      ∧ complete_per_tag ["fuzzy"; "strict"] answer.2 = true) answers.
Proof.
intros (_ & Hev & _). revert h. induction cols as [|col cols IH]; intros h.
- exists [], h. split; constructor.
- destruct (Hev h col eval_type true n_best noise time tags) as (answer & Ha & Hg & Hpt).
  destruct (host_evaluate h (Col col) eval_type true n_best noise time tags)
    as [h1 r] eqn:Hcall. simpl in Ha. subst r.
  destruct (IH h1) as (answers & h' & Hrest & Hall).
  exists (answer :: answers), h'. split; [|by constructor].
  destruct answer. by econstructor.
Qed.

(** The wrapper returns, with complete bundles. *)
Lemma cooperative_evaluation_wrapper cols eval_type n_best noise time tags w :
cooperative →
∃ w' eval_stats,
  evaluation_wrapper (Col <$> cols) eval_type n_best noise time tags w = (w', Ok eval_stats)
  ∧ complete ["fuzzy"; "strict"] eval_stats = true.
Proof.
intros Hco.
destruct (cooperative_answered eval_type n_best noise time tags cols (host w) Hco)
  as (answers & h' & Ha & Hall).
exists (mkWorld (trace w ++ (evaluate_event eval_type n_best noise time tags ∘ Col <$> cols)) h'),
  (fill [] cols answers).
split; [|by apply complete_fill].
apply evaluation_wrapper_loop_Ok. by exists answers.
Qed.

(** Every stratum of a NERC task is evaluated and reported. *)
Lemma cooperative_reported task submission suffix union tags xs w :
cooperative → is_nerc task = true →
∃ outcomes w', reported task submission suffix union tags w xs outcomes w'.
Proof.
intros Hco Hn. revert w. induction xs as [|x xs IH]; intros w.
- exists [], w. constructor.
- destruct (cooperative_evaluation_wrapper
              (set_order (if String.eqb task "nerc_fine" then FINE_COLUMNS else COARSE_COLUMNS))
              "nerc" 1 x.2.1 x.2.2 tags w Hco) as (w1 & st & Hw & Hc).
  destruct (complete_assemble_tsv_output submission _ _ false
              (stratum_label task suffix union x) Hc) as [rows Hrows].
  destruct (IH w1) as (outcomes & w' & Hrest).
  exists ((st, rows) :: outcomes), w'.
  apply (reported_cons _ _ _ _ _ w x xs st (fieldnames, rows) w1); [| |done].
  + unfold stratum_wrapper. by rewrite Hn.
  + unfold stratum_report. by rewrite Hn.
Qed.
End Cooperative.

Section CooperativeRun.
Context `{Host}.

Lemma cooperative_prelude f_ref f_pred skip_check glueing_cols f_tagset w :
cooperative →
skip_check = true ∨ is_ok (enforce_filename_try f_pred) = true →
∃ w0 p, prelude f_ref f_pred skip_check glueing_cols f_tagset w = (w0, Ok p).
Proof.
intros (Hnew & _ & Hread & _) Hname. unfold prelude.
assert (∃ sl, (if negb skip_check then enforce_filename f_pred else ret (f_pred, "LANG")) w
              = (w, Ok sl)) as [sl Hsl].
{ destruct Hname as [-> | Hok]; [by eexists|].
  destruct skip_check; [by eexists|]. simpl. rewrite enforce_filename_spec.
  destruct (enforce_filename_try f_pred); [by eexists | done]. }
rewrite (bind_step _ _ _ _ _ Hsl).
assert (∃ w2 tags,
          match f_tagset with
          | Some f =>
              if truthy f then
                text <- call (EReadText f) (λ h, host_read_text h f) ;;
                ret (Some (remove_dups (splitlines_go EmptyString (upper text))))
              else ret None
          | None => ret None
          end w = (w2, Ok tags)) as (w2 & tags & Htags).
{ destruct f_tagset as [f|]; [destruct (truthy f)|]; try (by eexists _, _).
  unfold bind, call. specialize (Hread (host w) f).
  destruct (host_read_text (host w) f) as [h [text|e]]; [|done]. by eexists _, _. }
rewrite (bind_step _ _ _ _ _ Htags).
unfold bind, call.
match goal with
| |- context [host_new_evaluator ?h ?a ?b ?c] =>
    specialize (Hnew h a b c); destruct (host_new_evaluator h a b c) as [h3 r]
end.
simpl in Hnew. subst r. by eexists _, _.
Qed.

(** Against a cooperative host, a NERC task with strata runs to the end. *)
Lemma cooperative_get_results f_ref f_pred task skip_check glueing_cols n_best union
  outdir suffix f_tagset noise_levels time_periods w :
cooperative → is_nerc task = true →
skip_check = true ∨ is_ok (enforce_filename_try f_pred) = true →
noise_levels ≠ [] → time_periods ≠ [] →
∃ w', get_results f_ref f_pred task skip_check glueing_cols n_best union outdir suffix
        f_tagset noise_levels time_periods w = (w', Ok tt).
Proof.
intros Hco Hn Hname Hnoise Htime.
destruct (cooperative_prelude f_ref f_pred skip_check glueing_cols f_tagset w Hco Hname)
  as (w0 & [submission tags] & Hpre).
destruct (cooperative_reported task submission suffix union tags
            (task_strata task n_best noise_levels time_periods) w0 Hco Hn)
  as (outcomes & w1 & Hrep).
assert (outcomes ≠ []) as Hne.
{ apply reported_length in Hrep. intros ->. simpl in Hrep.
  unfold task_strata in Hrep. rewrite Hn, length_fmap in Hrep.
  destruct noise_levels, time_periods; try done. }
rewrite get_results_prelude, (bind_step _ _ _ _ _ Hpre). simpl.
assert (evaluate_strata task submission suffix tags n_best union noise_levels time_periods w0
        = (w1, Ok (after_strata (mkLocals (Some []) None None) [] outcomes))) as Hloop.
{ rewrite evaluate_strata_turns by auto. apply for_each_Ok.
  apply (turns_reported _ _ _ _ _ _ _ []); [done|]. by exists outcomes. }
rewrite (bind_step _ _ _ _ _ Hloop).
destruct Hco as (_ & _ & _ & Hopen).
pose proof (Hopen (host w1) (PathIn outdir (output_name f_pred task suffix ".tsv"))) as Ho1.
destruct (host_open_w (host w1) (PathIn outdir (output_name f_pred task suffix ".tsv")))
  as [h1 r1] eqn:E1. simpl in Ho1. subst r1.
pose proof (Hopen h1 (PathIn outdir (output_name f_pred task suffix ".json"))) as Ho2.
destruct (host_open_w h1 (PathIn outdir (output_name f_pred task suffix ".json")))
  as [h2 r2] eqn:E2. simpl in Ho2. subst r2.
destruct (last outcomes) as [final|] eqn:Hlast; [|by apply last_None in Hlast].
eexists. apply write_outputs_Ok.
exists fieldnames, (concat (snd <$> outcomes)), final.1, h1, h2.
unfold after_strata. simpl. rewrite Hlast. split_and!; try done.
by destruct outcomes.
Qed.
End CooperativeRun.

(** ** The scenario of the two noise bands *)

Section Groups.
Context `{Host}.

Lemma answered_lookup eval_type n_best noise time tags h cols answers h' i col answer :
answered eval_type n_best noise time tags h cols answers h' →
cols !! i = Some col → answers !! i = Some answer →
∃ ha hb, host_evaluate ha (Col col) eval_type true n_best noise time tags = (hb, Ok answer).
Proof.
intros Ha. revert i. induction Ha as [|h c cols g by_tag h1 answers h' Hev Hrest IH];
  intros i Hc Hans; [done|].
destruct i as [|i]; simpl in *.
- injection Hc as <-. injection Hans as <-. by exists h, h1.
- by eapply IH.
Qed.

(** What the wrapper returns for columns given by distinct names: its keys
    are the columns, and under each column is an answer of the collaborator
    for it, with the column-global bundle added under [ALL]. *)
Lemma evaluation_wrapper_columns cols eval_type n_best noise time tags w w' eval_stats :
NoDup cols →
evaluation_wrapper (Col <$> cols) eval_type n_best noise time tags w = (w', Ok eval_stats) →
keys eval_stats = cols
∧ ∀ col, col ∈ cols →
    ∃ answer ha hb,
      host_evaluate ha (Col col) eval_type true n_best noise time tags = (hb, Ok answer)
      ∧ get col eval_stats = Some (set "ALL" answer.1 answer.2).
Proof.
intros Hnd (answers & Ha & Ht & ->)%evaluation_wrapper_loop_Ok.
pose proof (answered_length _ _ _ _ _ _ _ _ _ Ha) as Hlen.
split; [by apply (fill_keys [] cols answers)|].
intros col [i Hi]%list_elem_of_lookup.
destruct (lookup_lt_is_Some_2 answers i) as [answer Hans].
{ rewrite Hlen. by eapply lookup_lt_Some. }
destruct (answered_lookup _ _ _ _ _ _ _ _ _ _ _ _ Ha Hi Hans) as (ha & hb & Hev).
exists answer, ha, hb. split; [done|]. by eapply fill_get.
Qed.

(** The rows of a label group: one per tag. *)
Definition group_index (group : string * list string) : list (option value * option value) :=
(λ tag, (Some (VStr group.1), Some (VStr tag))) <$> group.2.

(** The label groups of a report on the two coarse columns. *)
Definition coarse_groups (eval_stats : stats) (suffix : string) : list (string * list string) :=
col ← COARSE_COLUMNS; aggr ← aggregations; regime ← ["fuzzy"; "strict"];
[(evaluation_label col aggr regime suffix, sorted (keys (default [] (get col eval_stats))))].

Lemma reported_tags_all (by_tag : per_tag) : reported_tags false by_tag = sorted (keys by_tag).
Proof.
unfold reported_tags. simpl. induction (sorted (keys by_tag)) as [|tag tags IH]; [done|].
rewrite filter_cons. simpl. by rewrite IH.
Qed.

Lemma report_index_coarse (eval_stats : stats) suffix :
keys eval_stats ≡ₚ COARSE_COLUMNS →
report_index eval_stats ["fuzzy"; "strict"] false suffix
= concat (group_index <$> coarse_groups eval_stats suffix).
Proof.
intros Hk. unfold report_index.
rewrite (sorted_perm_eq _ _ Hk).
assert (sorted COARSE_COLUMNS = COARSE_COLUMNS) as -> by (by vm_compute).
unfold coarse_groups, group_index, COARSE_COLUMNS, aggregations.
cbn [fmap list_fmap concat mbind list_bind mret list_ret app fst snd].
by rewrite !reported_tags_all, ?app_nil_r, <- !app_assoc.
Qed.
End Groups.

(** Two strings of which neither is a prefix of the other. *)
Fixpoint clash (s t : string) : bool :=
match s, t with
| String a s', String b t' => if Ascii.eqb a b then clash s' t' else true
| _, _ => false
end.

(** Two pairs of a prefix and an ending that stay apart whatever is put
    between the prefix and the ending. *)
Definition separated (a b : string * string) : bool :=
bool_decide (a = b) || clash a.1 b.1
|| (bool_decide (a.1 = b.1) && negb (bool_decide (a.2 = b.2))).

(** The labels of the scenario: three strata, two columns, two aggregations
    and two regimes, with the suffix of the user before the stratum. *)
Definition scenario_pairs : list (string * string) :=
stratum ← ["TIME-ALL-LED-ALL"; "TIME-ALL-LED-0.0-0.1"; "TIME-ALL-LED-0.1-1.0"];
col ← COARSE_COLUMNS; aggr ← aggregations; regime ← ["fuzzy"; "strict"];
[(col +:+ "-" +:+ aggr +:+ "-" +:+ regime +:+ "-", stratum)].

Definition scenario_labels (suffix : string) : list string :=
(λ a, a.1 +:+ (if truthy suffix then suffix +:+ "-" else EmptyString) +:+ a.2)
  <$> scenario_pairs.

Section ScenarioLabels.

Lemma clash_app s t x y : clash s t = true → s +:+ x ≠ t +:+ y.
Proof.
revert t. induction s as [|a s IH]; intros [|b t]; simpl; try done.
rewrite !app_String. destruct (Ascii.eqb_spec a b) as [->|Hne].
- intros Hc [= Heq]. by apply (IH t).
- intros _ [= Heq _]. done.
Qed.

Lemma separated_NoDup (pairs : list (string * string)) (user : string) :
NoDup pairs →
forallb (λ a, forallb (separated a) pairs) pairs = true →
NoDup ((λ a, a.1 +:+ user +:+ a.2) <$> pairs).
Proof.
intros Hnd Hsep. apply NoDup_fmap_2_strong; [|done].
intros a b Ha Hb Heq.
pose proof (forallb_elem_of _ _ _ (forallb_elem_of _ _ _ Hsep Ha) Hb) as Hab.
unfold separated in Hab.
apply orb_prop in Hab as [[Hab|Hab]%orb_prop|[H1 H2]%andb_prop].
- by apply bool_decide_eq_true in Hab.
- by apply (clash_app _ _ (user +:+ a.2) (user +:+ b.2)) in Hab.
- apply bool_decide_eq_true in H1. apply negb_true_iff, bool_decide_eq_false in H2.
  rewrite H1 in Heq. by apply (inj (String.app b.1)), (inj (String.app user)) in Heq.
Qed.

Lemma scenario_labels_NoDup suffix : NoDup (scenario_labels suffix).
Proof.
apply separated_NoDup.
- apply (bool_decide_unpack _). by vm_compute.
- by vm_compute.
Qed.

Lemma scenario_labels_length suffix : length (scenario_labels suffix) = 24%nat.
Proof. unfold scenario_labels. by rewrite length_fmap. Qed.
End ScenarioLabels.

Section Scenario.
Context `{Host}.

Lemma set_order_NoDup l : NoDup l → NoDup (set_order l).
Proof. intros Hnd. by rewrite set_order_perm. Qed.
End Scenario.

(** * Further properties of the scorer *)

(** ** The wrapper on columns given by name *)

Section WrapperCalls.
Context `{Host}.

Lemma evaluation_wrapper_loop_Raise cols eval_type n_best noise time tags eval_global
  eval_per_tag w w' e :
evaluation_wrapper_loop (Col <$> cols) eval_type n_best noise time tags
  eval_global eval_per_tag w = (w', Raise e)
↔ ∃ cols1 col cols2 answers h1,
    cols = cols1 ++ col :: cols2
    ∧ answered eval_type n_best noise time tags (host w) cols1 answers h1
    ∧ host_evaluate h1 (Col col) eval_type true n_best noise time tags = (host w', Raise e)
    ∧ trace w'
      = trace w ++ ((λ c, EEvaluate (Col c) eval_type true n_best noise time tags)
                      <$> cols1 ++ [col]).
Proof.
revert eval_global eval_per_tag w.
induction cols as [|c cols IH]; intros eval_global eval_per_tag w.
- simpl. split; [done|]. intros (cols1 & col & cols2 & ? & ? & Hc & _).
  by destruct cols1.
- rewrite fmap_cons, evaluation_wrapper_loop_name.
  destruct (host_evaluate (host w) (Col c) eval_type true n_best noise time tags)
    as [h [answer|e']] eqn:Hev.
  + rewrite IH. simpl. split.
    * intros (cols1 & col & cols2 & answers & h1 & -> & Ha & Hf & Ht).
      exists (c :: cols1), col, cols2, (answer :: answers), h1.
      split_and!; [done | destruct answer; by econstructor | done |].
      rewrite Ht, <- app_assoc. done.
    * intros (cols1 & col & cols2 & answers & h1 & Hc & Ha & Hf & Ht).
      destruct cols1 as [|c1 cols1]; simpl in Hc; injection Hc as <- ->.
      { inversion Ha; subst. rewrite Hev in Hf. done. }
      inversion Ha as [|? ? ? g by_tag h2 rest ? Hev' Hrest]; subst.
      rewrite Hev in Hev'. simplify_eq.
      exists cols1, col, cols2, rest, h1. split_and!; [done | done | done |].
      rewrite Ht, <- app_assoc. done.
  + split.
    * intros [= <- <-]. exists [], c, cols, [], (host w).
      split_and!; [done | constructor | done | done].
    * intros (cols1 & col & cols2 & answers & h1 & Hc & Ha & Hf & Ht).
      destruct cols1 as [|c1 cols1]; simpl in Hc; injection Hc as <- ->.
      -- inversion Ha; subst. rewrite Hev in Hf. injection Hf as -> ->.
         destruct w' as [t' h']. simpl in *. by rewrite Ht.
      -- inversion Ha as [|? ? ? g by_tag h2 rest ? Hev' Hrest]; subst.
         rewrite Hev in Hev'. done.
Qed.

(** X1. For distinct columns given by name, a result of the wrapper holds the
    columns in the order of the calls: the collaborator was called once for
    each, with [merge_lines] set and the parameters of the stratum. Under a
    column are the bundles per tag of its call, with the column-global bundle
    under [ALL]: in the place of a tag [ALL] that the collaborator returned,
    or else after the last tag. *)
Theorem wrapper_keeps_every_answer_and_sets_ALL
  cols eval_type n_best noise time tags w w' eval_stats :
NoDup cols →
evaluation_wrapper (Col <$> cols) eval_type n_best noise time tags w = (w', Ok eval_stats) →
trace w'
= trace w ++ ((λ col, EEvaluate (Col col) eval_type true n_best noise time tags) <$> cols)
∧ keys eval_stats = cols
∧ ∀ col, col ∈ cols →
    ∃ answer ha hb by_tag,
      host_evaluate ha (Col col) eval_type true n_best noise time tags = (hb, Ok answer)
      ∧ get col eval_stats = Some by_tag
      ∧ get "ALL" by_tag = Some answer.1
      ∧ (∀ tag, tag ≠ "ALL" → get tag by_tag = get tag answer.2)
      ∧ keys by_tag
        = if bool_decide ("ALL" ∈ keys answer.2) then keys answer.2
          else keys answer.2 ++ ["ALL"].
Proof.
intros Hnd Hrun.
destruct (evaluation_wrapper_columns _ _ _ _ _ _ _ _ _ Hnd Hrun) as [Hkeys Hcols].
apply evaluation_wrapper_loop_Ok in Hrun as (answers & _ & Ht & _).
split_and!; [by rewrite Ht | done |].
intros col Hcol. destruct (Hcols col Hcol) as (answer & ha & hb & Hev & Hget).
exists answer, ha, hb, (set "ALL" answer.1 answer.2).
split_and!; [done | done | apply get_set_eq | | ].
- intros tag Htag. apply get_set_ne. congruence.
- case_bool_decide; [by apply keys_set_in | by apply keys_set_new].
Qed.

(** X2. The wrapper raises, on columns given by name, only what a call of the
    collaborator raised: the columns before it were answered, the columns
    after it are not evaluated, and the exception is passed on as it is. *)
Theorem wrapper_stops_at_the_first_failing_call
  cols eval_type n_best noise time tags w w' e :
evaluation_wrapper (Col <$> cols) eval_type n_best noise time tags w = (w', Raise e)
↔ ∃ cols1 col cols2 w1 eval_stats,
    cols = cols1 ++ col :: cols2
    ∧ evaluation_wrapper (Col <$> cols1) eval_type n_best noise time tags w
      = (w1, Ok eval_stats)
    ∧ host_evaluate (host w1) (Col col) eval_type true n_best noise time tags
      = (host w', Raise e)
    ∧ trace w' = trace w1 ++ [EEvaluate (Col col) eval_type true n_best noise time tags].
Proof.
unfold evaluation_wrapper. rewrite evaluation_wrapper_loop_Raise. split.
- intros (cols1 & col & cols2 & answers & h1 & -> & Ha & Hf & Ht).
  exists cols1, col, cols2,
    (mkWorld (trace w ++ ((λ c, EEvaluate (Col c) eval_type true n_best noise time tags)
                            <$> cols1)) h1), (fill [] cols1 answers).
  split_and!; [done | | done | ].
  + apply evaluation_wrapper_loop_Ok. exists answers. split_and!; done.
  + simpl. rewrite Ht, fmap_app, app_assoc. done.
- intros (cols1 & col & cols2 & w1 & eval_stats & -> & Hok & Hf & Ht).
  apply evaluation_wrapper_loop_Ok in Hok as (answers & Ha & Ht1 & _).
  exists cols1, col, cols2, answers, (host w1). split_and!; [done | done | done |].
  rewrite Ht, Ht1, fmap_app, app_assoc. done.
Qed.
End WrapperCalls.

(** ** The shape of a report *)

(** The metrics that a row of an aggregation reads from a bundle. *)
Definition needed_keys (aggr : string) : list string :=
((λ metric, metric +:+ "_" +:+ aggr) <$> metric_names)
++ (if String.eqb aggr "micro" then figures else [])
++ (if contains "macro" aggr
    then (λ metric, metric +:+ "_" +:+ aggr +:+ "_std") <$> metric_names else []).

Section ResultFacts.

Lemma rbind_Raise {X Y} (r : result X) (k : X → result Y) e :
rbind r k = Raise e ↔ r = Raise e ∨ ∃ x, r = Ok x ∧ k x = Raise e.
Proof.
destruct r as [x|e']; simpl.
- split; [intros; right; by exists x | by intros [?|(? & [= <-] & ?)]].
- split; [intros [= ->]; by left | by intros [[= ->]|(? & ? & _)]].
Qed.

Lemma rmap_Raise {A B} (f : A → result B) xs e :
rmap f xs = Raise e → ∃ x, x ∈ xs ∧ f x = Raise e.
Proof.
induction xs as [|x xs IH]; simpl; [done|].
intros [Hx | (y & _ & Hrest)]%rbind_Raise.
- exists x. split; [apply list_elem_of_here | done].
- apply rbind_Raise in Hrest as [Hxs | (ys & _ & ?)]; [|done].
  destruct (IH Hxs) as (x' & ? & ?). exists x'. split; [by apply list_elem_of_further | done].
Qed.

Lemma rconcat_Raise {A B} (f : A → result (list B)) xs e :
rconcat f xs = Raise e → ∃ x, x ∈ xs ∧ f x = Raise e.
Proof.
unfold rconcat. intros [Hm | (? & _ & ?)]%rbind_Raise; [|done]. by apply rmap_Raise.
Qed.

Lemma is_ok_Ok {A} (r : result A) : is_ok r = true ↔ ∃ a, r = Ok a.
Proof.
destruct r as [a|e]; simpl; split; try done.
- intros _. by exists a.
- by intros [? ?].
Qed.

End ResultFacts.

Section ReportShape.
Context `{PyFloat}.
Implicit Types (eval_stats : stats) (rows : list row).

Lemma stat_Raise eval_stats col tag regime key e :
stat eval_stats col tag regime key = Raise e → ∃ k, e = KeyError k.
Proof.
unfold stat, getitem.
destruct (get col eval_stats) as [by_tag|]; simpl; [|intros [= <-]; eauto].
destruct (get tag by_tag) as [by_regime|]; simpl; [|intros [= <-]; eauto].
destruct (get regime by_regime) as [by_metric|]; simpl; [|intros [= <-]; eauto].
destruct (get key by_metric); simpl; [done | intros [= <-]; eauto].
Qed.

(** The values of a row are found exactly when every metric that the
    aggregation needs is there. *)
Ltac found H :=
  match type of H with ?s = Ok _ => change (is_ok s = true); by rewrite H end.

Lemma row_values_needed eval_stats col aggr regime tag :
is_ok (row_values eval_stats col aggr regime tag) = true
↔ ∀ key, key ∈ needed_keys aggr → is_ok (stat eval_stats col tag regime key) = true.
Proof.
unfold needed_keys, metric_names, figures. split.
- intros [[[[[p r] f1] counts] stds] Hv]%is_ok_Ok key Hkey.
  apply row_values_Ok in Hv as (Hp & Hr & Hf1 & Hcounts & Hstds).
  rewrite !fmap_cons, !fmap_nil in Hkey.
  apply elem_of_app in Hkey as [Hkey|Hkey].
  { apply elem_of_cons in Hkey as [->|Hkey]; [found Hp|].
    apply elem_of_cons in Hkey as [->|Hkey]; [found Hr|].
    apply elem_of_cons in Hkey as [->|Hkey]; [found Hf1|].
    by apply elem_of_nil in Hkey. }
  apply elem_of_app in Hkey as [Hkey|Hkey].
  { destruct (String.eqb aggr "micro"); [|by apply elem_of_nil in Hkey].
    destruct Hcounts as (tp & fp & fn & _ & Htp & Hfp & Hfn).
    apply elem_of_cons in Hkey as [->|Hkey]; [found Htp|].
    apply elem_of_cons in Hkey as [->|Hkey]; [found Hfp|].
    apply elem_of_cons in Hkey as [->|Hkey]; [found Hfn|].
    by apply elem_of_nil in Hkey. }
  destruct (contains "macro" aggr); [|by apply elem_of_nil in Hkey].
  destruct Hstds as (ps & rs & fs & _ & Hps & Hrs & Hfs).
  apply elem_of_cons in Hkey as [->|Hkey]; [found Hps|].
  apply elem_of_cons in Hkey as [->|Hkey]; [found Hrs|].
  apply elem_of_cons in Hkey as [->|Hkey]; [found Hfs|].
  by apply elem_of_nil in Hkey.
- intros Hkeys. rewrite !fmap_cons, !fmap_nil in Hkeys.
  assert (∀ key, key ∈ ["P" +:+ "_" +:+ aggr; "R" +:+ "_" +:+ aggr; "F1" +:+ "_" +:+ aggr] →
            ∃ v, stat eval_stats col tag regime key = Ok v) as Hm.
  { intros key Hkey. apply is_ok_Ok, Hkeys, elem_of_app. by left. }
  unfold row_values.
  destruct (Hm ("P_" +:+ aggr)) as [p ->]; [apply list_elem_of_here|]. cbn [rbind].
  destruct (Hm ("R_" +:+ aggr)) as [r ->];
    [apply list_elem_of_further, list_elem_of_here|]. cbn [rbind].
  destruct (Hm ("F1_" +:+ aggr)) as [f1 ->];
    [do 2 apply list_elem_of_further; apply list_elem_of_here|]. cbn [rbind].
  destruct (String.eqb aggr "micro").
  + assert (∀ key, key ∈ ["TP"; "FP"; "FN"] →
              ∃ v, stat eval_stats col tag regime key = Ok v) as Hc.
    { intros key Hkey. apply is_ok_Ok, Hkeys.
      apply elem_of_app; right. apply elem_of_app; by left. }
    destruct (Hc "TP") as [tp ->]; [apply list_elem_of_here|]. cbn [rbind].
    destruct (Hc "FP") as [fp ->]; [apply list_elem_of_further, list_elem_of_here|].
    cbn [rbind].
    destruct (Hc "FN") as [fn ->];
      [do 2 apply list_elem_of_further; apply list_elem_of_here|]. cbn [rbind].
    destruct (contains "macro" aggr); [|done].
    assert (∀ key, key ∈ ["P" +:+ "_" +:+ aggr +:+ "_std"; "R" +:+ "_" +:+ aggr +:+ "_std";
                          "F1" +:+ "_" +:+ aggr +:+ "_std"] →
              ∃ v, stat eval_stats col tag regime key = Ok v) as Hs.
    { intros key Hkey. apply is_ok_Ok, Hkeys.
      apply elem_of_app; right. apply elem_of_app; by right. }
    destruct (Hs ("P_" +:+ aggr +:+ "_std")) as [ps ->]; [apply list_elem_of_here|].
    cbn [rbind].
    destruct (Hs ("R_" +:+ aggr +:+ "_std")) as [rs ->];
      [apply list_elem_of_further, list_elem_of_here|]. cbn [rbind].
    destruct (Hs ("F1_" +:+ aggr +:+ "_std")) as [fs ->];
      [do 2 apply list_elem_of_further; apply list_elem_of_here|]. done.
  + cbn [rbind]. destruct (contains "macro" aggr); [|done].
    assert (∀ key, key ∈ ["P" +:+ "_" +:+ aggr +:+ "_std"; "R" +:+ "_" +:+ aggr +:+ "_std";
                          "F1" +:+ "_" +:+ aggr +:+ "_std"] →
              ∃ v, stat eval_stats col tag regime key = Ok v) as Hs.
    { intros key Hkey. apply is_ok_Ok, Hkeys.
      apply elem_of_app; right. apply elem_of_app; by right. }
    destruct (Hs ("P_" +:+ aggr +:+ "_std")) as [ps ->]; [apply list_elem_of_here|].
    cbn [rbind].
    destruct (Hs ("R_" +:+ aggr +:+ "_std")) as [rs ->];
      [apply list_elem_of_further, list_elem_of_here|]. cbn [rbind].
    destruct (Hs ("F1_" +:+ aggr +:+ "_std")) as [fs ->];
      [do 2 apply list_elem_of_further; apply list_elem_of_here|]. done.
Qed.
End ReportShape.

Section ReportTheorems.
Context `{PyFloat}.
Implicit Types (eval_stats : stats) (rows : list row).

Lemma elem_of_reported_tags only_aggregated (by_tag : per_tag) tag :
tag ∈ reported_tags only_aggregated by_tag
↔ tag ∈ keys by_tag ∧ (only_aggregated = true → tag = "ALL").
Proof.
unfold reported_tags. rewrite list_elem_of_filter, elem_of_sorted.
destruct only_aggregated; simpl.
- destruct (String.eqb_spec tag "ALL"); simpl; split; try tauto; intros [? ?]; auto.
  by destruct n; auto.
- split; [intros [_ ?]; by split | intros [? _]; by split].
Qed.

(** X3. A report is assembled exactly when every metric that a row needs is in
    the bundle of its column, tag and regime: the regime [fuzzy] is looked up
    under [ent_type]. The only error that the assembly raises is the
    [KeyError] of a lookup. *)
Theorem report_needs_every_metric_and_fails_with_KeyError
  submission eval_stats regimes only_aggregated suffix :
(is_ok (assemble_tsv_output submission eval_stats regimes only_aggregated suffix) = true
 ↔ ∀ col by_tag aggr regime tag key,
     get col eval_stats = Some by_tag → aggr ∈ aggregations → regime ∈ regimes →
     tag ∈ keys by_tag → (only_aggregated = true → tag = "ALL") →
     key ∈ needed_keys aggr →
     is_ok (stat eval_stats col tag (storage_regime regime) key) = true)
∧ ∀ e, assemble_tsv_output submission eval_stats regimes only_aggregated suffix = Raise e →
       ∃ key, e = KeyError key.
Proof.
split; [split|].
- intros [out Hout]%is_ok_Ok col by_tag aggr regime tag key Hget Haggr Hregime Htag Honly Hkey.
  destruct (assemble_tsv_output_elem_of_2 _ _ _ _ _ _ col aggr regime tag by_tag
              Hout Hget Haggr Hregime) as (row & _ & Hres).
  { apply elem_of_reported_tags. by split. }
  apply tag_results_Ok in Hres as (p & r & f1 & counts & stds & Hv & _).
  revert key Hkey. apply row_values_needed. by rewrite Hv.
- intros Hkeys. rewrite assemble_tsv_output_spec.
  destruct (rconcat_total (λ col,
               rconcat (λ aggr,
                 rconcat (λ regime,
                   group_rows submission eval_stats only_aggregated
                     (if truthy suffix then "-" +:+ suffix else suffix) col aggr regime)
                   regimes)
                 aggregations) (sorted (keys eval_stats))) as [rows ->]; [|done].
  intros col Hcol. apply (proj1 (elem_of_sorted _ _)) in Hcol.
  apply rconcat_total. intros aggr Haggr.
  apply rconcat_total. intros regime Hregime. rewrite group_rows_spec.
  destruct (keys_get _ _ Hcol) as [by_tag Hget]. unfold getitem. rewrite Hget. simpl.
  apply rmap_total. intros tag [Htag Honly]%elem_of_reported_tags.
  destruct (proj1 (is_ok_Ok _)
              (proj2 (row_values_needed eval_stats col aggr (storage_regime regime) tag)
                 (λ key Hkey, Hkeys col by_tag aggr regime tag key Hget Haggr Hregime Htag
                                Honly Hkey)))
    as [[[[[p r] f1] counts] stds] Hv].
  eexists. apply tag_results_Ok. by exists p, r, f1, counts, stds.
- intros e. rewrite assemble_tsv_output_spec.
  intros [Hrows | (? & _ & ?)]%rbind_Raise; [|done].
  apply rconcat_Raise in Hrows as (col & _ & Hcol).
  apply rconcat_Raise in Hcol as (aggr & _ & Haggr).
  apply rconcat_Raise in Haggr as (regime & _ & Hregime).
  rewrite group_rows_spec in Hregime.
  apply rbind_Raise in Hregime as [Hget | (by_tag & _ & Htags)].
  { unfold getitem in Hget. destruct (get col eval_stats); [done|].
    injection Hget as <-. eauto. }
  apply rmap_Raise in Htags as (tag & _ & Htag).
  rewrite tag_results_spec in Htag.
  apply rbind_Raise in Htag as [Hv | ([[[[p r] f1] counts] stds] & _ & ?)]; [|done].
  unfold row_values in Hv.
  repeat match type of Hv with
         | stat _ _ _ _ _ = Raise _ => by eapply stat_Raise
         | Ok _ = Raise _ => done
         | (if ?b then _ else _) = Raise _ => destruct b
         | rbind _ _ = Raise _ => apply rbind_Raise in Hv as [Hv | (? & _ & Hv)]
         end.
Qed.

(** X4. A row has nine of the twelve fields of the header: the six that every
    row has and, with the row's aggregation, the three counts or the three
    deviations. [System] is the submission. *)
Theorem rows_have_nine_fields_of_the_header
  submission eval_stats regimes only_aggregated suffix out row :
assemble_tsv_output submission eval_stats regimes only_aggregated suffix = Ok out →
row ∈ out.2 →
out.1 = fieldnames
∧ get "System" row = Some (VStr submission)
∧ (keys row = ["System"; "Evaluation"; "Label"; "P"; "R"; "F1"; "TP"; "FP"; "FN"]
   ∨ keys row = ["System"; "Evaluation"; "Label"; "P"; "R"; "F1"; "P_std"; "R_std"; "F1_std"])
∧ ∀ field, field ∈ keys row → field ∈ fieldnames.
Proof.
intros Hout Hrow.
destruct (assemble_tsv_output_index _ _ _ _ _ _ Hout) as [Hnames _].
destruct (assemble_tsv_output_elem_of _ _ _ _ _ _ _ Hout Hrow)
  as (col & aggr & regime & tag & by_tag & _ & Haggr & _ & _ & _ & Hres).
apply tag_results_Ok in Hres as (p & r & f1 & counts & stds & Hv & ->).
apply row_values_Ok in Hv as (_ & _ & _ & Hcounts & Hstds).
assert (keys (row_of submission (evaluation_label col aggr regime suffix) tag p r f1 counts stds)
        = ["System"; "Evaluation"; "Label"; "P"; "R"; "F1"; "TP"; "FP"; "FN"]
        ∨ keys (row_of submission (evaluation_label col aggr regime suffix) tag p r f1 counts
                  stds)
          = ["System"; "Evaluation"; "Label"; "P"; "R"; "F1"; "P_std"; "R_std"; "F1_std"])
  as Hkeys.
{ unfold aggregations in Haggr.
  apply elem_of_cons in Haggr as [->|Haggr].
  - change (String.eqb "micro" "micro") with true in Hcounts.
    change (contains "macro" "micro") with false in Hstds. cbv iota in Hcounts, Hstds.
    destruct Hcounts as (tp & fp & fn & -> & _). subst stds. by left.
  - apply elem_of_cons in Haggr as [->|Haggr]; [|by apply elem_of_nil in Haggr].
    change (String.eqb "macro_doc" "micro") with false in Hcounts.
    change (contains "macro" "macro_doc") with true in Hstds. cbv iota in Hcounts, Hstds.
    destruct Hstds as (ps & rs & fs & -> & _). subst counts. by right. }
split_and!; [done | apply row_of_metrics | done |].
intros field Hfield. unfold fieldnames.
destruct Hkeys as [Hk|Hk]; rewrite Hk in Hfield;
  repeat (apply elem_of_cons in Hfield as [->|Hfield];
          [apply (bool_decide_unpack _); vm_compute; exact I|]);
  by apply elem_of_nil in Hfield.
Qed.

Lemma length_concat_fmap {A B} (f : A → list B) (l : list A) :
length (concat (f <$> l)) = sum_list_with (λ x, length (f x)) l.
Proof. induction l as [|x l IH]; csimpl; [done|]. by rewrite length_app, IH. Qed.

Lemma sum_list_with_ext_in {A} (f g : A → nat) (l : list A) :
(∀ x, x ∈ l → f x = g x) → sum_list_with f l = sum_list_with g l.
Proof.
induction l as [|x l IH]; simpl; [done|]. intros Hfg.
rewrite Hfg by apply list_elem_of_here. rewrite IH; [done|].
intros y Hy. by apply Hfg, list_elem_of_further.
Qed.

Lemma sum_list_with_const {A} (n : nat) (l : list A) :
sum_list_with (λ _, n) l = (length l * n)%nat.
Proof. induction l as [|x l IH]; simpl; [done|]. rewrite IH. lia. Qed.

(** X5. The number of rows of a report: for every column, one row for each of
    the two aggregations, each regime and each tag of the column that is not
    skipped. *)
Theorem report_has_a_row_per_aggregation_regime_and_tag
  submission eval_stats regimes only_aggregated suffix out :
assemble_tsv_output submission eval_stats regimes only_aggregated suffix = Ok out →
length out.2
= sum_list_with
    (λ col, (2 * length regimes
             * length (filter (λ tag, only_aggregated && negb (String.eqb tag "ALL") = false)
                         (keys (default [] (get col eval_stats)))))%nat)
    (keys eval_stats).
Proof.
intros Hout.
destruct (assemble_tsv_output_index _ _ _ _ _ _ Hout) as [_ Hindex].
rewrite <- (length_fmap row_index), Hindex. unfold report_index.
rewrite length_concat_fmap, sorted_Permutation.
apply sum_list_with_ext_in. intros col _.
rewrite length_concat_fmap.
erewrite sum_list_with_ext_in; [rewrite sum_list_with_const|].
2: { intros aggr _. rewrite length_concat_fmap.
     erewrite sum_list_with_ext_in; [rewrite sum_list_with_const; reflexivity|].
     intros regime _. rewrite length_fmap. unfold reported_tags.
     apply Permutation_length. rewrite sorted_Permutation. reflexivity. }
simpl. lia.
Qed.
End ReportTheorems.

(** ** What a run leaves behind, whatever its result *)

Section Effects.
Context `{Host}.

(** A computation that records, whatever its result, only events that
    [allowed] lets through. *)
Definition emits_only {A} (allowed : event → bool) (m : M A) : Prop :=
∀ w, ∃ events, trace (m w).1 = trace w ++ events ∧ forallb allowed events = true.

Lemma emits_only_ret {A} allowed (a : A) : emits_only allowed (ret a).
Proof. intros w. exists []. by rewrite app_nil_r. Qed.

Lemma emits_only_raise {A} allowed e : emits_only allowed (raise (A:=A) e).
Proof. intros w. exists []. by rewrite app_nil_r. Qed.

Lemma emits_only_lift {A} allowed (r : result A) : emits_only allowed (lift r).
Proof. intros w. exists []. by rewrite app_nil_r. Qed.

Lemma emits_only_emit allowed e : allowed e = true → emits_only allowed (emit e).
Proof. intros He w. exists [e]. simpl. by rewrite He. Qed.

Lemma emits_only_call {A} allowed e (f : host_state → host_state * result A) :
allowed e = true → emits_only allowed (call e f).
Proof.
intros He w. exists [e]. unfold call. destruct (f (host w)) as [h r]. simpl. by rewrite He.
Qed.

Lemma emits_only_bind {A B} allowed (m : M A) (k : A → M B) :
emits_only allowed m → (∀ a, emits_only allowed (k a)) → emits_only allowed (bind m k).
Proof.
intros Hm Hk w. destruct (Hm w) as (evs & Ht & Hevs). unfold bind.
destruct (m w) as [w1 [a|e]]; simpl in *; [|by exists evs].
destruct (Hk a w1) as (evs' & Ht' & Hevs'). exists (evs ++ evs').
split; [by rewrite Ht', Ht, app_assoc | by apply forallb_app_true].
Qed.

Lemma emits_only_try_except {A} allowed (m : M A) handler :
emits_only allowed m → (∀ e k, handler e = Some k → emits_only allowed k) →
emits_only allowed (try_except m handler).
Proof.
intros Hm Hk w. destruct (Hm w) as (evs & Ht & Hevs). unfold try_except.
destruct (m w) as [w1 [a|e]]; simpl in *; [by exists evs|].
destruct (handler e) as [k|] eqn:Hh; [|by exists evs].
destruct (Hk e k Hh w1) as (evs' & Ht' & Hevs'). exists (evs ++ evs').
split; [by rewrite Ht', Ht, app_assoc | by apply forallb_app_true].
Qed.

Lemma emits_only_for_each {A S} allowed (xs : list A) (body : A → S → M S) s :
(∀ x s, emits_only allowed (body x s)) → emits_only allowed (for_each xs body s).
Proof.
intros Hbody. revert s. induction xs as [|x xs IH]; intros s; simpl.
- apply emits_only_ret.
- apply emits_only_bind; [apply Hbody | apply IH].
Qed.

Lemma emits_only_weaken {A} (allowed allowed' : event → bool) (m : M A) :
(∀ e, allowed e = true → allowed' e = true) → emits_only allowed m → emits_only allowed' m.
Proof.
intros Hw Hm w. destruct (Hm w) as (evs & Ht & Hevs). exists evs. split; [done|].
revert Hevs. by apply forallb_weaken.
Qed.

Lemma evaluation_wrapper_emits cols eval_type n_best noise time tags :
emits_only is_evaluate (evaluation_wrapper cols eval_type n_best noise time tags).
Proof.
unfold evaluation_wrapper. generalize (@nil (string * bundle)) (@nil (string * per_tag)).
induction cols as [|col cols IH]; intros eval_global eval_per_tag; simpl.
- apply emits_only_ret.
- apply emits_only_bind; [by apply emits_only_call|]. intros r.
  apply emits_only_bind; [apply emits_only_lift|]. intros k.
  apply emits_only_bind; [apply emits_only_lift|]. intros g.
  apply emits_only_bind; [apply emits_only_lift|]. intros pt. apply IH.
Qed.

Lemma evaluate_strata_emits task submission suffix tags n_best union noise_levels
  time_periods :
emits_only is_evaluate
  (evaluate_strata task submission suffix tags n_best union noise_levels time_periods).
Proof.
unfold evaluate_strata. case_bool_decide; [|destruct (String.eqb task "nel")].
- apply emits_only_for_each. intros [noise time] loc. unfold nerc_body.
  apply emits_only_bind; [apply evaluation_wrapper_emits|]. intros eval_stats.
  apply emits_only_bind; [apply emits_only_lift|]. intros out. unfold accumulate.
  apply emits_only_bind; [apply emits_only_lift|]. intros rows. apply emits_only_ret.
- apply emits_only_for_each. intros [n [noise time]] loc. unfold nel_body.
  apply emits_only_bind.
  { destruct union; (apply emits_only_bind; [apply evaluation_wrapper_emits|]);
      intros eval_stats; apply emits_only_ret. }
  intros r. apply emits_only_bind; [apply emits_only_lift|]. intros out. unfold accumulate.
  apply emits_only_bind; [apply emits_only_lift|]. intros rows. apply emits_only_ret.
- apply emits_only_ret.
Qed.

Lemma prelude_emits f_ref f_pred skip_check glueing_cols f_tagset :
emits_only (λ e, negb (is_output e) && negb (is_evaluate e))
  (prelude f_ref f_pred skip_check glueing_cols f_tagset).
Proof.
unfold prelude. apply emits_only_bind.
{ destruct (negb skip_check); [|apply emits_only_ret].
  unfold enforce_filename. apply emits_only_try_except; [apply emits_only_lift|].
  intros e k Hk.
  assert (k = (emit (ELogError (enforce_filename_msg f_pred)) ;;;
               raise (AssertionError (enforce_filename_msg f_pred)))) as ->
    by (destruct e; congruence).
  apply emits_only_bind; [by apply emits_only_emit | intros; apply emits_only_raise]. }
intros sl. apply emits_only_bind.
{ destruct f_tagset as [f|]; [destruct (truthy f)|]; try apply emits_only_ret.
  apply emits_only_bind; [by apply emits_only_call | intros; apply emits_only_ret]. }
intros tags. apply emits_only_bind; [by apply emits_only_call | intros; apply emits_only_ret].
Qed.

Lemma drop_app_length' {A} (l k : list A) : drop (length l) (l ++ k) = k.
Proof. by rewrite drop_app_length. Qed.

(** X6. No output file is opened unless the name was accepted, the tagset read,
    the collaborator made and every stratum evaluated and reported: when one
    of these raises, [get_results] raises the same exception, and the files
    of an earlier run are left as they were. *)
Theorem failed_evaluation_opens_no_file
  f_ref f_pred task skip_check glueing_cols n_best union outdir suffix f_tagset
  noise_levels time_periods w w1 e :
prelude f_ref f_pred skip_check glueing_cols f_tagset w = (w1, Raise e)
∨ (∃ w0 p,
     prelude f_ref f_pred skip_check glueing_cols f_tagset w = (w0, Ok p)
     ∧ evaluate_strata task p.1 suffix p.2 n_best union noise_levels time_periods w0
       = (w1, Raise e)) →
get_results f_ref f_pred task skip_check glueing_cols n_best union outdir suffix f_tagset
  noise_levels time_periods w = (w1, Raise e)
∧ forallb (λ e, negb (is_output e)) (drop (length (trace w)) (trace w1)) = true.
Proof.
rewrite get_results_prelude. intros [Hpre | (w0 & p & Hpre & Hloop)].
- split; [by apply bind_raise_step|].
  destruct (prelude_emits f_ref f_pred skip_check glueing_cols f_tagset w)
    as (evs & Ht & Hevs).
  rewrite Hpre in Ht. simpl in Ht. rewrite Ht, drop_app_length'.
  revert Hevs. apply forallb_weaken. by intros ev [? _]%andb_prop.
- split.
  + erewrite bind_step by done. by apply bind_raise_step.
  + destruct (prelude_emits f_ref f_pred skip_check glueing_cols f_tagset w)
      as (evs & Ht & Hevs).
    destruct (evaluate_strata_emits task p.1 suffix p.2 n_best union noise_levels
                time_periods w0) as (evs' & Ht' & Hevs').
    rewrite Hpre in Ht. rewrite Hloop in Ht'. simpl in Ht, Ht'.
    rewrite Ht', Ht, <- app_assoc, drop_app_length'. apply forallb_app_true.
    * revert Hevs. apply forallb_weaken. by intros ev [? _]%andb_prop.
    * revert Hevs'. apply forallb_weaken. by intros [].
Qed.
End Effects.

(** ** A run that completes *)

(** The pairs of columns to glue, the tagset file that is read, and the
    tagset that is made of its text. *)
Definition glueing_pairs (glueing_cols : option string) : option (list (list string)) :=
match glueing_cols with
| Some g => if truthy g then Some (split "+" <$> split "," g) else None
| None => None
end.

Definition tagset_file (f_tagset : option string) : option string :=
match f_tagset with
| Some f => if truthy f then Some f else None
| None => None
end.

Definition tagset_of (text : string) : list string :=
remove_dups (splitlines_go EmptyString (upper text)).

Section CompletedRun.
Context `{Host}.

(** The calls of the collaborator for a stratum. *)
Definition stratum_calls (task : string) (tags : tagset) (x : stratum) : list event :=
if is_nerc task
then (λ col, EEvaluate (Col col) "nerc" true 1 x.2.1 x.2.2 tags)
       <$> set_order (if String.eqb task "nerc_fine" then FINE_COLUMNS else COARSE_COLUMNS)
else (λ col, EEvaluate (Col col) "nel" true x.1 x.2.1 x.2.2 None) <$> NEL_COLUMNS.

Lemma prelude_Ok f_ref f_pred skip_check glueing_cols f_tagset w w0 submission tags :
prelude f_ref f_pred skip_check glueing_cols f_tagset w = (w0, Ok (submission, tags)) →
submission = (if skip_check then f_pred else path_stem (lower f_pred))
∧ (skip_check = false → is_ok (enforce_filename_try f_pred) = true)
∧ ∃ h1,
    match tagset_file f_tagset with
    | Some f => ∃ text, host_read_text (host w) f = (h1, Ok text)
                        ∧ tags = Some (tagset_of text)
    | None => h1 = host w ∧ tags = None
    end
    ∧ host_new_evaluator h1 f_ref f_pred (glueing_pairs glueing_cols) = (host w0, Ok tt)
    ∧ trace w0
      = trace w ++ match tagset_file f_tagset with Some f => [EReadText f] | None => [] end
        ++ [ENewEvaluator f_ref f_pred (glueing_pairs glueing_cols)].
Proof.
unfold prelude. fold (glueing_pairs glueing_cols).
intros (w1 & sl & Hsl & (w2 & tags' & Htags & (w3 & [] & Hnew & [= <- <- <-])%bind_Ok)%bind_Ok)
  %bind_Ok.
assert (w1 = w ∧ sl.1 = (if skip_check then f_pred else path_stem (lower f_pred))
        ∧ (skip_check = false → is_ok (enforce_filename_try f_pred) = true))
  as (-> & Hsub & Hname).
{ destruct skip_check; simpl in Hsl; [by injection Hsl as <- <-|].
  rewrite enforce_filename_spec in Hsl.
  destruct (enforce_filename_try f_pred) as [[s l]|] eqn:Htry; [|done].
  injection Hsl as <- <-. by apply enforce_filename_try_Ok in Htry as (-> & _). }
split_and!; [done | done |].
assert (∃ h1,
          match tagset_file f_tagset with
          | Some f => ∃ text, host_read_text (host w) f = (h1, Ok text)
                              ∧ tags' = Some (tagset_of text)
          | None => h1 = host w ∧ tags' = None
          end
          ∧ w2 = mkWorld (trace w ++ match tagset_file f_tagset with
                                     | Some f => [EReadText f] | None => [] end) h1)
  as (h1 & Hread & ->).
{ unfold tagset_file. destruct f_tagset as [f|]; [destruct (truthy f)|].
  - apply bind_Ok in Htags as (w1' & text & Hread & [= <- <-]).
    unfold call in Hread. destruct (host_read_text (host w) f) as [h r] eqn:Hr.
    injection Hread as <- ->. exists h. split; [by exists text | done].
  - injection Htags as <- <-. exists (host w). rewrite app_nil_r. by destruct w.
  - injection Htags as <- <-. exists (host w). rewrite app_nil_r. by destruct w. }
exists h1. split; [done|].
unfold call in Hnew. simpl in Hnew.
destruct (host_new_evaluator h1 f_ref f_pred (glueing_pairs glueing_cols)) as [h r] eqn:Hn.
injection Hnew as <- ->. simpl. by rewrite <- app_assoc.
Qed.

Lemma reported_calls task submission suffix union tags w xs outcomes w' :
reported task submission suffix union tags w xs outcomes w' →
is_nerc task = true ∨ union = false →
trace w' = trace w ++ (x ← xs; stratum_calls task tags x).
Proof.
intros Hrep Htask.
induction Hrep as [w|w x xs st out w1 outcomes w' Hw Hout Hrest IH].
- by rewrite app_nil_r.
- rewrite IH. cbn [mbind list_bind]. rewrite app_assoc. f_equal.
  unfold stratum_wrapper, stratum_calls, evaluation_wrapper in *.
  destruct (is_nerc task).
  + apply evaluation_wrapper_loop_Ok in Hw as (answers & _ & Ht & _).
    rewrite Ht. f_equal.
  + destruct Htask as [?| ->]; [done|].
    apply evaluation_wrapper_loop_Ok in Hw as (answers & _ & Ht & _).
    rewrite Ht. f_equal.
Qed.

Lemma get_results_known_task f_ref f_pred task skip_check glueing_cols n_best union outdir
  suffix f_tagset noise_levels time_periods w w' :
get_results f_ref f_pred task skip_check glueing_cols n_best union outdir suffix f_tagset
  noise_levels time_periods w = (w', Ok tt) →
is_nerc task = true ∨ (task = "nel" ∧ union = false).
Proof.
intros Hrun.
destruct (get_results_Ok _ _ _ _ _ _ _ _ _ _ _ _ _ _ Hrun)
  as (submission & tags & w0 & w1 & outcomes & final & _ & Hrep & Hlast & _).
revert Hrun. rewrite get_results_prelude.
intros (w0' & p & _ & (w1' & loc & Hloop & Hwrite)%bind_Ok)%bind_Ok.
apply write_outputs_Ok in Hwrite as (names & _ & _ & _ & _ & Hnames & _).
destruct (is_nerc task) eqn:Hn; [by left | right].
destruct (decide (task = "nel")) as [->|Hnel].
- split; [done|]. destruct union; [|done].
  inversion Hrep as [|? x xs st out wa rest ? Hw]; subst; [done|].
  by apply stratum_wrapper_union in Hw.
- rewrite evaluate_strata_unknown in Hloop by done. by injection Hloop as _ <-.
Qed.

(** A run that completes, after the events that were there before: what
    comes before the files is neither about a file to write nor a call of
    the collaborator that is not listed. *)
Lemma get_results_events f_ref f_pred task skip_check glueing_cols n_best union outdir
  suffix f_tagset noise_levels time_periods w w' :
get_results f_ref f_pred task skip_check glueing_cols n_best union outdir suffix f_tagset
  noise_levels time_periods w = (w', Ok tt) →
∃ tags outcomes final h1,
  match tagset_file f_tagset with
  | Some f => ∃ text, host_read_text (host w) f = (h1, Ok text) ∧ tags = Some (tagset_of text)
  | None => h1 = host w ∧ tags = None
  end
  ∧ (∃ w0 w1, reported task (if skip_check then f_pred else path_stem (lower f_pred)) suffix
               union tags w0 (task_strata task n_best noise_levels time_periods) outcomes w1)
  ∧ last outcomes = Some final
  ∧ drop (length (trace w)) (trace w')
    = match tagset_file f_tagset with Some f => [EReadText f] | None => [] end
      ++ [ENewEvaluator f_ref f_pred (glueing_pairs glueing_cols)]
      ++ (x ← task_strata task n_best noise_levels time_periods; stratum_calls task tags x)
      ++ [EOpenW (PathIn outdir (output_name f_pred task suffix ".tsv"));
          EWriteTsv (PathIn outdir (output_name f_pred task suffix ".tsv"))
            fieldnames (concat (snd <$> outcomes));
          EOpenW (PathIn outdir (output_name f_pred task suffix ".json"));
          EWriteJson (PathIn outdir (output_name f_pred task suffix ".json")) final.1].
Proof.
intros Hrun.
pose proof (get_results_known_task _ _ _ _ _ _ _ _ _ _ _ _ _ _ Hrun) as Htask.
destruct (get_results_Ok _ _ _ _ _ _ _ _ _ _ _ _ _ _ Hrun)
  as (submission & tags & w0 & w1 & outcomes & final & Hpre & Hrep & Hlast & Ht).
apply prelude_Ok in Hpre as (-> & _ & h1 & Hread & _ & Ht0).
exists tags, outcomes, final, h1. split_and!; [done | by exists w0, w1 | done |].
rewrite Ht, (reported_calls _ _ _ _ _ _ _ _ _ Hrep), Ht0 by tauto.
rewrite <- !app_assoc. by rewrite drop_app_length'.
Qed.

(** X7. The calls of a run that completes, in their order: the tagset file, if
    one was given, is read; the collaborator is made, once, with the pairs of
    columns to glue; then it is called for every stratum and every column,
    with the tagset and the cutoff 1 for the NERC tasks, and with the cutoff
    of the stratum and no tagset for NEL, even when a tagset file was read;
    then the two files are written. *)
Theorem completed_run_reads_makes_evaluates_and_writes
  f_ref f_pred task skip_check glueing_cols n_best union outdir suffix f_tagset
  noise_levels time_periods w w' :
get_results f_ref f_pred task skip_check glueing_cols n_best union outdir suffix f_tagset
  noise_levels time_periods w = (w', Ok tt) →
(is_nerc task = true ∨ (task = "nel" ∧ union = false))
∧ ∃ tags rows content,
    match tagset_file f_tagset with
    | Some f => ∃ h text, host_read_text (host w) f = (h, Ok text)
                          ∧ tags = Some (tagset_of text)
    | None => tags = None
    end
    ∧ drop (length (trace w)) (trace w')
      = match tagset_file f_tagset with Some f => [EReadText f] | None => [] end
        ++ [ENewEvaluator f_ref f_pred (glueing_pairs glueing_cols)]
        ++ (x ← task_strata task n_best noise_levels time_periods;
            if is_nerc task
            then (λ col, EEvaluate (Col col) "nerc" true 1 x.2.1 x.2.2 tags)
                   <$> set_order (if String.eqb task "nerc_fine" then FINE_COLUMNS
                                  else COARSE_COLUMNS)
            else (λ col, EEvaluate (Col col) "nel" true x.1 x.2.1 x.2.2 None)
                   <$> NEL_COLUMNS)
        ++ [EOpenW (PathIn outdir (output_name f_pred task suffix ".tsv"));
            EWriteTsv (PathIn outdir (output_name f_pred task suffix ".tsv")) fieldnames rows;
            EOpenW (PathIn outdir (output_name f_pred task suffix ".json"));
            EWriteJson (PathIn outdir (output_name f_pred task suffix ".json")) content].
Proof.
intros Hrun. split; [by eapply get_results_known_task|].
destruct (get_results_events _ _ _ _ _ _ _ _ _ _ _ _ _ _ Hrun)
  as (tags & outcomes & final & h1 & Hread & _ & _ & Ht).
exists tags, (concat (snd <$> outcomes)), final.1. split; [|exact Ht].
destruct (tagset_file f_tagset); [|tauto].
destruct Hread as (text & ? & ?). by exists h1, text.
Qed.
End CompletedRun.

Section Tables.
Context `{Host}.

Lemma get_results_outputs f_ref f_pred task skip_check glueing_cols n_best union outdir
  suffix f_tagset noise_levels time_periods w w' :
get_results f_ref f_pred task skip_check glueing_cols n_best union outdir suffix f_tagset
  noise_levels time_periods w = (w', Ok tt) →
∃ w0 w1 tags outcomes final before,
  reported task (if skip_check then f_pred else path_stem (lower f_pred)) suffix union tags
    w0 (task_strata task n_best noise_levels time_periods) outcomes w1
  ∧ last outcomes = Some final
  ∧ forallb (λ e, negb (is_output e)) before = true
  ∧ trace w'
    = trace w ++ before ++
      [EOpenW (PathIn outdir (output_name f_pred task suffix ".tsv"));
       EWriteTsv (PathIn outdir (output_name f_pred task suffix ".tsv"))
         fieldnames (concat (snd <$> outcomes));
       EOpenW (PathIn outdir (output_name f_pred task suffix ".json"));
       EWriteJson (PathIn outdir (output_name f_pred task suffix ".json")) final.1].
Proof.
intros Hrun.
destruct (get_results_Ok _ _ _ _ _ _ _ _ _ _ _ _ _ _ Hrun)
  as (submission & tags & w0 & w1 & outcomes & final & Hpre & Hrep & Hlast & Ht).
destruct (prelude_trace _ _ _ _ _ _ _ _ Hpre) as (evs0 & Ht0 & Hevs0).
destruct (reported_trace _ _ _ _ _ _ _ _ _ Hrep) as (evs1 & Ht1 & Hevs1).
apply prelude_Ok in Hpre as (-> & _).
exists w0, w1, tags, outcomes, final, (evs0 ++ evs1). split_and!; [done | done | |].
- apply forallb_app_true.
  + revert Hevs0. apply forallb_weaken. by intros e [? _]%andb_prop.
  + revert Hevs1. apply forallb_weaken. by intros [].
- by rewrite Ht, Ht1, Ht0, <- !app_assoc.
Qed.

Lemma get_results_table f_ref f_pred task skip_check glueing_cols n_best union outdir
  suffix f_tagset noise_levels time_periods w w' p names rows :
get_results f_ref f_pred task skip_check glueing_cols n_best union outdir suffix f_tagset
  noise_levels time_periods w = (w', Ok tt) →
EWriteTsv p names rows ∈ drop (length (trace w)) (trace w') →
∃ w0 w1 tags outcomes,
  reported task (if skip_check then f_pred else path_stem (lower f_pred)) suffix union tags
    w0 (task_strata task n_best noise_levels time_periods) outcomes w1
  ∧ rows = concat (snd <$> outcomes).
Proof.
intros Hrun Hev.
destruct (get_results_outputs _ _ _ _ _ _ _ _ _ _ _ _ _ _ Hrun)
  as (w0 & w1 & tags & outcomes & final & before & Hrep & _ & Hbefore & Ht).
exists w0, w1, tags, outcomes. split; [done|].
rewrite Ht, drop_app_length' in Hev. apply elem_of_app in Hev as [Hev|Hev].
{ by apply (forallb_elem_of _ _ _ Hbefore) in Hev. }
apply elem_of_cons in Hev as [[=]|Hev].
apply elem_of_cons in Hev as [[= _ _ ->]|Hev]; [done|].
apply elem_of_cons in Hev as [[=]|Hev].
apply elem_of_cons in Hev as [[=]|Hev].
by apply elem_of_nil in Hev.
Qed.

(** X8. The [System] field of the rows of a table: the stem of the name of the
    prediction file, in lower case, when the name was checked; with
    [skip_check], the path of the prediction file as it was given. *)
Theorem rows_name_the_stem_or_the_path_as_given
  f_ref f_pred task skip_check glueing_cols n_best union outdir suffix f_tagset
  noise_levels time_periods w w' p names rows row :
get_results f_ref f_pred task skip_check glueing_cols n_best union outdir suffix f_tagset
  noise_levels time_periods w = (w', Ok tt) →
EWriteTsv p names rows ∈ drop (length (trace w)) (trace w') → row ∈ rows →
get "System" row = Some (VStr (if skip_check then f_pred else path_stem (lower f_pred))).
Proof.
intros Hrun Hev Hrow.
destruct (get_results_table _ _ _ _ _ _ _ _ _ _ _ _ _ _ _ _ _ Hrun Hev)
  as (w0 & w1 & tags & outcomes & Hrep & ->).
apply elem_of_concat in Hrow as (l & Hl & Hrow).
apply list_elem_of_fmap in Hl as (o & -> & Ho).
destruct (reported_elem_of _ _ _ _ _ _ _ _ _ _ Hrep Ho)
  as (x & out & wa & wb & _ & _ & Hout & Ho2).
rewrite Ho2 in Hrow. unfold stratum_report in Hout.
destruct (is_nerc task);
  destruct (assemble_tsv_output_elem_of _ _ _ _ _ _ _ Hout Hrow)
    as (col & aggr & regime & tag & by_tag & _ & _ & _ & _ & _ & Hres);
  apply tag_results_Ok in Hres as (pv & rv & f1 & counts & stds & _ & ->);
  apply row_of_metrics.
Qed.

Lemma reported_tags_without_ALL (l : list string) :
"ALL" ∉ l → filter (λ tag, true && negb (String.eqb tag "ALL") = false) l = [].
Proof.
induction l as [|y l IH]; [done|]. intros [Hy Hl]%not_elem_of_cons.
rewrite filter_cons_False, IH; [done | done |].
simpl. destruct (String.eqb_spec y "ALL"); [congruence | done].
Qed.

Lemma reported_tags_only_ALL (by_tag : per_tag) :
NoDup (keys by_tag) → "ALL" ∈ keys by_tag → reported_tags true by_tag = ["ALL"].
Proof.
intros Hnd Hin. unfold reported_tags.
assert (NoDup (sorted (keys by_tag))) as Hnd' by (by rewrite sorted_Permutation).
assert ("ALL" ∈ sorted (keys by_tag)) as Hin' by (by apply elem_of_sorted).
induction (sorted (keys by_tag)) as [|y l IH]; [by apply elem_of_nil in Hin'|].
apply NoDup_cons in Hnd' as [Hy Hl].
destruct (String.eqb_spec y "ALL") as [->|Hne].
- rewrite filter_cons_True by done. by rewrite reported_tags_without_ALL.
- rewrite filter_cons_False.
  + apply IH; [done|]. apply elem_of_cons in Hin' as [?|?]; [congruence | done].
  + simpl. destruct (String.eqb_spec y "ALL"); [congruence | done].
Qed.

(** X9. The table of the NEL task, against a collaborator whose bundles per tag
    are dictionaries, with distinct keys: for every combination of a cutoff, a
    noise level and a time period it has the four rows of the two columns and
    the two aggregations, all of the regime [fuzzy] and of the tag [ALL]. *)
Theorem nel_table_has_four_ALL_rows_for_every_stratum
  f_ref f_pred skip_check glueing_cols n_best union outdir suffix f_tagset
  noise_levels time_periods w w' p names rows :
(∀ h col eval_type merge_lines n noise time tags h' answer,
   host_evaluate h col eval_type merge_lines n noise time tags = (h', Ok answer) →
   NoDup (keys answer.2)) →
get_results f_ref f_pred "nel" skip_check glueing_cols n_best union outdir suffix f_tagset
  noise_levels time_periods w = (w', Ok tt) →
EWriteTsv p names rows ∈ drop (length (trace w)) (trace w') →
length rows = (4 * (length n_best * (length noise_levels * length time_periods)))%nat
∧ ∀ row, row ∈ rows →
    get "Label" row = Some (VStr "ALL")
    ∧ ∃ col aggr label,
        col ∈ NEL_COLUMNS ∧ aggr ∈ aggregations
        ∧ get "Evaluation" row = Some (VStr (col +:+ "-" +:+ aggr +:+ "-fuzzy-" +:+ label)).
Proof.
intros Hdict Hrun Hev.
destruct (get_results_known_task _ _ _ _ _ _ _ _ _ _ _ _ _ _ Hrun) as [?|[_ ->]]; [done|].
destruct (get_results_table _ _ _ _ _ _ _ _ _ _ _ _ _ _ _ _ _ Hrun Hev)
  as (w0 & w1 & tags & outcomes & Hrep & ->).
assert (Forall (λ o : stats * list row,
          length o.2 = 4%nat
          ∧ ∀ row, row ∈ o.2 →
              get "Label" row = Some (VStr "ALL")
              ∧ ∃ col aggr label,
                  col ∈ NEL_COLUMNS ∧ aggr ∈ aggregations
                  ∧ get "Evaluation" row
                    = Some (VStr (col +:+ "-" +:+ aggr +:+ "-fuzzy-" +:+ label))) outcomes)
  as Hall.
{ apply Forall_forall. intros o Ho.
  destruct (reported_elem_of _ _ _ _ _ _ _ _ _ _ Hrep Ho)
    as (x & out & wa & wb & _ & Hw & Hout & ->).
  unfold stratum_wrapper in Hw. unfold stratum_report in Hout.
  change (is_nerc "nel") with false in Hw, Hout. cbv iota in Hw, Hout.
  assert (NoDup NEL_COLUMNS) as Hnd by (apply (bool_decide_unpack _); vm_compute; exact I).
  destruct (evaluation_wrapper_columns _ _ _ _ _ _ _ _ _ Hnd Hw) as [Hkeys Hcols].
  assert (∀ col, col ∈ NEL_COLUMNS →
            reported_tags true (default [] (get col o.1)) = ["ALL"]) as Htags.
  { intros col Hcol. destruct (Hcols col Hcol) as (answer & ha & hb & Hcall & ->). simpl.
    apply reported_tags_only_ALL.
    - apply NoDup_keys_set. by eapply Hdict.
    - eapply get_Some_keys, get_set_eq. }
  split.
  - destruct (assemble_tsv_output_index _ _ _ _ _ _ Hout) as [_ Hindex].
    rewrite <- (length_fmap row_index), Hindex. unfold report_index. rewrite Hkeys.
    change (sorted NEL_COLUMNS) with ["NEL-LIT"; "NEL-METO"]. cbn [fmap list_fmap].
    rewrite !Htags by (apply (bool_decide_unpack _); vm_compute; exact I). done.
  - intros row Hrow.
    destruct (assemble_tsv_output_elem_of _ _ _ _ _ _ _ Hout Hrow)
      as (col & aggr & regime & tag & by_tag & Hcol & Haggr & Hregime & Hget & Htag & Hres).
    rewrite Hkeys in Hcol.
    apply elem_of_reported_tags in Htag as [_ Htag]. specialize (Htag eq_refl) as ->.
    apply list_elem_of_singleton in Hregime as ->.
    apply tag_results_Ok in Hres as (pv & rv & f1 & counts & stds & _ & ->).
    match goal with
    | |- context [row_of ?s ?l ?t ?a ?b ?c ?d ?e] =>
        destruct (row_of_metrics s l t a b c d e) as (_ & HE & HL & _)
    end.
    split; [exact HL|].
    exists col, aggr, (stratum_label "nel" suffix false x). split_and!; [done | done |].
    rewrite HE. unfold evaluation_label. by rewrite stratum_label_truthy. }
split.
- apply reported_length in Hrep. unfold task_strata in Hrep.
  change (is_nerc "nel") with false in Hrep. cbv iota in Hrep.
  assert (length outcomes
          = (length n_best * (length noise_levels * length time_periods))%nat) as <-.
  { rewrite Hrep. etrans; [apply List.length_prod|]. f_equal. apply List.length_prod. }
  clear Hrep Hev.
  induction Hall as [|o outcomes [Ho _] _ IH]; [done|].
  rewrite fmap_cons. simpl. rewrite length_app, IH, Ho. lia.
- intros row (l & Hl & Hrow)%elem_of_concat.
  apply list_elem_of_fmap in Hl as (o & -> & Ho).
  by apply (proj1 (Forall_forall _ _) Hall o Ho).
Qed.
End Tables.

(** ** Runs without a stratum, and names without [.tsv] *)

Section EdgeRuns.
Context `{Host}.

(** X10. When the task is none of the three, or a list of strata is empty, no
    iteration assigns [fieldnames]: once the collaborator is made, the table
    is opened for writing, which empties it, and the run ends there on an
    [UnboundLocalError]. Nothing is written and the JSON file is not
    opened. *)
Theorem run_without_a_stratum_empties_the_table
  f_ref f_pred task skip_check glueing_cols n_best union outdir suffix f_tagset
  noise_levels time_periods w w0 p h :
(is_nerc task = false ∧ task ≠ "nel")
∨ task_strata task n_best noise_levels time_periods = [] →
prelude f_ref f_pred skip_check glueing_cols f_tagset w = (w0, Ok p) →
host_open_w (host w0) (PathIn outdir (output_name f_pred task suffix ".tsv")) = (h, Ok tt) →
get_results f_ref f_pred task skip_check glueing_cols n_best union outdir suffix f_tagset
  noise_levels time_periods w
= (mkWorld (trace w0 ++ [EOpenW (PathIn outdir (output_name f_pred task suffix ".tsv"))]) h,
   Raise (UnboundLocalError "fieldnames")).
Proof.
intros Hnone Hpre Hopen. rewrite get_results_prelude. erewrite bind_step by done.
assert (∃ rows, evaluate_strata task p.1 suffix p.2 n_best union noise_levels time_periods w0
                = (w0, Ok (mkLocals rows None None))) as [rows Hloop].
{ destruct (is_nerc task) eqn:Hn; [|destruct (decide (task = "nel")) as [Hnel|Hnel]].
  - destruct Hnone as [[? _]|Hnil]; [done|].
    rewrite evaluate_strata_turns, Hnil by auto. by eexists.
  - destruct Hnone as [[_ ?]|Hnil]; [done|].
    rewrite evaluate_strata_turns, Hnil by auto. by eexists.
  - rewrite evaluate_strata_unknown by done. by eexists. }
erewrite bind_step by done.
unfold write_outputs, open_w, call, bind, lift. simpl. by rewrite Hopen.
Qed.

Lemma replace_absent old new s :
contains old s = false → replace old new s = s.
Proof.
unfold replace. induction s as [|c s IH]; [done|].
cbn [contains replace_go]. intros [Hp Hs]%orb_false_elim. rewrite Hp. f_equal. auto.
Qed.

(** X11. The name of an output file is made by replacing [.tsv] in the name of
    the prediction file. A name without [.tsv], or with [.TSV] in capitals,
    is left as it is: a run that completes then writes the table and the
    JSON file, one after the other, to one and the same file, named as the
    prediction file is. *)
Theorem name_without_tsv_names_both_files
  f_ref f_pred task skip_check glueing_cols n_best union outdir suffix f_tagset
  noise_levels time_periods w w' :
contains ".tsv" (path_name f_pred) = false →
get_results f_ref f_pred task skip_check glueing_cols n_best union outdir suffix f_tagset
  noise_levels time_periods w = (w', Ok tt) →
∃ rows content,
  filter (λ e, is_output e = true) (drop (length (trace w)) (trace w'))
  = [EOpenW (PathIn outdir (path_name f_pred));
     EWriteTsv (PathIn outdir (path_name f_pred)) fieldnames rows;
     EOpenW (PathIn outdir (path_name f_pred));
     EWriteJson (PathIn outdir (path_name f_pred)) content].
Proof.
intros Hname Hrun.
destruct (get_results_outputs _ _ _ _ _ _ _ _ _ _ _ _ _ _ Hrun)
  as (w0 & w1 & tags & outcomes & final & before & _ & _ & Hbefore & Ht).
exists (concat (snd <$> outcomes)), final.1.
rewrite Ht, drop_app_length', filter_app, (filter_no_output _ Hbefore).
unfold output_name. by rewrite !replace_absent.
Qed.
End EdgeRuns.

(** ** The strata that [main] makes of its arguments *)

(** The items of an argument that is a list with commas. *)
Definition items (argument : option string) : list string :=
match argument with
| Some s => if truthy s then split "," s else []
| None => []
end.

Section Arguments.
Context `{Host}.

Lemma split_not_nil sep s : split sep s ≠ [].
Proof.
destruct s as [|c s]; simpl; [done|].
destruct (ascii_eqb c sep); [done|]. by destruct (split sep s).
Qed.

Lemma rmap_length {A B} (f : A → result B) xs ys : rmap f xs = Ok ys → length ys = length xs.
Proof. intros Hm%rmap_Ok. symmetry. by eapply Forall2_length. Qed.

Lemma parse_period_Ok format period d :
parse_period format period = Ok d ↔
∃ p0 p1 rest, period = p0 :: p1 :: rest
  ∧ strptime p0 format = Some d.1 ∧ strptime p1 format = Some d.2.
Proof.
unfold parse_period. destruct period as [|p0 [|p1 rest]].
- split; [done | by intros (? & ? & ? & ? & _)].
- destruct (strptime p0 format); simpl; (split; [done | by intros (? & ? & ? & ? & _)]).
- destruct (strptime p0 format) as [a|] eqn:Ha; simpl.
  + destruct (strptime p1 format) as [b|] eqn:Hb; simpl.
    * split.
      -- intros [= <-]. by exists p0, p1, rest.
      -- intros (? & ? & ? & [= <- <- <-] & Ha' & Hb'). destruct d. simpl in *. congruence.
    * split; [done|]. intros (? & ? & ? & [= <- <- <-] & _ & Hb'). congruence.
  + split; [done|]. intros (? & ? & ? & [= <- <- <-] & Ha' & _). congruence.
Qed.

Lemma parse_period_Raise format period e :
parse_period format period = Raise e → e = ValueError ∨ e = IndexError.
Proof.
unfold parse_period. destruct period as [|p0 [|p1 rest]]; [intros [= <-]; by right | |].
- destruct (strptime p0 format); simpl; intros [= <-]; auto.
- destruct (strptime p0 format); simpl; [|intros [= <-]; auto].
  destruct (strptime p1 format); simpl; [done | intros [= <-]; auto].
Qed.

Lemma parse_n_best_Raise n_best e : parse_n_best n_best = Raise e → e = ValueError.
Proof.
unfold parse_n_best. destruct n_best as [s|]; [|done]. destruct (truthy s); [|done].
intros (item & _ & Hitem)%rmap_Raise. unfold int in Hitem.
destruct (int_of_str item); [done | by injection Hitem].
Qed.

Lemma parse_noise_levels_Raise noise e : parse_noise_levels noise = Raise e → e = ValueError.
Proof.
unfold parse_noise_levels. destruct noise as [s|]; [|done]. destruct (truthy s); [|done].
intros [Hm | (? & _ & ?)]%rbind_Raise; [|done].
apply rmap_Raise in Hm as (band & _ & Hband). unfold parse_noise_band in Hband.
destruct band as [|lower [|upper [|? ?]]]; try by injection Hband.
destruct (float_of_str lower); simpl in Hband; [|by injection Hband].
destruct (float_of_str upper); simpl in Hband; [done | by injection Hband].
Qed.

Lemma parse_time_periods_Raise time e :
parse_time_periods time = Raise e → e = ValueError ∨ e = IndexError.
Proof.
unfold parse_time_periods. destruct time as [s|]; [|done]. destruct (truthy s); [|done].
intros [Hm | (? & _ & ?)]%rbind_Raise; [|done].
destruct (rmap (parse_period "%Y") (split "-" <$> split "," s)) as [?|e'] eqn:Hy; [done|].
assert (e' = ValueError ∨ e' = IndexError) as [-> | ->].
{ apply rmap_Raise in Hy as (period & _ & Hp). by eapply parse_period_Raise. }
- apply rmap_Raise in Hm as (period & _ & Hp). by eapply parse_period_Raise.
- injection Hm as <-. by right.
Qed.

(** X12. The lists of strata that [main] passes on are never empty: the cutoffs
    are those of the argument, or 1 alone; the noise levels and the time
    periods begin with the stratum of everything, and one stratum follows
    for every item of the argument. A run from the command line has a
    stratum for every combination. *)
Theorem strata_begin_with_everything_and_follow_the_items
  n_best noise time cutoffs noise_levels time_periods :
parse_n_best n_best = Ok cutoffs →
parse_noise_levels noise = Ok noise_levels →
parse_time_periods time = Ok time_periods →
length cutoffs = (if opt_truthy n_best then length (items n_best) else 1%nat)
∧ cutoffs ≠ []
∧ head noise_levels = Some None
∧ length noise_levels = S (length (items noise))
∧ head time_periods = Some None
∧ length time_periods = S (length (items time))
∧ ∀ task,
    length (task_strata task cutoffs noise_levels time_periods)
    = ((if is_nerc task then 1 else length cutoffs)
       * (S (length (items noise)) * S (length (items time))))%nat.
Proof.
intros Hn Hnoise Htime.
assert (length cutoffs = (if opt_truthy n_best then length (items n_best) else 1%nat)
        ∧ cutoffs ≠ []) as [Hlen Hne].
{ unfold parse_n_best, items in *. destruct n_best as [s|]; simpl.
  - destruct (truthy s); [|by injection Hn as <-].
    pose proof (rmap_length _ _ _ Hn) as Hl. split; [done|].
    intros ->. simpl in Hl. pose proof (split_not_nil "," s) as Hs.
    by destruct (split "," s).
  - by injection Hn as <-. }
assert (head noise_levels = Some None ∧ length noise_levels = S (length (items noise)))
  as [Hh1 Hl1].
{ unfold parse_noise_levels, items in *. destruct noise as [s|]; [|by injection Hnoise as <-].
  destruct (truthy s); [|by injection Hnoise as <-].
  apply rbind_Ok in Hnoise as (bands & Hbands & [= <-]). split; [done|]. simpl.
  by rewrite length_fmap, (rmap_length _ _ _ Hbands), length_fmap. }
assert (head time_periods = Some None ∧ length time_periods = S (length (items time)))
  as [Hh2 Hl2].
{ unfold parse_time_periods, items in *. destruct time as [s|]; [|by injection Htime as <-].
  destruct (truthy s); [|by injection Htime as <-].
  apply rbind_Ok in Htime as (periods & Hperiods & [= <-]). split; [done|]. simpl.
  rewrite length_fmap. f_equal.
  destruct (rmap (parse_period "%Y") (split "-" <$> split "," s)) as [l|e] eqn:Hy.
  - injection Hperiods as <-. by rewrite (rmap_length _ _ _ Hy), length_fmap.
  - destruct e; try done. by rewrite (rmap_length _ _ _ Hperiods), length_fmap. }
split_and!; try done.
intros task. unfold task_strata. rewrite <- Hl1, <- Hl2. destruct (is_nerc task).
- rewrite length_fmap. etrans; [apply List.length_prod|]. lia.
- etrans; [apply List.length_prod|]. f_equal. apply List.length_prod.
Qed.

(** X13. The time periods are all read in one format: as years, or else, when a
    date is not a year, as [year/month/day]. Of a period, the first two parts
    between hyphens are read, and further parts are ignored. *)
Theorem time_periods_are_read_in_one_format s time_periods :
truthy s = true →
parse_time_periods (Some s) = Ok time_periods →
∃ format periods,
  time_periods = None :: (Some <$> periods)
  ∧ (format = "%Y"
     ∨ (format = "%Y/%m/%d"
        ∧ ∃ item, item ∈ split "," s
                  ∧ parse_period "%Y" (split "-" item) = Raise ValueError))
  ∧ Forall2 (λ item period,
       ∃ p0 p1 rest, split "-" item = p0 :: p1 :: rest
         ∧ strptime p0 format = Some period.1 ∧ strptime p1 format = Some period.2)
      (split "," s) periods.
Proof.
intros Hs. unfold parse_time_periods. rewrite Hs.
intros (periods & Hperiods & [= <-])%rbind_Ok.
assert (∀ format, rmap (parse_period format) (split "-" <$> split "," s) = Ok periods →
          Forall2 (λ item period,
            ∃ p0 p1 rest, split "-" item = p0 :: p1 :: rest
              ∧ strptime p0 format = Some period.1 ∧ strptime p1 format = Some period.2)
            (split "," s) periods) as Hread.
{ intros format Hm%rmap_Ok. apply Forall2_fmap_l in Hm.
  eapply Forall2_impl; [exact Hm|]. intros item period Hp. by apply parse_period_Ok. }
destruct (rmap (parse_period "%Y") (split "-" <$> split "," s)) as [l|e] eqn:Hy.
- exists "%Y", periods. split_and!; [done | by left |]. apply Hread. by rewrite Hy.
- destruct e; try done. exists "%Y/%m/%d", periods. split_and!; [done | | by apply Hread].
  right. split; [done|]. apply rmap_Raise in Hy as (period & Hin & Hp).
  apply list_elem_of_fmap in Hin as (item & -> & Hitem). by exists item.
Qed.
End Arguments.

(** ** How [main] ends *)

Section MainEnds.
Context `{Host}.

Lemma main_after_log args w h :
host_open_w (host w) (Path (args_f_log args)) = (h, Ok tt) →
main args w
= (try_except (check_validity_of_arguments args)
     (λ e, if is_Exception e
           then Some (emit (EPrint (exn_str e)) ;;; raise (SystemExit 1))
           else None) ;;;
   n_best <- lift (parse_n_best (args_n_best args)) ;;
   noise_levels <- lift (parse_noise_levels (args_noise_level args)) ;;
   time_periods <- lift (parse_time_periods (args_time_period args)) ;;
   try_except
     (get_results (args_f_ref args) (args_f_pred args) (args_task args)
        (args_skip_check args) (args_glueing_cols args) n_best (args_union args)
        (args_outdir args) (args_suffix args) (args_f_tagset args)
        noise_levels time_periods)
     (λ e, match e with
           | AssertionError _ => Some (emit (EPrint (exn_str e)))
           | _ => None
           end))
    (mkWorld (trace w ++ [EOpenW (Path (args_f_log args))]) h).
Proof.
intros Hopen. unfold main.
by rewrite (bind_step _ _ w (mkWorld (trace w ++ [EOpenW (Path (args_f_log args))]) h) tt)
  by (unfold open_w, call; by rewrite Hopen).
Qed.

(** X14. Arguments that do not go together end the process with status 1,
    before the strata are read: the message is logged and printed. A task
    other than [nel] with [--union] or [--n_best] is told that alternative
    annotations are for NEL only, also when both are given; [nel] with both
    is told to choose one. *)
Theorem arguments_that_do_not_go_together_end_with_1 args w h :
host_open_w (host w) (Path (args_f_log args)) = (h, Ok tt) →
(args_task args ≠ "nel" ∧ (args_union args = true ∨ opt_truthy (args_n_best args) = true))
∨ (args_union args = true ∧ opt_truthy (args_n_best args) = true) →
let msg := if String.eqb (args_task args) "nel" then invalid_schema_msg
           else invalid_alternative_msg in
main args w
= (mkWorld (trace w ++ [EOpenW (Path (args_f_log args)); ELogError msg; EPrint msg]) h,
   Raise (SystemExit 1))
∧ exit_status (main args w).2 = 1.
Proof.
intros Hopen Hinvalid msg.
assert (main args w
        = (mkWorld (trace w ++ [EOpenW (Path (args_f_log args)); ELogError msg; EPrint msg]) h,
           Raise (SystemExit 1))) as Hmain.
{ assert (∀ w1, check_validity_of_arguments args w1
                = (mkWorld (trace w1 ++ [ELogError msg]) (host w1),
                   Raise (AssertionError msg))) as Hcheck.
  { intros w1. unfold check_validity_of_arguments, bind, emit, raise. subst msg.
    destruct (String.eqb_spec (args_task args) "nel") as [Hnel|Hnel]; simpl.
    - destruct Hinvalid as [[? _] | [-> ->]]; [done | done].
    - destruct Hinvalid as [[_ [-> | ->]] | [-> ->]]; simpl; by rewrite ?orb_true_r. }
  rewrite (main_after_log _ _ _ Hopen). erewrite bind_raise_step; [done|].
  erewrite try_except_Raise by apply Hcheck.
  unfold emit, raise, bind. simpl. by rewrite <- !app_assoc. }
split; [done | by rewrite Hmain].
Qed.

(** X15. A list of cutoffs, noise levels or time periods that cannot be read
    ends the process with status 1 on a [ValueError], or on an [IndexError]
    for a time period without a hyphen: the collaborator is not made and no
    file but the log is opened. *)
Theorem strata_that_cannot_be_read_end_with_1 args w h e :
host_open_w (host w) (Path (args_f_log args)) = (h, Ok tt) →
valid_arguments args = true →
(n_best <~ parse_n_best (args_n_best args) ;;
 noise_levels <~ parse_noise_levels (args_noise_level args) ;;
 time_periods <~ parse_time_periods (args_time_period args) ;;
 Ok (n_best, noise_levels, time_periods)) = Raise e →
main args w = (mkWorld (trace w ++ [EOpenW (Path (args_f_log args))]) h, Raise e)
∧ (e = ValueError ∨ e = IndexError)
∧ exit_status (main args w).2 = 1.
Proof.
intros Hopen Hvalid Hparse.
assert (main args w = (mkWorld (trace w ++ [EOpenW (Path (args_f_log args))]) h, Raise e))
  as Hmain.
{ rewrite (main_after_log _ _ _ Hopen).
  erewrite bind_step
    by (apply try_except_Ok; rewrite check_validity_of_arguments_spec, Hvalid; done).
  apply rbind_Raise in Hparse as [Hn | (n_best & Hn & Hparse)].
  { apply bind_raise_step. unfold lift. by rewrite Hn. }
  erewrite bind_step by (unfold lift; by rewrite Hn).
  apply rbind_Raise in Hparse as [Hnoise | (noise_levels & Hnoise & Hparse)].
  { apply bind_raise_step. unfold lift. by rewrite Hnoise. }
  erewrite bind_step by (unfold lift; by rewrite Hnoise).
  apply rbind_Raise in Hparse as [Htime | (time_periods & _ & ?)]; [|done].
  apply bind_raise_step. unfold lift. by rewrite Htime. }
assert (e = ValueError ∨ e = IndexError) as He.
{ apply rbind_Raise in Hparse as [Hn | (n_best & _ & Hparse)].
  { left. by eapply parse_n_best_Raise. }
  apply rbind_Raise in Hparse as [Hnoise | (noise_levels & _ & Hparse)].
  { left. by eapply parse_noise_levels_Raise. }
  apply rbind_Raise in Hparse as [Htime | (time_periods & _ & ?)]; [|done].
  by eapply parse_time_periods_Raise. }
split_and!; [done | done |]. rewrite Hmain. by destruct He as [-> | ->].
Qed.

(** X16. What [get_results] raises reaches the end of [main], but for an
    [AssertionError], whatever its origin: that one is printed, and the
    process ends with status 0 as after a run that completes. Any other
    exception ends the process as it is. *)
Theorem main_prints_an_AssertionError_and_passes_on_the_rest
  args w h n_best noise_levels time_periods w' e :
host_open_w (host w) (Path (args_f_log args)) = (h, Ok tt) →
valid_arguments args = true →
parse_n_best (args_n_best args) = Ok n_best →
parse_noise_levels (args_noise_level args) = Ok noise_levels →
parse_time_periods (args_time_period args) = Ok time_periods →
get_results (args_f_ref args) (args_f_pred args) (args_task args)
  (args_skip_check args) (args_glueing_cols args) n_best (args_union args)
  (args_outdir args) (args_suffix args) (args_f_tagset args) noise_levels time_periods
  (mkWorld (trace w ++ [EOpenW (Path (args_f_log args))]) h) = (w', Raise e) →
main args w
= match e with
  | AssertionError msg => (mkWorld (trace w' ++ [EPrint msg]) (host w'), Ok tt)
  | _ => (w', Raise e)
  end
∧ exit_status (main args w).2
  = match e with
    | AssertionError _ => 0
    | SystemExit code => code
    | _ => 1
    end.
Proof.
intros Hopen Hvalid Hn Hnoise Htime Hrun.
assert (main args w
        = match e with
          | AssertionError msg => (mkWorld (trace w' ++ [EPrint msg]) (host w'), Ok tt)
          | _ => (w', Raise e)
          end) as Hmain.
{ rewrite (main_after_log _ _ _ Hopen).
  erewrite bind_step
    by (apply try_except_Ok; rewrite check_validity_of_arguments_spec, Hvalid; done).
  erewrite bind_step by (unfold lift; by rewrite Hn).
  erewrite bind_step by (unfold lift; by rewrite Hnoise).
  erewrite bind_step by (unfold lift; by rewrite Htime).
  erewrite try_except_Raise by done. by destruct e. }
split; [done|]. rewrite Hmain. by destruct e.
Qed.
End MainEnds.

(** ** The names that [enforce_filename] accepts *)

Section AcceptedNames.
Context `{Host}.

(** X17. A name is accepted exactly when, in lower case, it ends in [.tsv] and
    its stem has four parts between underscores, of which the third is a
    language and the second reads, once the leading characters among those
    of the word [bundle] are taken off, as a number from 1 to 5. Then the
    stem in lower case and the language are returned and nothing is logged;
    else the message with the name as it was given is logged and raised. *)
Theorem name_is_accepted_by_its_parts_in_lower_case fname w :
(∀ r, enforce_filename fname w = (w, Ok r) ↔
      r.1 = path_stem (lower fname)
      ∧ path_suffix (lower fname) = ".tsv"
      ∧ r.2 ∈ ["de"; "fr"; "en"]
      ∧ ∃ team part run n,
          split "_" (path_stem (lower fname)) = [team; part; r.2; run]
          ∧ int_of_str (lstrip "bundle" part) = Some n ∧ 1 ≤ n < 6)
∧ ((∀ r, enforce_filename fname w ≠ (w, Ok r)) →
   enforce_filename fname w
   = (mkWorld (trace w ++ [ELogError (enforce_filename_msg fname)]) (host w),
      Raise (AssertionError (enforce_filename_msg fname)))).
Proof.
rewrite enforce_filename_spec. split.
- intros [submission lang]. simpl. split.
  + destruct (enforce_filename_try fname) as [r|e] eqn:Htry; [|intros [=]].
    intros [= ->].
    apply enforce_filename_try_Ok in Htry
      as (-> & ? & ? & team & part & run & n & ? & ? & ?).
    split_and!; [done | done | done |]. by exists team, part, run, n.
  + intros (-> & Hsuf & Hlang & team & part & run & n & Hsplit & Hint & Hn).
    assert (enforce_filename_try fname = Ok (path_stem (lower fname), lang)) as ->; [|done].
    apply enforce_filename_try_Ok. split_and!; [done | done | done |].
    by exists team, part, run, n.
- intros Hno. destruct (enforce_filename_try fname) as [r|e]; [|done].
  by destruct (Hno r).
Qed.
End AcceptedNames.

(** ** The directory of the prediction file *)

Section Directories.
Context `{Host}.

Lemma split_app sep s1 s2 :
split sep (s1 +:+ String sep s2) = split sep s1 ++ split sep s2.
Proof.
induction s1 as [|c s1 IH]; [rewrite app_Empty; simpl|rewrite app_String; simpl].
- unfold ascii_eqb. by rewrite bool_decide_eq_true_2.
- destruct (ascii_eqb c sep); [by rewrite IH|]. rewrite IH.
  destruct (split sep s1) as [|w ws] eqn:Hs; [by apply split_not_nil in Hs | done].
Qed.

Lemma slash_prefix c s : String.prefix "/" (String c s) = ascii_eqb c "/".
Proof.
unfold ascii_eqb. cbn [String.prefix]. destruct (ascii_dec "/" c) as [<-|Hne].
- rewrite bool_decide_eq_true_2 by done. by destruct s.
- by rewrite bool_decide_eq_false_2 by congruence.
Qed.

Lemma split_no_slash s : contains "/" s = false → split "/" s = [s].
Proof.
induction s as [|c s IH]; [done|]. cbn [contains]. rewrite slash_prefix.
intros [Hc Hs]%orb_false_elim. simpl. rewrite Hc, IH; done.
Qed.

Lemma path_name_in_directory dir name :
contains "/" name = false → name ≠ EmptyString → name ≠ "." →
path_name (dir +:+ "/" +:+ name) = name.
Proof.
intros Hslash Hne Hdot. unfold path_name, path_parts.
change ("/" +:+ name) with (String "/" name).
rewrite split_app, (split_no_slash name), filter_app by done.
rewrite filter_cons_True by done. rewrite filter_nil, last_snoc. done.
Qed.

Lemma path_name_alone name :
contains "/" name = false → name ≠ EmptyString → name ≠ "." → path_name name = name.
Proof.
intros Hslash Hne Hdot. unfold path_name, path_parts.
rewrite split_no_slash by done. by rewrite filter_cons_True by done.
Qed.

Lemma map_chars_app f s t : map_chars f (s +:+ t) = map_chars f s +:+ map_chars f t.
Proof.
induction s as [|c s IH]; [by rewrite !app_Empty|]. simpl. rewrite !app_String. simpl.
by rewrite IH.
Qed.

Lemma lower_char_slash (c : ascii) : lower_char c = "/"%char ↔ c = "/"%char.
Proof. destruct c as [[] [] [] [] [] [] [] []]; vm_compute; split; congruence. Qed.

Lemma lower_char_dot (c : ascii) : lower_char c = "."%char ↔ c = "."%char.
Proof. destruct c as [[] [] [] [] [] [] [] []]; vm_compute; split; congruence. Qed.

Lemma lower_no_slash s : contains "/" s = false → contains "/" (lower s) = false.
Proof.
induction s as [|c s IH]; [done|]. unfold lower. cbn [contains map_chars].
rewrite !slash_prefix. intros [Hc Hs]%orb_false_elim. fold (lower s). rewrite IH by done.
rewrite orb_false_r. unfold ascii_eqb in *. apply bool_decide_eq_false in Hc.
apply bool_decide_eq_false. by rewrite lower_char_slash.
Qed.

Lemma lower_not_dot s : s ≠ EmptyString → s ≠ "." → lower s ≠ EmptyString ∧ lower s ≠ ".".
Proof.
intros Hne Hdot. destruct s as [|c s]; [done|]. split; [done|].
unfold lower. simpl. intros [= Hc Hs]. destruct s; [|done].
apply (proj1 (lower_char_dot c)) in Hc. subst c. by apply Hdot.
Qed.

(** X18. Of the path of the prediction file, the directory does not count
    in the check of the name: a path is accepted exactly when its last
    component is, with the same result. A rejection logs and raises the
    message with the path as it was given, the directory included. The names
    of the output files are made from the last component alone. *)
Theorem only_the_name_of_the_file_counts dir name w :
contains "/" name = false → name ≠ EmptyString → name ≠ "." →
(∀ r, enforce_filename (dir +:+ "/" +:+ name) w = (w, Ok r)
      ↔ enforce_filename name w = (w, Ok r))
∧ ((∀ r, enforce_filename name w ≠ (w, Ok r)) →
   enforce_filename (dir +:+ "/" +:+ name) w
   = (mkWorld (trace w ++ [ELogError (enforce_filename_msg (dir +:+ "/" +:+ name))]) (host w),
      Raise (AssertionError (enforce_filename_msg (dir +:+ "/" +:+ name))))
   ∧ enforce_filename name w
     = (mkWorld (trace w ++ [ELogError (enforce_filename_msg name)]) (host w),
        Raise (AssertionError (enforce_filename_msg name))))
∧ ∀ task suffix extension,
    output_name (dir +:+ "/" +:+ name) task suffix extension
    = output_name name task suffix extension.
Proof.
intros Hslash Hne Hdot.
destruct (lower_not_dot name Hne Hdot) as [Hne' Hdot'].
pose proof (lower_no_slash name Hslash) as Hslash'.
assert (path_name (lower (dir +:+ "/" +:+ name)) = path_name (lower name)) as Hlower.
{ unfold lower. rewrite !map_chars_app. fold (lower dir) (lower name).
  change (map_chars lower_char "/") with "/".
  by rewrite path_name_in_directory, path_name_alone. }
assert (enforce_filename_try (dir +:+ "/" +:+ name) = enforce_filename_try name) as Htry.
{ unfold enforce_filename_try, path_stem, path_suffix. by rewrite Hlower. }
split_and!.
- intros r. rewrite !enforce_filename_spec, Htry.
  destruct (enforce_filename_try name) as [r'|e]; [done|]. by split.
- intros Hno. rewrite !enforce_filename_spec, Htry.
  rewrite enforce_filename_spec in Hno.
  destruct (enforce_filename_try name) as [r|e]; [|done]. by destruct (Hno r).
- intros task suffix extension. unfold output_name.
  by rewrite path_name_in_directory, path_name_alone.
Qed.
End Directories.

(** ** A run against a host that does not fail *)

Section CooperativeMain.
Context `{Host}.

Lemma complete_fuzzy (eval_stats : stats) :
complete ["fuzzy"; "strict"] eval_stats = true → complete ["fuzzy"] eval_stats = true.
Proof.
unfold complete, complete_per_tag, complete_bundle.
apply forallb_weaken. intros [col by_tag]. apply forallb_weaken. intros [tag b]. simpl.
intros [-> _]%andb_prop. done.
Qed.

Lemma cooperative_reported_known task submission suffix union tags xs w :
cooperative → is_nerc task = true ∨ union = false →
∃ outcomes w', reported task submission suffix union tags w xs outcomes w'.
Proof.
intros Hco Htask. revert w. induction xs as [|x xs IH]; intros w.
- exists [], w. constructor.
- assert (∃ w1 st rows,
            stratum_wrapper task union tags x w = (w1, Ok st)
            ∧ stratum_report task submission suffix union x st = Ok (fieldnames, rows))
    as (w1 & st & rows & Hw & Hout).
  { unfold stratum_wrapper, stratum_report. destruct (is_nerc task).
    - destruct (cooperative_evaluation_wrapper
                  (set_order (if String.eqb task "nerc_fine" then FINE_COLUMNS
                              else COARSE_COLUMNS))
                  "nerc" 1 x.2.1 x.2.2 tags w Hco) as (w1 & st & Hw & Hc).
      destruct (complete_assemble_tsv_output submission _ _ false
                  (stratum_label task suffix union x) Hc) as [rows Hrows].
      by exists w1, st, rows.
    - destruct Htask as [?| ->]; [done|].
      destruct (cooperative_evaluation_wrapper NEL_COLUMNS "nel" x.1 x.2.1 x.2.2 None w Hco)
        as (w1 & st & Hw & Hc).
      destruct (complete_assemble_tsv_output submission _ _ true
                  (stratum_label task suffix false x) (complete_fuzzy _ Hc)) as [rows Hrows].
      by exists w1, st, rows. }
  destruct (IH w1) as (outcomes & w' & Hrest).
  exists ((st, rows) :: outcomes), w'.
  by apply (reported_cons _ _ _ _ _ w x xs st (fieldnames, rows) w1).
Qed.

Lemma cooperative_get_results_known f_ref f_pred task skip_check glueing_cols n_best union
  outdir suffix f_tagset noise_levels time_periods w :
cooperative → is_nerc task = true ∨ (task = "nel" ∧ union = false) →
skip_check = true ∨ is_ok (enforce_filename_try f_pred) = true →
task_strata task n_best noise_levels time_periods ≠ [] →
∃ w', get_results f_ref f_pred task skip_check glueing_cols n_best union outdir suffix
        f_tagset noise_levels time_periods w = (w', Ok tt).
Proof.
intros Hco Htask Hname Hstrata.
destruct (cooperative_prelude f_ref f_pred skip_check glueing_cols f_tagset w Hco Hname)
  as (w0 & [submission tags] & Hpre).
destruct (cooperative_reported_known task submission suffix union tags
            (task_strata task n_best noise_levels time_periods) w0 Hco)
  as (outcomes & w1 & Hrep); [tauto|].
assert (outcomes ≠ []) as Hne.
{ apply reported_length in Hrep. intros ->.
  by destruct (task_strata task n_best noise_levels time_periods). }
rewrite get_results_prelude, (bind_step _ _ _ _ _ Hpre). simpl.
assert (evaluate_strata task submission suffix tags n_best union noise_levels time_periods w0
        = (w1, Ok (after_strata (mkLocals (Some []) None None) [] outcomes))) as Hloop.
{ rewrite evaluate_strata_turns by tauto. apply for_each_Ok.
  apply (turns_reported _ _ _ _ _ _ _ []); [done|]. by exists outcomes. }
rewrite (bind_step _ _ _ _ _ Hloop).
destruct Hco as (_ & _ & _ & Hopen).
pose proof (Hopen (host w1) (PathIn outdir (output_name f_pred task suffix ".tsv"))) as Ho1.
destruct (host_open_w (host w1) (PathIn outdir (output_name f_pred task suffix ".tsv")))
  as [h1 r1] eqn:E1. simpl in Ho1. subst r1.
pose proof (Hopen h1 (PathIn outdir (output_name f_pred task suffix ".json"))) as Ho2.
destruct (host_open_w h1 (PathIn outdir (output_name f_pred task suffix ".json")))
  as [h2 r2] eqn:E2. simpl in Ho2. subst r2.
destruct (last outcomes) as [final|] eqn:Hlast; [|by apply last_None in Hlast].
eexists. apply write_outputs_Ok.
exists fieldnames, (concat (snd <$> outcomes)), final.1, h1, h2.
unfold after_strata. simpl. rewrite Hlast. split_and!; try done.
by destruct outcomes.
Qed.

(** X19. Against a host that does not fail, a command line for one of the three
    tasks, without [--union] and with cutoffs for NEL only, whose strata can
    be read and whose file name is accepted or not checked, runs to its end:
    the process ends with status 0, and the last things it did are the
    writing of the table and of the JSON file. *)
Theorem main_completes_against_a_host_that_does_not_fail args w :
cooperative →
args_task args ∈ ["nerc_fine"; "nerc_coarse"; "nel"] →
args_union args = false →
args_task args = "nel" ∨ opt_truthy (args_n_best args) = false →
args_skip_check args = true ∨ is_ok (enforce_filename_try (args_f_pred args)) = true →
is_ok (parse_n_best (args_n_best args)) = true →
is_ok (parse_noise_levels (args_noise_level args)) = true →
is_ok (parse_time_periods (args_time_period args)) = true →
let f_tsv := PathIn (args_outdir args)
               (output_name (args_f_pred args) (args_task args) (args_suffix args) ".tsv") in
let f_json := PathIn (args_outdir args)
                (output_name (args_f_pred args) (args_task args) (args_suffix args) ".json") in
exit_status (main args w).2 = 0
∧ ∃ w' before rows content,
    main args w = (w', Ok tt)
    ∧ trace w'
      = trace w ++ EOpenW (Path (args_f_log args)) :: before
        ++ [EOpenW f_tsv; EWriteTsv f_tsv fieldnames rows;
            EOpenW f_json; EWriteJson f_json content]
    ∧ forallb (λ e, negb (is_output e)) before = true.
Proof.
intros Hco Htask Hunion Hcut Hname [n_best Hn]%is_ok_Ok [noise_levels Hnoise]%is_ok_Ok
  [time_periods Htime]%is_ok_Ok f_tsv f_json.
assert (valid_arguments args = true) as Hvalid.
{ unfold valid_arguments. rewrite Hunion. simpl.
  destruct Hcut as [-> | ->]; [done | by rewrite andb_false_r]. }
assert (is_nerc (args_task args) = true ∨ (args_task args = "nel" ∧ args_union args = false))
  as Hknown.
{ unfold is_nerc.
  apply elem_of_cons in Htask as [->|Htask]; [by left|].
  apply elem_of_cons in Htask as [->|Htask]; [by left|].
  apply elem_of_cons in Htask as [->|Htask]; [by right|]. by apply elem_of_nil in Htask. }
assert (task_strata (args_task args) n_best noise_levels time_periods ≠ []) as Hstrata.
{ assert (n_best ≠ []) as Hn1.
  { unfold parse_n_best in Hn. destruct (args_n_best args) as [s|]; [|by injection Hn as <-].
    destruct (truthy s); [|by injection Hn as <-].
    apply rmap_length in Hn. intros ->. simpl in Hn.
    pose proof (split_not_nil "," s). by destruct (split "," s). }
  assert (∃ l, noise_levels = None :: l) as [l1 ->].
  { unfold parse_noise_levels in Hnoise.
    destruct (args_noise_level args) as [s|]; [|injection Hnoise as <-; eauto].
    destruct (truthy s); [|injection Hnoise as <-; eauto].
    apply rbind_Ok in Hnoise as (? & _ & [= <-]). eauto. }
  assert (∃ l, time_periods = None :: l) as [l2 ->].
  { unfold parse_time_periods in Htime.
    destruct (args_time_period args) as [s|]; [|injection Htime as <-; eauto].
    destruct (truthy s); [|injection Htime as <-; eauto].
    apply rbind_Ok in Htime as (? & _ & [= <-]). eauto. }
  unfold task_strata. destruct (is_nerc (args_task args)); [done|]. by destruct n_best. }
destruct (host_open_w (host w) (Path (args_f_log args))) as [h r] eqn:Hopen.
assert (r = Ok tt) as ->.
{ destruct Hco as (_ & _ & _ & Ho). specialize (Ho (host w) (Path (args_f_log args))).
  by rewrite Hopen in Ho. }
destruct (cooperative_get_results_known (args_f_ref args) (args_f_pred args) (args_task args)
            (args_skip_check args) (args_glueing_cols args) n_best (args_union args)
            (args_outdir args) (args_suffix args) (args_f_tagset args) noise_levels
            time_periods (mkWorld (trace w ++ [EOpenW (Path (args_f_log args))]) h)
            Hco Hknown Hname Hstrata) as [w' Hrun].
assert (main args w = (w', Ok tt)) as Hmain.
{ rewrite (main_after_log _ _ _ Hopen).
  erewrite bind_step
    by (apply try_except_Ok; rewrite check_validity_of_arguments_spec, Hvalid; done).
  erewrite bind_step by (unfold lift; by rewrite Hn).
  erewrite bind_step by (unfold lift; by rewrite Hnoise).
  erewrite bind_step by (unfold lift; by rewrite Htime).
  by apply try_except_Ok. }
split; [by rewrite Hmain|].
destruct (get_results_outputs _ _ _ _ _ _ _ _ _ _ _ _ _ _ Hrun)
  as (w0 & w1 & tags & outcomes & final & before & _ & _ & Hbefore & Ht).
exists w', before, (concat (snd <$> outcomes)), final.1. split_and!; [done | | done].
rewrite Ht. simpl. by rewrite <- app_assoc.
Qed.
End CooperativeMain.

(** ** The order in which the columns are evaluated *)

Section ColumnOrder.
Context `{Host}.

Lemma dict_equiv_refl {V} (R : relation V) (d : dict V) :
(∀ v, R v v) → dict_equiv R d d.
Proof. intros HR k. destruct (get k d); by constructor. Qed.

Lemma same_stats_assemble submission (s1 s2 : stats) regimes only_aggregated suffix :
distinct_keys s1 → distinct_keys s2 → same_stats s1 s2 →
assemble_tsv_output submission s1 regimes only_aggregated suffix
= assemble_tsv_output submission s2 regimes only_aggregated suffix.
Proof.
intros Hd1 Hd2 Hs. rewrite !assemble_tsv_output_spec.
assert (sorted (keys s1) = sorted (keys s2)) as ->.
{ apply sorted_perm_eq. apply (dict_equiv_keys _ _ _ (proj1 Hd1) (proj1 Hd2) Hs). }
f_equal. apply rconcat_ext. intros col _. apply rconcat_ext. intros aggr _.
apply rconcat_ext. intros regime _. by apply same_stats_group_rows.
Qed.

Lemma elem_of_get {V} k (v : V) (d : dict V) : NoDup (keys d) → (k, v) ∈ d → get k d = Some v.
Proof.
induction d as [|[k' v'] d IH]; [by intros _ ?%elem_of_nil|].
intros [Hk Hd]%NoDup_cons [[= -> ->]|Hin]%elem_of_cons; simpl.
- by rewrite String.eqb_refl.
- destruct (String.eqb_spec k k') as [->|]; [|by apply IH].
  destruct Hk. apply list_elem_of_fmap. by exists (k', v).
Qed.

(** X20. The table does not depend on the order in which the columns are
    evaluated, which for the NERC tasks is the order of a set: against a
    collaborator whose answer for a column does not depend on the calls made
    before, and whose bundles per tag are dictionaries, two orders of the same
    columns give bundles with the same content and the same report, row for
    row. *)
Theorem report_does_not_depend_on_the_order_of_the_columns
  cols1 cols2 eval_type n_best noise time tags w1 w1' w2 w2' (s1 s2 : stats)
  submission regimes only_aggregated suffix :
(∀ h h' col, (host_evaluate h col eval_type true n_best noise time tags).2
             = (host_evaluate h' col eval_type true n_best noise time tags).2) →
(∀ h col h' answer,
   host_evaluate h col eval_type true n_best noise time tags = (h', Ok answer) →
   NoDup (keys answer.2)) →
NoDup cols1 → cols1 ≡ₚ cols2 →
evaluation_wrapper (Col <$> cols1) eval_type n_best noise time tags w1 = (w1', Ok s1) →
evaluation_wrapper (Col <$> cols2) eval_type n_best noise time tags w2 = (w2', Ok s2) →
(∀ col, get col s1 = get col s2)
∧ assemble_tsv_output submission s1 regimes only_aggregated suffix
  = assemble_tsv_output submission s2 regimes only_aggregated suffix.
Proof.
intros Hsteady Hdict Hnd1 Hperm Hw1 Hw2.
assert (NoDup cols2) as Hnd2 by (by rewrite <- Hperm).
destruct (evaluation_wrapper_columns _ _ _ _ _ _ _ _ _ Hnd1 Hw1) as [Hk1 Hc1].
destruct (evaluation_wrapper_columns _ _ _ _ _ _ _ _ _ Hnd2 Hw2) as [Hk2 Hc2].
assert (∀ col, get col s1 = get col s2) as Hget.
{ intros col. destruct (decide (col ∈ cols1)) as [Hin|Hnin].
  - destruct (Hc1 col Hin) as (a1 & ha1 & hb1 & He1 & ->).
    destruct (Hc2 col) as (a2 & ha2 & hb2 & He2 & ->); [by rewrite <- Hperm|].
    pose proof (Hsteady ha1 ha2 (Col col)) as Hs. rewrite He1, He2 in Hs.
    by injection Hs as ->.
  - assert (get col s1 = None) as -> by (apply get_None_keys; by rewrite Hk1).
    symmetry. apply get_None_keys. by rewrite Hk2, <- Hperm. }
split; [done|].
assert (∀ (s : stats) cols,
          keys s = cols → NoDup cols →
          (∀ col, col ∈ cols →
             ∃ answer ha hb,
               host_evaluate ha (Col col) eval_type true n_best noise time tags
               = (hb, Ok answer)
               ∧ get col s = Some (set "ALL" answer.1 answer.2)) →
          distinct_keys s) as Hdistinct.
{ intros s cols Hk Hnd Hc. split; [by rewrite Hk|].
  apply Forall_forall. intros [col by_tag] Hin. simpl.
  assert (col ∈ cols) as Hcol.
  { rewrite <- Hk. apply list_elem_of_fmap. by exists (col, by_tag). }
  destruct (Hc col Hcol) as (answer & ha & hb & He & Hg).
  assert (get col s = Some by_tag) as Hg' by (apply elem_of_get; [by rewrite Hk | done]).
  assert (Some by_tag = Some (set "ALL" answer.1 answer.2)) as [= ->]
    by (etrans; [symmetry; exact Hg' | exact Hg]).
  apply NoDup_keys_set. by eapply Hdict. }
apply same_stats_assemble; [by eapply Hdistinct | by eapply Hdistinct |].
intros col. rewrite Hget. apply dict_equiv_refl. intros by_tag.
apply dict_equiv_refl. intros b. apply dict_equiv_refl. intros m. by apply dict_equiv_refl.
Qed.
End ColumnOrder.

(** * The files, the labels and the calls of a run *)

(** ** What the two files hold after a run *)


#[global] Instance path_eq_dec : EqDecision path.
Proof. solve_decision. Defined.

Section FileContents.
Context `{Host}.







End FileContents.

(** ** The order of the parts of a label *)

Section LabelOrder.
Context `{Host}.

End LabelOrder.

(** ** The scenario of the two noise bands, call by call *)

Section ScenarioCalls.
Context `{Host}.

(** The label groups that the answers to the calls of one noise stratum
    give, with no time period: for each of the two coarse columns, each
    aggregation and each regime, the label of the group, and the tags of the
    answer to the call for the column, with [ALL] set. [cols] are the columns
    in the order of the calls and [answers] the answers in the same order. *)
Definition answer_groups (suffix : string) (noise : noise_level) (cols : list string)
  (answers : list (bundle * per_tag)) : list (string * list string) :=
col ← ["NE-COARSE-LIT"; "NE-COARSE-METO"]; aggr ← ["micro"; "macro_doc"];
regime ← ["fuzzy"; "strict"];
match get col (zip cols answers) with
| Some answer =>
    [(col +:+ "-" +:+ aggr +:+ "-" +:+ regime +:+ "-"
      +:+ (if truthy suffix then suffix +:+ "-" else EmptyString)
      +:+ "TIME-ALL-" +:+ define_noise_label noise,
      sorted (keys (set "ALL" answer.1 answer.2)))]
| None => []
end.

Lemma get_zip {V} (cols : list string) (vs : list V) i col v :
NoDup cols → cols !! i = Some col → vs !! i = Some v → get col (zip cols vs) = Some v.
Proof.
revert vs i. induction cols as [|c cols IH]; intros [|v' vs] i Hnd Hc Hv; try done.
apply NoDup_cons in Hnd as [Hnin Hnd]. destruct i as [|i]; simpl in *.
- injection Hc as ->. injection Hv as ->. by rewrite String.eqb_refl.
- destruct (String.eqb_spec col c) as [->|Hne].
  + exfalso. apply Hnin. by eapply list_elem_of_lookup_2.
  + by eapply IH.
Qed.

Lemma answered_at eval_type n_best noise time tags h cols answers h' col :
answered eval_type n_best noise time tags h cols answers h' → col ∈ cols →
∃ i answer, cols !! i = Some col ∧ answers !! i = Some answer.
Proof.
intros Ha [i Hi]%list_elem_of_lookup.
destruct (lookup_lt_is_Some_2 answers i) as [answer Hans].
{ rewrite (answered_length _ _ _ _ _ _ _ _ _ Ha). by eapply lookup_lt_Some. }
by exists i, answer.
Qed.

(** One stratum of the coarse task: the calls are answered one after the
    other, and the rows are those of the label groups of the answers. *)
Lemma coarse_stratum_answer_groups submission suffix union tags n noise wa wb eval_stats out :
stratum_wrapper "nerc_coarse" union tags (n, (noise, None)) wa = (wb, Ok eval_stats) →
stratum_report "nerc_coarse" submission suffix union (n, (noise, None)) eval_stats = Ok out →
∃ answers,
  answered "nerc" 1 noise None tags (host wa) (set_order COARSE_COLUMNS) answers (host wb)
  ∧ row_index <$> out.2
    = concat (group_index <$> answer_groups suffix noise (set_order COARSE_COLUMNS) answers).
Proof.
unfold stratum_wrapper, stratum_report, stratum_label.
change (is_nerc "nerc_coarse") with true. change (String.eqb "nerc_coarse" "nerc_fine") with false.
cbn [fst snd]. intros Hw Hout.
assert (NoDup COARSE_COLUMNS) as Hnd0 by (apply (bool_decide_unpack _); by vm_compute).
pose proof (set_order_NoDup _ Hnd0) as Hnd.
apply evaluation_wrapper_loop_Ok in Hw as (answers & Ha & _ & ->).
exists answers. split; [done|].
pose proof (answered_length _ _ _ _ _ _ _ _ _ Ha) as Hlen.
assert (keys (fill [] (set_order COARSE_COLUMNS) answers) ≡ₚ COARSE_COLUMNS) as Hperm.
{ rewrite (fill_keys [] _ answers) by done. apply set_order_perm. }
destruct (assemble_tsv_output_index _ _ _ _ _ _ Hout) as [_ Hindex].
rewrite Hindex, report_index_coarse by done. f_equal. f_equal.
assert (∀ col, col ∈ COARSE_COLUMNS →
          ∃ answer, get col (fill [] (set_order COARSE_COLUMNS) answers)
                    = Some (set "ALL" answer.1 answer.2)
                    ∧ get col (zip (set_order COARSE_COLUMNS) answers) = Some answer) as Hcol.
{ intros col Hin. destruct (answered_at _ _ _ _ _ _ _ _ _ col Ha) as (i & answer & Hi & Hans).
  { by rewrite set_order_perm. }
  exists answer. split; [by eapply fill_get | by eapply get_zip]. }
destruct (Hcol "NE-COARSE-LIT") as (lit & Hl1 & Hl2); [apply list_elem_of_here|].
destruct (Hcol "NE-COARSE-METO") as (meto & Hm1 & Hm2);
  [apply list_elem_of_further, list_elem_of_here|].
assert (truthy (nerc_eval_suffix suffix noise None) = true) as Htruthy
  by apply (stratum_label_truthy "nerc_coarse" _ false (1, (noise, None))).
clear Hcol Ha Hnd Hperm Hlen Hindex Hout. revert Hl1 Hl2 Hm1 Hm2.
generalize (set_order COARSE_COLUMNS). intros cols Hl1 Hl2 Hm1 Hm2.
unfold coarse_groups, answer_groups, COARSE_COLUMNS, aggregations, evaluation_label.
cbn [mbind list_bind mret list_ret app fmap list_fmap concat].
rewrite Hl1, Hl2, Hm1, Hm2, Htruthy. reflexivity.
Qed.

Lemma answer_groups_labels suffix noise cols answers h h' tags :
cols ≡ₚ COARSE_COLUMNS →
answered "nerc" 1 noise None tags h cols answers h' →
fst <$> answer_groups suffix noise cols answers
= (λ a, a +:+ (if truthy suffix then suffix +:+ "-" else EmptyString)
          +:+ "TIME-ALL-" +:+ define_noise_label noise)
    <$> (col ← COARSE_COLUMNS; aggr ← aggregations; regime ← ["fuzzy"; "strict"];
         [col +:+ "-" +:+ aggr +:+ "-" +:+ regime +:+ "-"]).
Proof.
intros Hperm Ha.
assert (∀ col, col ∈ COARSE_COLUMNS → is_Some (get col (zip cols answers))) as Hcol.
{ intros col Hin. destruct (answered_at _ _ _ _ _ _ _ _ _ col Ha) as (i & answer & Hi & Hans).
  { by rewrite Hperm. }
  exists answer. eapply get_zip; [|done..]. rewrite Hperm.
  apply (bool_decide_unpack _). by vm_compute. }
destruct (Hcol "NE-COARSE-LIT") as (lit & Hl); [apply list_elem_of_here|].
destruct (Hcol "NE-COARSE-METO") as (meto & Hm);
  [apply list_elem_of_further, list_elem_of_here|].
unfold answer_groups, COARSE_COLUMNS, aggregations.
cbn [mbind list_bind mret list_ret app fmap list_fmap concat].
rewrite Hl, Hm. reflexivity.
Qed.

Lemma answer_groups_elem_of suffix noise cols (answers : list (bundle * per_tag)) i col
  (answer : bundle * per_tag) aggr regime :
NoDup cols → col ∈ COARSE_COLUMNS →
cols !! i = Some col → answers !! i = Some answer →
aggr ∈ ["micro"; "macro_doc"] → regime ∈ ["fuzzy"; "strict"] →
(col +:+ "-" +:+ aggr +:+ "-" +:+ regime +:+ "-"
 +:+ (if truthy suffix then suffix +:+ "-" else EmptyString)
 +:+ "TIME-ALL-" +:+ define_noise_label noise,
 sorted (keys (set "ALL" answer.1 answer.2)))
∈ answer_groups suffix noise cols answers.
Proof.
intros Hnd Hcol Hi Hans Haggr Hregime.
pose proof (get_zip (V := bundle * per_tag) _ _ _ _ _ Hnd Hi Hans) as Hget.
unfold answer_groups.
apply list_elem_of_bind. exists col. split; [|done].
apply list_elem_of_bind. exists aggr. split; [|done].
apply list_elem_of_bind. exists regime. split; [|done].
cbv beta. rewrite Hget. apply list_elem_of_here.
Qed.

(** C8. With the noise levels [0.0-0.1,0.1-1.0], the task [nerc_coarse] and
    no time periods, against a host that does not fail: three noise strata
    are enumerated, all noise first and then the two bands, labelled
    [LED-ALL], [LED-0.0-0.1] and [LED-0.1-1.0], and one time stratum. The run
    ends normally. Once the log is opened, the tagset read if there is one
    and the collaborator made, the collaborator is called for the first
    stratum and its two columns, then for the second, then for the third, each
    call with the noise band of its stratum, and then the two files are
    written. The rows of the table fall into 24 groups, each with an
    [Evaluation] label of its own: 3 strata times 2 columns times 2
    aggregations times 2 regimes. The group of a stratum, a column, an
    aggregation and a regime has one row for every tag of the answer to the
    call for that column in that stratum, and the row of [ALL], which is one
    row more unless the collaborator has a tag [ALL] of its own. *)
Theorem noise_bands_give_24_label_groups (args : Args) (w : World)
  (zero tenth one : float) :
args_task args = "nerc_coarse" →
args_noise_level args = Some "0.0-0.1,0.1-1.0" →
args_time_period args = None →
args_n_best args = None →
args_union args = false →
args_skip_check args = true ∨ is_ok (enforce_filename_try (args_f_pred args)) = true →
float_of_str "0.0" = Some zero → float_of_str "0.1" = Some tenth →
float_of_str "1.0" = Some one →
float_str zero = "0.0" → float_str tenth = "0.1" → float_str one = "1.0" →
cooperative →
let noise_levels := [None; Some (zero, tenth); Some (tenth, one)] in
let cols := set_order COARSE_COLUMNS in
let suffix := args_suffix args in
let f_tsv := PathIn (args_outdir args)
               (output_name (args_f_pred args) "nerc_coarse" suffix ".tsv") in
let f_json := PathIn (args_outdir args)
                (output_name (args_f_pred args) "nerc_coarse" suffix ".json") in
parse_noise_levels (args_noise_level args) = Ok noise_levels
∧ define_noise_label <$> noise_levels = ["LED-ALL"; "LED-0.0-0.1"; "LED-0.1-1.0"]
∧ parse_time_periods (args_time_period args) = Ok [None]
∧ ∃ w' tags hl hr h0 h1 h2 h3 a1 a2 a3 rows content,
    main args w = (w', Ok tt)
    ∧ host_open_w (host w) (Path (args_f_log args)) = (hl, Ok tt)
    ∧ match tagset_file (args_f_tagset args) with
      | Some f => ∃ text, host_read_text hl f = (hr, Ok text) ∧ tags = Some (tagset_of text)
      | None => hr = hl ∧ tags = None
      end
    ∧ host_new_evaluator hr (args_f_ref args) (args_f_pred args)
        (glueing_pairs (args_glueing_cols args)) = (h0, Ok tt)
    ∧ answered "nerc" 1 None None tags h0 cols a1 h1
    ∧ answered "nerc" 1 (Some (zero, tenth)) None tags h1 cols a2 h2
    ∧ answered "nerc" 1 (Some (tenth, one)) None tags h2 cols a3 h3
    ∧ trace w'
      = trace w ++ [EOpenW (Path (args_f_log args))]
        ++ match tagset_file (args_f_tagset args) with Some f => [EReadText f] | None => [] end
        ++ [ENewEvaluator (args_f_ref args) (args_f_pred args)
              (glueing_pairs (args_glueing_cols args))]
        ++ (noise ← noise_levels;
            (λ col, EEvaluate (Col col) "nerc" true 1 noise None tags) <$> cols)
        ++ [EOpenW f_tsv; EWriteTsv f_tsv fieldnames rows; EOpenW f_json;
            EWriteJson f_json content]
    ∧ let groups := answer_groups suffix None cols a1
                    ++ answer_groups suffix (Some (zero, tenth)) cols a2
                    ++ answer_groups suffix (Some (tenth, one)) cols a3 in
      row_index <$> rows = concat (group_index <$> groups)
      ∧ fst <$> groups = scenario_labels suffix
      ∧ length groups = 24%nat
      ∧ NoDup (fst <$> groups)
      ∧ ∀ noise answers i col answer aggr regime,
          (noise, answers) ∈ [(None, a1); (Some (zero, tenth), a2); (Some (tenth, one), a3)] →
          cols !! i = Some col → answers !! i = Some answer →
          aggr ∈ ["micro"; "macro_doc"] → regime ∈ ["fuzzy"; "strict"] →
          (col +:+ "-" +:+ aggr +:+ "-" +:+ regime +:+ "-"
           +:+ (if truthy suffix then suffix +:+ "-" else EmptyString)
           +:+ "TIME-ALL-" +:+ define_noise_label noise,
           sorted (keys (set "ALL" answer.1 answer.2))) ∈ groups
          ∧ keys (set "ALL" answer.1 answer.2)
            = (if bool_decide ("ALL" ∈ keys answer.2) then keys answer.2
               else keys answer.2 ++ ["ALL"]).
Proof.
intros Htask Hnoise Htime Hnbest Hunion Hname Hz Ht Ho Hsz Hst Hso Hco
  noise_levels cols suffix f_tsv f_json.
assert (parse_noise_levels (args_noise_level args) = Ok noise_levels) as Hparse.
{ rewrite Hnoise. unfold parse_noise_levels.
  change (truthy "0.0-0.1,0.1-1.0") with true. cbv iota.
  change (split "-" <$> split "," "0.0-0.1,0.1-1.0") with [["0.0"; "0.1"]; ["0.1"; "1.0"]].
  unfold parse_noise_band. simpl. by rewrite Hz, Ht, Ho. }
assert (define_noise_label <$> noise_levels = ["LED-ALL"; "LED-0.0-0.1"; "LED-0.1-1.0"])
  as Hlabels.
{ simpl. by rewrite Hsz, Hst, Hso. }
assert (parse_time_periods (args_time_period args) = Ok [None]) as Hperiods
  by (by rewrite Htime).
split_and!; try done.
pose proof Hco as (_ & _ & _ & Hopen).
pose proof (Hopen (host w) (Path (args_f_log args))) as Hlog.
destruct (host_open_w (host w) (Path (args_f_log args))) as [hl rl] eqn:Elog.
simpl in Hlog. subst rl.
set (wl := mkWorld (trace w ++ [EOpenW (Path (args_f_log args))]) hl).
destruct (cooperative_get_results (args_f_ref args) (args_f_pred args) (args_task args)
            (args_skip_check args) (args_glueing_cols args) [1] (args_union args)
            (args_outdir args) (args_suffix args) (args_f_tagset args) noise_levels [None]
            wl Hco) as [w' Hrun]; [by rewrite Htask | done | done | done |].
assert (main args w = (w', Ok tt)) as Hmain.
{ unfold main.
  rewrite (bind_step _ _ w wl tt) by (unfold open_w, call; by rewrite Elog).
  erewrite bind_step
    by (apply try_except_Ok; rewrite check_validity_of_arguments_spec;
        unfold valid_arguments; rewrite Htask, Hunion, Hnbest; done).
  erewrite bind_step by (unfold lift; by rewrite Hnbest).
  erewrite bind_step by (unfold lift; by rewrite Hparse).
  erewrite bind_step by (unfold lift; by rewrite Hperiods).
  by apply try_except_Ok. }
destruct (get_results_Ok _ _ _ _ _ _ _ _ _ _ _ _ _ _ Hrun)
  as (submission & tags & w0 & w1 & outcomes & final & Hpre & Hrep & Hlast & Htrace).
apply prelude_Ok in Hpre as (_ & _ & hr & Hread & Hnew & Ht0).
rewrite Htask in Hrep, Htrace.
pose proof (reported_calls _ _ _ _ _ _ _ _ _ Hrep (or_introl eq_refl)) as Hcalls.
change (task_strata "nerc_coarse" [1] noise_levels [None])
  with [(1, (@None (float * float), @None (datetime * datetime)));
        (1, (Some (zero, tenth), None)); (1, (Some (tenth, one), None))] in Hrep, Hcalls.
inversion Hrep as [|? ? ? st1 out1 wa1 os1 ? Hw1 Ho1 Hrep1]; subst.
inversion Hrep1 as [|? ? ? st2 out2 wa2 os2 ? Hw2 Ho2 Hrep2]; subst.
inversion Hrep2 as [|? ? ? st3 out3 wa3 os3 ? Hw3 Ho3 Hrep3]; subst.
inversion Hrep3; subst.
destruct (coarse_stratum_answer_groups _ _ _ _ _ _ _ _ _ _ Hw1 Ho1) as (a1 & Ha1 & Hi1).
destruct (coarse_stratum_answer_groups _ _ _ _ _ _ _ _ _ _ Hw2 Ho2) as (a2 & Ha2 & Hi2).
destruct (coarse_stratum_answer_groups _ _ _ _ _ _ _ _ _ _ Hw3 Ho3) as (a3 & Ha3 & Hi3).
assert (NoDup cols) as Hnd.
{ apply set_order_NoDup. apply (bool_decide_unpack _). by vm_compute. }
assert (cols ≡ₚ COARSE_COLUMNS) as Hperm by apply set_order_perm.
set (groups := answer_groups suffix None cols a1
               ++ answer_groups suffix (Some (zero, tenth)) cols a2
               ++ answer_groups suffix (Some (tenth, one)) cols a3).
assert (groups.*1 = scenario_labels suffix) as Hgroups.
{ unfold groups. rewrite !fmap_app.
  rewrite (answer_groups_labels _ _ _ _ _ _ _ Hperm Ha1),
    (answer_groups_labels _ _ _ _ _ _ _ Hperm Ha2),
    (answer_groups_labels _ _ _ _ _ _ _ Hperm Ha3).
  simpl define_noise_label. rewrite Hsz, Hst, Hso. reflexivity. }
exists w', tags, hl, hr, (host w0), (host wa1), (host wa2), (host w1), a1, a2, a3,
  (concat [(st1, out1.2); (st2, out2.2); (st3, out3.2)].*2), final.1.
split_and!; try done.
- rewrite Htrace, Hcalls, Ht0. subst wl. cbn [trace]. by rewrite <- !app_assoc.
- fold groups. cbv zeta. split_and!.
  + unfold groups, cols, suffix. rewrite !fmap_app, !concat_app, <- Hi1, <- Hi2, <- Hi3.
    cbn [fmap list_fmap snd concat]. by rewrite app_nil_r, !fmap_app.
  + done.
  + by rewrite <- (length_fmap fst), Hgroups, scenario_labels_length.
  + rewrite Hgroups. apply scenario_labels_NoDup.
  + intros noise answers i col answer aggr regime Hin Hi Hans Haggr Hregime.
    assert (col ∈ COARSE_COLUMNS) as Hcol.
    { rewrite <- Hperm. by eapply list_elem_of_lookup_2. }
    pose proof (answer_groups_elem_of suffix noise cols answers i col answer aggr regime
                  Hnd Hcol Hi Hans Haggr Hregime) as Hg.
    split.
    * unfold groups. rewrite !elem_of_app.
      apply elem_of_cons in Hin as [[= -> ->]|Hin]; [by left|].
      apply elem_of_cons in Hin as [[= -> ->]|Hin]; [right; by left|].
      apply elem_of_cons in Hin as [[= -> ->]|Hin]; [right; by right|].
      by apply elem_of_nil in Hin.
    * case_bool_decide; [by apply keys_set_in | by apply keys_set_new].
Qed.
End ScenarioCalls.

(** * The scorer on the sample host

    The theorems are put to use on the host of [Sample]: a collaborator
    whose tags overlap, floats with six decimals, and years for dates. *)

Import Sample.

(** ** Two maps with the same content *)

(** A check that two dictionaries hold related values under the same keys. *)
Definition agree {V} (same : V → V → bool) (d1 d2 : dict V) : bool :=
forallb (λ k, match get k d1, get k d2 with
              | Some a, Some b => same a b
              | None, None => true
              | _, _ => false
              end) (keys d1 ++ keys d2).

Lemma agree_dict_equiv {V} (R : relation V) same (d1 d2 : dict V) :
(∀ a b, same a b = true → R a b) → agree same d1 d2 = true → dict_equiv R d1 d2.
Proof.
intros Hsame Hagree k. unfold agree in Hagree.
destruct (decide (k ∈ keys d1 ++ keys d2)) as [Hk|Hk].
- pose proof (forallb_elem_of _ _ k Hagree Hk) as Hc. cbv beta in Hc.
  destruct (get k d1), (get k d2); try done; constructor; auto.
- apply not_elem_of_app in Hk as [Hk1 Hk2].
  apply get_None_keys in Hk1, Hk2. rewrite Hk1, Hk2. constructor.
Qed.

(** Equality of the values of the sample host. *)
Definition same_value (a b : value) : bool :=
match a, b with
| VInt x, VInt y | VFloat x, VFloat y => Z.eqb x y
| VStr s, VStr t => String.eqb s t
| VNone, VNone => true
| _, _ => false
end.

Lemma same_value_eq a b : same_value a b = true → a = b.
Proof.
destruct a, b; simpl; try done.
- by intros ->%Z.eqb_eq.
- by intros ->%Z.eqb_eq.
- by intros ->%String.eqb_eq.
Qed.

Lemma agree_same_stats (s1 s2 : stats) :
agree (agree (agree (agree same_value))) s1 s2 = true → same_stats s1 s2.
Proof.
apply agree_dict_equiv. intros ??. apply agree_dict_equiv. intros ??.
apply agree_dict_equiv. intros ??. apply agree_dict_equiv, same_value_eq.
Qed.

Lemma distinct_keys_decide (s : stats) :
bool_decide (NoDup (keys s)) && forallb (λ item, bool_decide (NoDup (keys item.2))) s = true →
distinct_keys s.
Proof.
intros [H1 H2]%andb_prop. split; [by apply bool_decide_eq_true in H1|].
apply Forall_forall. intros item Hitem.
pose proof (forallb_elem_of _ _ item H2 Hitem) as Hc. cbv beta in Hc.
by apply bool_decide_eq_true in Hc.
Qed.

(** ** Command lines *)

(** The coarse task with two noise bands. *)
Definition coarse_args : Args :=
mkArgs "gold.tsv" "team_bundle1_de_1.tsv" "clef_evaluation.log" "nerc_coarse"
  None None false false "out" EmptyString None (Some "0.0-0.1,0.1-1.0") None.

(** Union mode. *)
Definition union_args : Args :=
mkArgs "gold.tsv" "team_bundle1_de_1.tsv" "clef_evaluation.log" "nel"
  None None true false "out" EmptyString None None None.

(** A prediction file that is not named after the scheme. *)
Definition misnamed_args : Args :=
mkArgs "gold.tsv" "predictions.tsv" "clef_evaluation.log" "nerc_coarse"
  None None false false "out" EmptyString None None None.

(** A prediction file whose second part is a bare number. *)
Definition bare_number_args : Args :=
mkArgs "gold.tsv" "team_3_de_1.tsv" "clef_evaluation.log" "nerc_coarse"
  None None false false "out" EmptyString None None None.

(** A prediction file of a bundle that does not exist. *)
Definition sixth_bundle_args : Args :=
mkArgs "gold.tsv" "team_bundle6_de_1.tsv" "clef_evaluation.log" "nerc_coarse"
  None None false false "out" EmptyString None None None.

(** ** Results *)

(** The answer of the wrapper for the two coarse columns. *)
Definition coarse_stats : stats := Eval vm_compute in
match (evaluation_wrapper (Col <$> COARSE_COLUMNS) "nerc" 1 None None None start).2 with
| Ok eval_stats => eval_stats
| Raise _ => []
end.

Definition coarse_rows : list row := Eval vm_compute in
match assemble_tsv_output "sys" coarse_stats ["fuzzy"; "strict"] false "TIME-ALL-LED-ALL" with
| Ok out => out.2
| Raise _ => []
end.

Definition coarse_row : row := Eval vm_compute in default [] (head coarse_rows).

(** The same answer, built with the columns and the tags in the opposite
    order. *)
Definition coarse_stats_reordered : stats :=
Eval vm_compute in reverse (prod_map id reverse <$> coarse_stats).

(** NEL at the cutoffs 1 and 3, with a suffix of the user. *)
Definition nel_run : World * result unit :=
get_results "gold.tsv" "team_bundle1_de_1.tsv" "nel" false None [1; 3] false "out" "run2"
  None [None] [None] start.

(** The files that a run opens for writing, and the tables that it writes. *)
Definition opened (events : list event) : list path :=
omap (λ e, match e with EOpenW p => Some p | _ => None end) events.

Definition tables (events : list event) : list (list row) :=
omap (λ e, match e with EWriteTsv _ _ rows => Some rows | _ => None end) events.

(** The table of the run on the coarse task with two noise bands. *)
Definition coarse_table : list row := Eval vm_compute in
default [] (head (tables (trace (main coarse_args start).1))).

Lemma counter_cooperative : cooperative.
Proof.
split_and!; try done.
intros h col eval_type merge_lines n_best noise time tags.
eexists. split_and!; [reflexivity | by vm_compute | by vm_compute].
Qed.

(** ** The rows of a report *)

(** An answer written out, of one column with the tag [ALL] alone: the
    scores under [ent_type] are not those under [strict]. *)
Definition written_stats : stats :=
[("NE-COARSE-LIT",
  [("ALL",
    [("strict",
      [("P_micro", VFloat 714285); ("R_micro", VFloat 833333); ("F1_micro", VFloat 769230);
       ("TP", VInt 5); ("FP", VInt 2); ("FN", VInt 1);
       ("P_macro_doc", VFloat 700000); ("R_macro_doc", VFloat 810000);
       ("F1_macro_doc", VFloat 751000);
       ("P_macro_doc_std", VFloat 12345); ("R_macro_doc_std", VStr EmptyString);
       ("F1_macro_doc_std", VNone)]);
     ("ent_type",
      [("P_micro", VFloat 750000); ("R_micro", VFloat 857142); ("F1_micro", VFloat 800000);
       ("TP", VInt 6); ("FP", VInt 2); ("FN", VInt 1);
       ("P_macro_doc", VFloat 740000); ("R_macro_doc", VFloat 850000);
       ("F1_macro_doc", VFloat 791194);
       ("P_macro_doc_std", VFloat 23456); ("R_macro_doc_std", VStr EmptyString);
       ("F1_macro_doc_std", VNone)])])])].

(** The four rows of its report, written out. *)
Definition written_fuzzy_micro : row :=
[("System", VStr "sys"); ("Evaluation", VStr "NE-COARSE-LIT-micro-fuzzy-TIME-ALL-LED-ALL");
 ("Label", VStr "ALL"); ("P", VFloat 750000); ("R", VFloat 857000); ("F1", VFloat 800000);
 ("TP", VInt 6); ("FP", VInt 2); ("FN", VInt 1)].

Definition written_strict_micro : row :=
[("System", VStr "sys"); ("Evaluation", VStr "NE-COARSE-LIT-micro-strict-TIME-ALL-LED-ALL");
 ("Label", VStr "ALL"); ("P", VFloat 714000); ("R", VFloat 833000); ("F1", VFloat 769000);
 ("TP", VInt 5); ("FP", VInt 2); ("FN", VInt 1)].

Definition written_fuzzy_macro : row :=
[("System", VStr "sys");
 ("Evaluation", VStr "NE-COARSE-LIT-macro_doc-fuzzy-TIME-ALL-LED-ALL");
 ("Label", VStr "ALL"); ("P", VFloat 740000); ("R", VFloat 850000); ("F1", VFloat 791000);
 ("P_std", VFloat 23000); ("R_std", VStr EmptyString); ("F1_std", VNone)].

Definition written_strict_macro : row :=
[("System", VStr "sys");
 ("Evaluation", VStr "NE-COARSE-LIT-macro_doc-strict-TIME-ALL-LED-ALL");
 ("Label", VStr "ALL"); ("P", VFloat 700000); ("R", VFloat 810000); ("F1", VFloat 751000);
 ("P_std", VFloat 12000); ("R_std", VStr EmptyString); ("F1_std", VNone)].

Definition written_rows : list row :=
[written_fuzzy_micro; written_strict_micro; written_fuzzy_macro; written_strict_macro].

(** C5 on the answer written out: the rows of [fuzzy] say [fuzzy] and hold
    the scores found under [ent_type]. *)
Lemma written_report_says_fuzzy_and_reads_ent_type :
assemble_tsv_output "sys" written_stats ["fuzzy"; "strict"] false "TIME-ALL-LED-ALL"
= Ok (fieldnames, written_rows)
∧ (∀ row, row ∈ written_rows →
     ∃ col aggr regime tag by_tag by_regime by_metric p r f1,
       regime ∈ ["fuzzy"; "strict"]
       ∧ get "Evaluation" row
         = Some (VStr (col +:+ "-" +:+ aggr +:+ "-" +:+ regime +:+ "-TIME-ALL-LED-ALL"))
       ∧ get "Label" row = Some (VStr tag)
       ∧ get col written_stats = Some by_tag
       ∧ get tag by_tag = Some by_regime
       ∧ get (if String.eqb regime "fuzzy" then "ent_type" else regime) by_regime
         = Some by_metric
       ∧ get ("P_" +:+ aggr) by_metric = Some p
       ∧ get ("R_" +:+ aggr) by_metric = Some r
       ∧ get ("F1_" +:+ aggr) by_metric = Some f1
       ∧ get "P" row = Some (rounded p)
       ∧ get "R" row = Some (rounded r)
       ∧ get "F1" row = Some (rounded f1))
∧ (∀ col by_tag aggr regime tag,
     get col written_stats = Some by_tag → aggr ∈ ["micro"; "macro_doc"] →
     regime ∈ ["fuzzy"; "strict"] → tag ∈ keys by_tag → (false = true → tag = "ALL") →
     ∃ row by_regime by_metric p r f1,
       row ∈ written_rows
       ∧ get "Evaluation" row
         = Some (VStr (col +:+ "-" +:+ aggr +:+ "-" +:+ regime +:+ "-TIME-ALL-LED-ALL"))
       ∧ get "Label" row = Some (VStr tag)
       ∧ get tag by_tag = Some by_regime
       ∧ get (if String.eqb regime "fuzzy" then "ent_type" else regime) by_regime
         = Some by_metric
       ∧ get ("P_" +:+ aggr) by_metric = Some p
       ∧ get ("R_" +:+ aggr) by_metric = Some r
       ∧ get ("F1_" +:+ aggr) by_metric = Some f1
       ∧ get "P" row = Some (rounded p)
       ∧ get "R" row = Some (rounded r)
       ∧ get "F1" row = Some (rounded f1)).
Proof.
assert (assemble_tsv_output "sys" written_stats ["fuzzy"; "strict"] false "TIME-ALL-LED-ALL"
        = Ok (fieldnames, written_rows)) as Hout by reflexivity.
split; [exact Hout|].
exact (fuzzy_is_displayed_and_ent_type_is_read "sys" written_stats ["fuzzy"; "strict"] false
         "TIME-ALL-LED-ALL" (fieldnames, written_rows) Hout).
Defined.

(** C6 on the answer written out, at the row of [macro_doc] and [fuzzy]:
    it has the deviations and no counts. *)
Lemma written_report_has_counts_or_deviations :
assemble_tsv_output "sys" written_stats ["fuzzy"; "strict"] false "TIME-ALL-LED-ALL"
= Ok (fieldnames, written_rows)
∧ written_fuzzy_macro ∈ written_rows
∧ ∃ col aggr regime tag by_tag by_regime by_metric,
    (aggr = "micro" ∨ aggr = "macro_doc") ∧ regime ∈ ["fuzzy"; "strict"]
    ∧ get "Evaluation" written_fuzzy_macro
      = Some (VStr (col +:+ "-" +:+ aggr +:+ "-" +:+ regime +:+ "-TIME-ALL-LED-ALL"))
    ∧ get "Label" written_fuzzy_macro = Some (VStr tag)
    ∧ get col written_stats = Some by_tag
    ∧ get tag by_tag = Some by_regime
    ∧ get (if String.eqb regime "fuzzy" then "ent_type" else regime) by_regime
      = Some by_metric
    ∧ (∀ metric, metric ∈ ["P"; "R"; "F1"] →
         ∃ v, get (metric +:+ "_" +:+ aggr) by_metric = Some v
              ∧ get metric written_fuzzy_macro = Some (rounded v))
    ∧ (∀ fig, fig ∈ ["TP"; "FP"; "FN"] →
         (aggr = "micro" →
            ∃ v, get fig by_metric = Some v ∧ get fig written_fuzzy_macro = Some (rounded v))
         ∧ (aggr ≠ "micro" → get fig written_fuzzy_macro = None))
    ∧ (∀ metric, metric ∈ ["P"; "R"; "F1"] →
         (contains "macro" aggr = true →
            ∃ v, get (metric +:+ "_" +:+ aggr +:+ "_std") by_metric = Some v
                 ∧ get (metric +:+ "_std") written_fuzzy_macro = Some (rounded v))
         ∧ (contains "macro" aggr = false →
            get (metric +:+ "_std") written_fuzzy_macro = None)).
Proof.
assert (assemble_tsv_output "sys" written_stats ["fuzzy"; "strict"] false "TIME-ALL-LED-ALL"
        = Ok (fieldnames, written_rows)) as Hout by reflexivity.
assert (written_fuzzy_macro ∈ written_rows) as Hrow
  by (do 2 apply list_elem_of_further; apply list_elem_of_here).
split_and!; [exact Hout | exact Hrow |].
exact (metrics_always_counts_for_micro_deviations_for_macro "sys" written_stats
         ["fuzzy"; "strict"] false "TIME-ALL-LED-ALL" (fieldnames, written_rows)
         written_fuzzy_macro Hout Hrow).
Defined.

(** C7 on the sample answer, whose deviations are a float, an empty string
    and [None]: the report is assembled, with a row for every tag. *)
Lemma coarse_report_keeps_empty_values :
complete ["fuzzy"; "strict"] coarse_stats = true
∧ (∀ results : row, NoDup (keys results) →
     round_results results = Ok (prod_map id rounded <$> results))
∧ (∀ x n s, rounded (VFloat x) = VFloat (float_round x 3) ∧ rounded (VInt n) = VInt n
            ∧ rounded (VStr s) = VStr s ∧ rounded VNone = VNone)
∧ ∃ rows,
    assemble_tsv_output "sys" coarse_stats ["fuzzy"; "strict"] false "TIME-ALL-LED-ALL"
    = Ok (fieldnames, rows)
    ∧ row_index <$> rows = report_index coarse_stats ["fuzzy"; "strict"] false "TIME-ALL-LED-ALL"
    ∧ ∀ col by_tag aggr regime tag,
        get col coarse_stats = Some by_tag → aggr ∈ aggregations →
        regime ∈ ["fuzzy"; "strict"] → tag ∈ reported_tags false by_tag →
        ∃ p r f1 counts stds,
          row_values coarse_stats col aggr (storage_regime regime) tag
          = Ok (p, r, f1, counts, stds)
          ∧ row_of "sys" (evaluation_label col aggr regime "TIME-ALL-LED-ALL") tag
              p r f1 counts stds ∈ rows.
Proof.
assert (complete ["fuzzy"; "strict"] coarse_stats = true) as Hc by reflexivity.
split; [exact Hc|].
exact (empty_values_pass_and_rows_are_emitted "sys" coarse_stats ["fuzzy"; "strict"] false
         "TIME-ALL-LED-ALL" Hc).
Defined.

(** An absent metric is not an empty one: its lookup raises, before the
    rounding loop is reached. *)
Lemma absent_metric_raises_KeyError :
assemble_tsv_output "sys"
  [("NE-COARSE-LIT", [("ALL", [("ent_type", [("P_micro", VNone); ("R_micro", VNone)])])])]
  ["fuzzy"] false EmptyString
= Raise (KeyError "F1_micro").
Proof. reflexivity. Qed.

(** C9 on the sample answer and the one built in the opposite order. *)
Lemma reordered_answer_gives_the_same_report :
coarse_stats ≠ coarse_stats_reordered
∧ distinct_keys coarse_stats ∧ distinct_keys coarse_stats_reordered
∧ same_stats coarse_stats coarse_stats_reordered
∧ assemble_tsv_output "sys" coarse_stats ["fuzzy"; "strict"] false "TIME-ALL-LED-ALL"
  = assemble_tsv_output "sys" coarse_stats_reordered ["fuzzy"; "strict"] false
      "TIME-ALL-LED-ALL".
Proof.
assert (distinct_keys coarse_stats) as Hd1 by (apply distinct_keys_decide; reflexivity).
assert (distinct_keys coarse_stats_reordered) as Hd2
  by (apply distinct_keys_decide; reflexivity).
assert (same_stats coarse_stats coarse_stats_reordered) as Hs
  by (apply agree_same_stats; reflexivity).
split_and!; [discriminate | exact Hd1 | exact Hd2 | exact Hs |].
exact (report_independent_of_insertion_order "sys" coarse_stats coarse_stats_reordered
         ["fuzzy"; "strict"] false "TIME-ALL-LED-ALL" Hd1 Hd2 Hs).
Defined.

(** ** Runs *)



(** C4 on the NEL run at two cutoffs: the names of its two files. *)
Lemma nel_run_names_its_files :
nel_run = (nel_run.1, Ok tt)
∧ path_suffix "team_bundle1_de_1.tsv" = ".tsv"
∧ contains ".tsv" (path_stem "team_bundle1_de_1.tsv") = false
∧ ∃ rows eval_stats,
    filter (λ e, is_output e = true) (drop (length (trace start)) (trace nel_run.1))
    = [EOpenW (PathIn "out" "team_bundle1_de_1_nel_run2.tsv");
       EWriteTsv (PathIn "out" "team_bundle1_de_1_nel_run2.tsv") fieldnames rows;
       EOpenW (PathIn "out" "team_bundle1_de_1_nel_run2.json");
       EWriteJson (PathIn "out" "team_bundle1_de_1_nel_run2.json") eval_stats].
Proof.
assert (nel_run = (nel_run.1, Ok tt)) as Hrun by reflexivity.
assert (path_suffix "team_bundle1_de_1.tsv" = ".tsv") as Hsuffix by reflexivity.
assert (contains ".tsv" (path_stem "team_bundle1_de_1.tsv") = false) as Hstem by reflexivity.
split_and!; [exact Hrun | exact Hsuffix | exact Hstem |].
exact (output_names_have_stem_task_and_user_suffix "gold.tsv" "team_bundle1_de_1.tsv" "nel"
         false None [1; 3] false "out" "run2" None [None] [None] start nel_run.1
         Hrun Hsuffix Hstem).
Defined.

(** C8 on the sample host: the scenario itself, with its six calls and its
    table of 72 rows. *)
Lemma coarse_run_has_24_label_groups :
cooperative
∧ float_of_str "0.0" = Some 0 ∧ float_of_str "0.1" = Some 100000
∧ float_of_str "1.0" = Some 1000000
∧ float_str 0 = "0.0" ∧ float_str 100000 = "0.1" ∧ float_str 1000000 = "1.0"
∧ is_ok (enforce_filename_try (args_f_pred coarse_args)) = true
∧ filter (λ e, is_evaluate e = true) (trace (main coarse_args start).1)
  = [EEvaluate (Col "NE-COARSE-METO") "nerc" true 1 None None None;
     EEvaluate (Col "NE-COARSE-LIT") "nerc" true 1 None None None;
     EEvaluate (Col "NE-COARSE-METO") "nerc" true 1 (Some (0, 100000)) None None;
     EEvaluate (Col "NE-COARSE-LIT") "nerc" true 1 (Some (0, 100000)) None None;
     EEvaluate (Col "NE-COARSE-METO") "nerc" true 1 (Some (100000, 1000000)) None None;
     EEvaluate (Col "NE-COARSE-LIT") "nerc" true 1 (Some (100000, 1000000)) None None]
∧ tables (trace (main coarse_args start).1) = [coarse_table]
∧ length coarse_table = 72%nat
∧ parse_noise_levels (args_noise_level coarse_args)
  = Ok [None; Some (0, 100000); Some (100000, 1000000)]
∧ define_noise_label <$> [None; Some (0, 100000); Some (100000, 1000000)]
  = ["LED-ALL"; "LED-0.0-0.1"; "LED-0.1-1.0"]
∧ parse_time_periods (args_time_period coarse_args) = Ok [None]
∧ ∃ w' tags hl hr h0 h1 h2 h3 a1 a2 a3 rows content,
    main coarse_args start = (w', Ok tt)
    ∧ host_open_w (host start) (Path "clef_evaluation.log") = (hl, Ok tt)
    ∧ (hr = hl ∧ tags = None)
    ∧ host_new_evaluator hr "gold.tsv" "team_bundle1_de_1.tsv" None = (h0, Ok tt)
    ∧ answered "nerc" 1 None None tags h0 (set_order COARSE_COLUMNS) a1 h1
    ∧ answered "nerc" 1 (Some (0, 100000)) None tags h1 (set_order COARSE_COLUMNS) a2 h2
    ∧ answered "nerc" 1 (Some (100000, 1000000)) None tags h2 (set_order COARSE_COLUMNS) a3 h3
    ∧ trace w'
      = trace start ++ [EOpenW (Path "clef_evaluation.log")] ++ []
        ++ [ENewEvaluator "gold.tsv" "team_bundle1_de_1.tsv" None]
        ++ (noise ← [None; Some (0, 100000); Some (100000, 1000000)];
            (λ col, EEvaluate (Col col) "nerc" true 1 noise None tags)
              <$> set_order COARSE_COLUMNS)
        ++ [EOpenW (PathIn "out" "team_bundle1_de_1_nerc_coarse.tsv");
            EWriteTsv (PathIn "out" "team_bundle1_de_1_nerc_coarse.tsv") fieldnames rows;
            EOpenW (PathIn "out" "team_bundle1_de_1_nerc_coarse.json");
            EWriteJson (PathIn "out" "team_bundle1_de_1_nerc_coarse.json") content]
    ∧ let groups := answer_groups EmptyString None (set_order COARSE_COLUMNS) a1
                    ++ answer_groups EmptyString (Some (0, 100000)) (set_order COARSE_COLUMNS) a2
                    ++ answer_groups EmptyString (Some (100000, 1000000))
                         (set_order COARSE_COLUMNS) a3 in
      row_index <$> rows = concat (group_index <$> groups)
      ∧ fst <$> groups = scenario_labels EmptyString
      ∧ length groups = 24%nat
      ∧ NoDup (fst <$> groups)
      ∧ ∀ noise answers i col answer aggr regime,
          (noise, answers)
          ∈ [(None, a1); (Some (0, 100000), a2); (Some (100000, 1000000), a3)] →
          set_order COARSE_COLUMNS !! i = Some col → answers !! i = Some answer →
          aggr ∈ ["micro"; "macro_doc"] → regime ∈ ["fuzzy"; "strict"] →
          (col +:+ "-" +:+ aggr +:+ "-" +:+ regime +:+ "-"
           +:+ "TIME-ALL-" +:+ define_noise_label noise,
           sorted (keys (set "ALL" answer.1 answer.2))) ∈ groups
          ∧ keys (set "ALL" answer.1 answer.2)
            = (if bool_decide ("ALL" ∈ keys answer.2) then keys answer.2
               else keys answer.2 ++ ["ALL"]).
Proof.
assert (is_ok (enforce_filename_try (args_f_pred coarse_args)) = true) as Hname
  by reflexivity.
split; [exact counter_cooperative|]. do 10 (split; [reflexivity|]).
exact (noise_bands_give_24_label_groups coarse_args start 0 100000 1000000
         eq_refl eq_refl eq_refl eq_refl eq_refl (or_intror Hname)
         eq_refl eq_refl eq_refl eq_refl eq_refl eq_refl counter_cooperative).
Defined.

(** C10 on a file named [predictions.tsv], and on a file of bundle 6. *)
Lemma misnamed_run_prints_and_ends_with_0 :
args_skip_check misnamed_args = false
∧ length (split "_" (path_stem (lower (args_f_pred misnamed_args)))) ≠ 4%nat
∧ host_open_w (host start) (Path (args_f_log misnamed_args)) = (O, Ok tt)
∧ valid_arguments misnamed_args = true
∧ parse_n_best (args_n_best misnamed_args) = Ok [1]
∧ parse_noise_levels (args_noise_level misnamed_args) = Ok [None]
∧ parse_time_periods (args_time_period misnamed_args) = Ok [None]
∧ ((∀ w0,
      get_results "gold.tsv" "predictions.tsv" "nerc_coarse" false None [1] false "out"
        EmptyString None [None] [None] w0
      = (mkWorld (trace w0 ++ [ELogError (enforce_filename_msg "predictions.tsv")]) (host w0),
         Raise (AssertionError (enforce_filename_msg "predictions.tsv"))))
   ∧ main misnamed_args start
     = (mkWorld [EOpenW (Path "clef_evaluation.log");
                 ELogError (enforce_filename_msg "predictions.tsv");
                 EPrint (enforce_filename_msg "predictions.tsv")] O,
        Ok tt)
   ∧ exit_status (main misnamed_args start).2 = 0
   ∧ (∀ args' w' h',
        host_open_w (host w') (Path (args_f_log args')) = (h', Ok tt) →
        valid_arguments args' = false →
        exit_status (main args' w').2 = 1
        ∧ filter (λ e, is_output e = true)
            (drop (length (trace w')) (trace (main args' w').1))
          = [EOpenW (Path (args_f_log args'))]))
∧ split "_" (path_stem (lower (args_f_pred sixth_bundle_args)))
  = ["team"; "bundle" +:+ "6"; "de"; "1"]
∧ int_of_str "6" = Some 6
∧ main sixth_bundle_args start
  = (mkWorld [EOpenW (Path "clef_evaluation.log");
              ELogError (enforce_filename_msg "team_bundle6_de_1.tsv");
              EPrint (enforce_filename_msg "team_bundle6_de_1.tsv")] O,
     Ok tt)
∧ exit_status (main sixth_bundle_args start).2 = 0.
Proof.
assert (length (split "_" (path_stem (lower (args_f_pred misnamed_args)))) ≠ 4%nat) as Hlen
  by (vm_compute; discriminate).
assert (split "_" (path_stem (lower (args_f_pred sixth_bundle_args)))
        = ["team"; "bundle" +:+ "6"; "de"; "1"]) as Hsplit by reflexivity.
assert (int_of_str "6" = Some 6) as Hint by reflexivity.
split; [reflexivity|]. split; [exact Hlen|]. do 5 (split; [reflexivity|]).
split.
{ exact (rejected_filename_is_printed_and_status_is_0 misnamed_args start O [1] [None] [None]
           eq_refl (or_introl Hlen) eq_refl eq_refl eq_refl eq_refl eq_refl). }
split; [exact Hsplit|]. split; [exact Hint|].
assert (let name := lower (args_f_pred sixth_bundle_args) in
        length (split "_" (path_stem name)) ≠ 4%nat
        ∨ path_suffix name ≠ ".tsv"
        ∨ ∃ team bundle lang run,
            split "_" (path_stem name) = [team; bundle; lang; run]
            ∧ (lang ∉ ["de"; "fr"; "en"]
               ∨ ∃ c rest n,
                   bundle = "bundle" +:+ String c rest ∧ is_Some (digit_of c)
                   ∧ int_of_str (String c rest) = Some n ∧ ¬ (1 ≤ n ≤ 5))) as Hsixth.
{ right. right. exists "team", ("bundle" +:+ "6"), "de", "1". split; [exact Hsplit|].
  right. exists "6"%char, EmptyString, 6.
  split; [reflexivity|]. split; [by eexists|]. split; [exact Hint | lia]. }
pose proof (rejected_filename_is_printed_and_status_is_0 sixth_bundle_args start O [1] [None]
              [None] eq_refl Hsixth eq_refl eq_refl eq_refl eq_refl eq_refl)
  as (_ & Hmain & Hexit & _).
split; [exact Hmain | exact Hexit].
Defined.

(** ** Where the code departs from its description *)

(** Union mode on the sample host: the collaborator is called once for the
    two NEL columns, and the run ends on a [TypeError], with the log as its
    only file. *)
Lemma union_run_ends_on_TypeError :
(main union_args start).2 = Raise TypeError
∧ exit_status (main union_args start).2 = 1
∧ filter (λ e, is_evaluate e = true) (trace (main union_args start).1)
  = [EEvaluate (ColGroup ["NEL-LIT"; "NEL-METO"]) "nel" true 1 None None None]
∧ opened (trace (main union_args start).1) = [Path "clef_evaluation.log"]
∧ tables (trace (main union_args start).1) = [].
Proof. split_and!; reflexivity. Qed.


(** The files of the run on the coarse task with two noise bands are named
    after the task alone, and not after the strata. *)
Lemma coarse_run_names_no_stratum :
opened (trace (main coarse_args start).1)
= [Path "clef_evaluation.log"; PathIn "out" "team_bundle1_de_1_nerc_coarse.tsv";
   PathIn "out" "team_bundle1_de_1_nerc_coarse.json"]
∧ described_name "team_bundle1_de_1" "nerc_coarse"
    (described_suffix ["TIME-ALL-LED-ALL"; "TIME-ALL-LED-0.0-0.1"; "TIME-ALL-LED-0.1-1.0"]
       EmptyString) ".tsv"
  = "team_bundle1_de_1_nerc_coarse_TIME-ALL-LED-ALL-TIME-ALL-LED-0.0-0.1-TIME-ALL-LED-0.1-1.0.tsv"
∧ ∀ labels user,
    truthy (described_suffix labels user) = true →
    described_name "team_bundle1_de_1" "nerc_coarse" (described_suffix labels user) ".tsv"
    ≠ "team_bundle1_de_1_nerc_coarse.tsv".
Proof.
split_and!; [reflexivity .. |].
intros labels user Hsuffix. unfold described_name. rewrite Hsuffix. discriminate.
Qed.

(** A file name whose second part is a bare number is not of the scheme
    [TEAM_bundleN_LANG_RUN], and yet it is accepted: the run goes on and
    writes its files. *)
Lemma bare_number_is_accepted :
described_convention "team_3_de_1.tsv" = false
∧ enforce_filename "team_3_de_1.tsv" start = (start, Ok ("team_3_de_1", "de"))
∧ (main bare_number_args start).2 = Ok tt
∧ opened (trace (main bare_number_args start).1)
  = [Path "clef_evaluation.log"; PathIn "out" "team_3_de_1_nerc_coarse.tsv";
     PathIn "out" "team_3_de_1_nerc_coarse.json"].
Proof. split_and!; reflexivity. Qed.

(** ** The further properties on the sample host *)

(** NEL at two cutoffs, with columns to glue and a tagset file. *)
Definition nel_tags_run : World * result unit :=
get_results "gold.tsv" "team_bundle1_de_1.tsv" "nel" false (Some "a+b,c+d") [1; 3] false "out"
  "run2" (Some "tags.txt") [None] [None] start.

Definition nel_table : list row := Eval vm_compute in
default [] (head (tables (trace nel_tags_run.1))).

Definition nel_row : row := Eval vm_compute in default [] (head nel_table).

(** The coarse task on a file named in capitals. *)
Definition capitals_run : World * result unit :=
get_results "gold.tsv" "TEAM_BUNDLE1_DE_1.TSV" "nerc_coarse" false None [1] false "out"
  EmptyString None [None] [None] start.

(** The coarse task without a noise level. *)
Definition no_stratum_run : World * result unit :=
get_results "gold.tsv" "team_bundle1_de_1.tsv" "nerc_coarse" false None [1] false "out"
  EmptyString None [] [None] start.

(** Command lines that end early. *)
Definition nerc_union_args : Args :=
mkArgs "gold.tsv" "team_bundle1_de_1.tsv" "clef_evaluation.log" "nerc_coarse"
  None (Some "x") true false "out" EmptyString None None None.

Definition one_bound_args : Args :=
mkArgs "gold.tsv" "team_bundle1_de_1.tsv" "clef_evaluation.log" "nerc_coarse"
  None None false false "out" EmptyString None (Some "0.5") None.

(** The world after these events and this number of calls of the collaborator. *)
Definition after (events : list event) (calls : nat) : World :=
@mkWorld decimal calendar counter events calls.

Lemma NoDup_COARSE_COLUMNS : NoDup COARSE_COLUMNS.
Proof. apply (bool_decide_unpack _). reflexivity. Qed.

Lemma counter_dictionaries h col eval_type merge_lines n noise time tags h'
  (answer : bundle * per_tag) :
host_evaluate h col eval_type merge_lines n noise time tags = (h', Ok answer) →
NoDup (keys answer.2).
Proof.
intros [= _ <-]. apply (bool_decide_unpack _). reflexivity.
Qed.

(** X1 on the two coarse columns. *)
Lemma coarse_wrapper_keeps_every_answer :
NoDup COARSE_COLUMNS
∧ evaluation_wrapper (Col <$> COARSE_COLUMNS) "nerc" 1 None None None start
  = ((evaluation_wrapper (Col <$> COARSE_COLUMNS) "nerc" 1 None None None start).1,
     Ok coarse_stats)
∧ trace (evaluation_wrapper (Col <$> COARSE_COLUMNS) "nerc" 1 None None None start).1
  = trace start ++ ((λ col, EEvaluate (Col col) "nerc" true 1 None None None)
                      <$> COARSE_COLUMNS)
∧ keys coarse_stats = COARSE_COLUMNS
∧ ∀ col, col ∈ COARSE_COLUMNS →
    ∃ answer ha hb by_tag,
      host_evaluate ha (Col col) "nerc" true 1 None None None = (hb, Ok answer)
      ∧ get col coarse_stats = Some by_tag
      ∧ get "ALL" by_tag = Some answer.1
      ∧ (∀ tag, tag ≠ "ALL" → get tag by_tag = get tag answer.2)
      ∧ keys by_tag
        = if bool_decide ("ALL" ∈ keys answer.2) then keys answer.2
          else keys answer.2 ++ ["ALL"].
Proof.
assert (evaluation_wrapper (Col <$> COARSE_COLUMNS) "nerc" 1 None None None start
        = ((evaluation_wrapper (Col <$> COARSE_COLUMNS) "nerc" 1 None None None start).1,
           Ok coarse_stats)) as Hrun by reflexivity.
split; [exact NoDup_COARSE_COLUMNS|]. split; [exact Hrun|].
exact (wrapper_keeps_every_answer_and_sets_ALL COARSE_COLUMNS "nerc" 1 None None None start
         _ coarse_stats NoDup_COARSE_COLUMNS Hrun).
Defined.

(** X4 on the first row of the sample report. *)
Lemma coarse_row_has_nine_fields :
assemble_tsv_output "sys" coarse_stats ["fuzzy"; "strict"] false "TIME-ALL-LED-ALL"
= Ok (fieldnames, coarse_rows)
∧ coarse_row ∈ coarse_rows
∧ fieldnames = fieldnames
∧ get "System" coarse_row = Some (VStr "sys")
∧ (keys coarse_row = ["System"; "Evaluation"; "Label"; "P"; "R"; "F1"; "TP"; "FP"; "FN"]
   ∨ keys coarse_row
     = ["System"; "Evaluation"; "Label"; "P"; "R"; "F1"; "P_std"; "R_std"; "F1_std"])
∧ ∀ field, field ∈ keys coarse_row → field ∈ fieldnames.
Proof.
assert (assemble_tsv_output "sys" coarse_stats ["fuzzy"; "strict"] false "TIME-ALL-LED-ALL"
        = Ok (fieldnames, coarse_rows)) as Hout by reflexivity.
assert (coarse_row ∈ coarse_rows) as Hrow by apply list_elem_of_here.
split; [exact Hout|]. split; [exact Hrow|].
exact (rows_have_nine_fields_of_the_header "sys" coarse_stats ["fuzzy"; "strict"] false
         "TIME-ALL-LED-ALL" (fieldnames, coarse_rows) coarse_row Hout Hrow).
Defined.

(** X5 on the sample report: two columns of three tags. *)
Lemma coarse_report_has_24_rows :
assemble_tsv_output "sys" coarse_stats ["fuzzy"; "strict"] false "TIME-ALL-LED-ALL"
= Ok (fieldnames, coarse_rows)
∧ length coarse_rows = 24%nat.
Proof.
assert (assemble_tsv_output "sys" coarse_stats ["fuzzy"; "strict"] false "TIME-ALL-LED-ALL"
        = Ok (fieldnames, coarse_rows)) as Hout by reflexivity.
split; [exact Hout|].
exact (report_has_a_row_per_aggregation_regime_and_tag "sys" coarse_stats ["fuzzy"; "strict"]
         false "TIME-ALL-LED-ALL" (fieldnames, coarse_rows) Hout).
Defined.

(** X6 on union mode: the collaborator is made, the wrapper raises, and no
    file is opened. *)
Lemma union_run_opens_no_file :
(∃ w0 p,
   prelude "gold.tsv" "team_bundle1_de_1.tsv" false None None start = (w0, Ok p)
   ∧ evaluate_strata "nel" p.1 EmptyString p.2 [1] true [None] [None] w0
     = (after [ENewEvaluator "gold.tsv" "team_bundle1_de_1.tsv" None;
                 EEvaluate (ColGroup NEL_COLUMNS) "nel" true 1 None None None] 1%nat,
        Raise TypeError))
∧ get_results "gold.tsv" "team_bundle1_de_1.tsv" "nel" false None [1] true "out" EmptyString
    None [None] [None] start
  = (after [ENewEvaluator "gold.tsv" "team_bundle1_de_1.tsv" None;
              EEvaluate (ColGroup NEL_COLUMNS) "nel" true 1 None None None] 1%nat,
     Raise TypeError)
∧ forallb (λ e, negb (is_output e))
    (drop (length (trace start))
       [ENewEvaluator "gold.tsv" "team_bundle1_de_1.tsv" None;
        EEvaluate (ColGroup NEL_COLUMNS) "nel" true 1 None None None]) = true.
Proof.
assert (∃ w0 p,
          prelude "gold.tsv" "team_bundle1_de_1.tsv" false None None start = (w0, Ok p)
          ∧ evaluate_strata "nel" p.1 EmptyString p.2 [1] true [None] [None] w0
            = (after [ENewEvaluator "gold.tsv" "team_bundle1_de_1.tsv" None;
                        EEvaluate (ColGroup NEL_COLUMNS) "nel" true 1 None None None] 1%nat,
               Raise TypeError)) as Hfail.
{ exists (after [ENewEvaluator "gold.tsv" "team_bundle1_de_1.tsv" None] O),
    ("team_bundle1_de_1", None). split; reflexivity. }
split; [exact Hfail|].
exact (failed_evaluation_opens_no_file "gold.tsv" "team_bundle1_de_1.tsv" "nel" false None [1]
         true "out" EmptyString None [None] [None] start _ TypeError (or_intror Hfail)).
Defined.

(** X7 on NEL with a tagset file: the file is read, and the four calls of
    the collaborator are without a tagset. *)
Lemma nel_run_reads_the_tagset_and_does_not_pass_it :
nel_tags_run = (nel_tags_run.1, Ok tt)
∧ ∃ tags rows content,
    (∃ h text, host_read_text (host start) "tags.txt" = (h, Ok text)
               ∧ tags = Some (tagset_of text))
    ∧ drop (length (trace start)) (trace nel_tags_run.1)
      = [EReadText "tags.txt";
         ENewEvaluator "gold.tsv" "team_bundle1_de_1.tsv" (Some [["a"; "b"]; ["c"; "d"]]);
         EEvaluate (Col "NEL-LIT") "nel" true 1 None None None;
         EEvaluate (Col "NEL-METO") "nel" true 1 None None None;
         EEvaluate (Col "NEL-LIT") "nel" true 3 None None None;
         EEvaluate (Col "NEL-METO") "nel" true 3 None None None;
         EOpenW (PathIn "out" "team_bundle1_de_1_nel_run2.tsv");
         EWriteTsv (PathIn "out" "team_bundle1_de_1_nel_run2.tsv") fieldnames rows;
         EOpenW (PathIn "out" "team_bundle1_de_1_nel_run2.json");
         EWriteJson (PathIn "out" "team_bundle1_de_1_nel_run2.json") content].
Proof.
assert (nel_tags_run = (nel_tags_run.1, Ok tt)) as Hrun by reflexivity.
split; [exact Hrun|].
exact (proj2 (completed_run_reads_makes_evaluates_and_writes "gold.tsv"
                "team_bundle1_de_1.tsv" "nel" false (Some "a+b,c+d") [1; 3] false "out" "run2"
                (Some "tags.txt") [None] [None] start nel_tags_run.1 Hrun)).
Defined.

(** X8 on the same run: its rows name the stem. *)
Lemma nel_rows_name_the_stem :
nel_tags_run = (nel_tags_run.1, Ok tt)
∧ EWriteTsv (PathIn "out" "team_bundle1_de_1_nel_run2.tsv") fieldnames nel_table
  ∈ drop (length (trace start)) (trace nel_tags_run.1)
∧ nel_row ∈ nel_table
∧ get "System" nel_row = Some (VStr "team_bundle1_de_1").
Proof.
assert (nel_tags_run = (nel_tags_run.1, Ok tt)) as Hrun by reflexivity.
assert (EWriteTsv (PathIn "out" "team_bundle1_de_1_nel_run2.tsv") fieldnames nel_table
        ∈ drop (length (trace start)) (trace nel_tags_run.1)) as Hev
  by (apply (list_elem_of_lookup_2 _ 7%nat); reflexivity).
assert (nel_row ∈ nel_table) as Hrow by apply list_elem_of_here.
split; [exact Hrun|]. split; [exact Hev|]. split; [exact Hrow|].
exact (rows_name_the_stem_or_the_path_as_given "gold.tsv" "team_bundle1_de_1.tsv" "nel" false
         (Some "a+b,c+d") [1; 3] false "out" "run2" (Some "tags.txt") [None] [None] start
         nel_tags_run.1 _ _ nel_table nel_row Hrun Hev Hrow).
Defined.

(** X9 on the same run: two cutoffs, eight rows. *)
Lemma nel_table_has_eight_ALL_rows :
nel_tags_run = (nel_tags_run.1, Ok tt)
∧ EWriteTsv (PathIn "out" "team_bundle1_de_1_nel_run2.tsv") fieldnames nel_table
  ∈ drop (length (trace start)) (trace nel_tags_run.1)
∧ length nel_table = 8%nat
∧ ∀ row, row ∈ nel_table →
    get "Label" row = Some (VStr "ALL")
    ∧ ∃ col aggr label,
        col ∈ NEL_COLUMNS ∧ aggr ∈ aggregations
        ∧ get "Evaluation" row = Some (VStr (col +:+ "-" +:+ aggr +:+ "-fuzzy-" +:+ label)).
Proof.
assert (nel_tags_run = (nel_tags_run.1, Ok tt)) as Hrun by reflexivity.
assert (EWriteTsv (PathIn "out" "team_bundle1_de_1_nel_run2.tsv") fieldnames nel_table
        ∈ drop (length (trace start)) (trace nel_tags_run.1)) as Hev
  by (apply (list_elem_of_lookup_2 _ 7%nat); reflexivity).
split; [exact Hrun|]. split; [exact Hev|].
exact (nel_table_has_four_ALL_rows_for_every_stratum "gold.tsv" "team_bundle1_de_1.tsv" false
         (Some "a+b,c+d") [1; 3] false "out" "run2" (Some "tags.txt") [None] [None] start
         nel_tags_run.1 _ _ nel_table counter_dictionaries Hrun Hev).
Defined.

(** X10 on the coarse task without a noise level. *)
Lemma run_without_noise_levels_empties_the_table :
task_strata "nerc_coarse" [1] [] [None] = []
∧ prelude "gold.tsv" "team_bundle1_de_1.tsv" false None None start
  = (after [ENewEvaluator "gold.tsv" "team_bundle1_de_1.tsv" None] O,
     Ok ("team_bundle1_de_1", None))
∧ host_open_w O (PathIn "out" "team_bundle1_de_1_nerc_coarse.tsv") = (O, Ok tt)
∧ no_stratum_run
  = (after [ENewEvaluator "gold.tsv" "team_bundle1_de_1.tsv" None;
              EOpenW (PathIn "out" "team_bundle1_de_1_nerc_coarse.tsv")] O,
     Raise (UnboundLocalError "fieldnames")).
Proof.
do 3 (split; [reflexivity|]).
exact (run_without_a_stratum_empties_the_table "gold.tsv" "team_bundle1_de_1.tsv"
         "nerc_coarse" false None [1] false "out" EmptyString None [] [None] start
         (after [ENewEvaluator "gold.tsv" "team_bundle1_de_1.tsv" None] O)
         ("team_bundle1_de_1", None) O (or_intror eq_refl) eq_refl eq_refl).
Defined.

(** X11 on a file named in capitals: the name is accepted, and the table
    and the JSON file are written to a file of that name. *)
Lemma capitals_run_writes_one_file_twice :
contains ".tsv" (path_name "TEAM_BUNDLE1_DE_1.TSV") = false
∧ capitals_run = (capitals_run.1, Ok tt)
∧ ∃ rows content,
    filter (λ e, is_output e = true) (drop (length (trace start)) (trace capitals_run.1))
    = [EOpenW (PathIn "out" "TEAM_BUNDLE1_DE_1.TSV");
       EWriteTsv (PathIn "out" "TEAM_BUNDLE1_DE_1.TSV") fieldnames rows;
       EOpenW (PathIn "out" "TEAM_BUNDLE1_DE_1.TSV");
       EWriteJson (PathIn "out" "TEAM_BUNDLE1_DE_1.TSV") content].
Proof.
assert (capitals_run = (capitals_run.1, Ok tt)) as Hrun by reflexivity.
split; [reflexivity|]. split; [exact Hrun|].
exact (name_without_tsv_names_both_files "gold.tsv" "TEAM_BUNDLE1_DE_1.TSV" "nerc_coarse"
         false None [1] false "out" EmptyString None [None] [None] start capitals_run.1
         eq_refl Hrun).
Defined.


(** X12 on the two noise bands: three noise strata, one time stratum. *)
Lemma two_bands_make_three_strata :
parse_n_best None = Ok [1]
∧ parse_noise_levels (Some "0.0-0.1,0.1-1.0")
  = Ok [None; Some (0, 100000); Some (100000, 1000000)]
∧ parse_time_periods None = Ok [None]
∧ length [1] = 1%nat
∧ [1] ≠ []
∧ head [None; Some (0, 100000); Some (100000, 1000000)] = Some None
∧ length [None; Some (0, 100000); Some (100000, 1000000)] = 3%nat
∧ head [@None (datetime * datetime)] = Some None
∧ length [@None (datetime * datetime)] = 1%nat
∧ ∀ task,
    length (task_strata task [1] [None; Some (0, 100000); Some (100000, 1000000)] [None])
    = ((if is_nerc task then 1 else 1) * (3 * 1))%nat.
Proof.
do 3 (split; [reflexivity|]).
exact (strata_begin_with_everything_and_follow_the_items None (Some "0.0-0.1,0.1-1.0") None
         [1] [None; Some (0, 100000); Some (100000, 1000000)] [None]
         eq_refl eq_refl eq_refl).
Defined.

(** X13 on two periods given by their days. *)
Lemma periods_with_days_are_read_as_days :
truthy "1900/01/01-1950/12/31,1951/01/01-2000/12/31" = true
∧ parse_time_periods (Some "1900/01/01-1950/12/31,1951/01/01-2000/12/31")
  = Ok [None; Some (mkDate 1900 1 1, mkDate 1950 12 31);
        Some (mkDate 1951 1 1, mkDate 2000 12 31)]
∧ ∃ format periods,
    [None; Some (mkDate 1900 1 1, mkDate 1950 12 31);
     Some (mkDate 1951 1 1, mkDate 2000 12 31)] = None :: (Some <$> periods)
    ∧ (format = "%Y"
       ∨ (format = "%Y/%m/%d"
          ∧ ∃ item, item ∈ split "," "1900/01/01-1950/12/31,1951/01/01-2000/12/31"
                    ∧ parse_period "%Y" (split "-" item) = Raise ValueError))
    ∧ Forall2 (λ item period,
         ∃ p0 p1 rest, split "-" item = p0 :: p1 :: rest
           ∧ strptime p0 format = Some period.1 ∧ strptime p1 format = Some period.2)
        (split "," "1900/01/01-1950/12/31,1951/01/01-2000/12/31") periods.
Proof.
do 2 (split; [reflexivity|]).
exact (time_periods_are_read_in_one_format "1900/01/01-1950/12/31,1951/01/01-2000/12/31"
         [None; Some (mkDate 1900 1 1, mkDate 1950 12 31);
          Some (mkDate 1951 1 1, mkDate 2000 12 31)] eq_refl eq_refl).
Defined.

(** X14 on a NERC task with [--union] and [--n_best]. *)
Lemma nerc_with_union_ends_with_1 :
host_open_w (host start) (Path "clef_evaluation.log") = (O, Ok tt)
∧ main nerc_union_args start
  = (after [EOpenW (Path "clef_evaluation.log"); ELogError invalid_alternative_msg;
              EPrint invalid_alternative_msg] O,
     Raise (SystemExit 1))
∧ exit_status (main nerc_union_args start).2 = 1.
Proof.
split; [reflexivity|].
exact (arguments_that_do_not_go_together_end_with_1 nerc_union_args start O eq_refl
         (or_intror (conj eq_refl eq_refl))).
Defined.

(** X15 on a noise level with one bound. *)
Lemma noise_level_with_one_bound_ends_with_1 :
host_open_w (host start) (Path "clef_evaluation.log") = (O, Ok tt)
∧ valid_arguments one_bound_args = true
∧ parse_noise_levels (Some "0.5") = Raise ValueError
∧ main one_bound_args start
  = (after [EOpenW (Path "clef_evaluation.log")] O, Raise ValueError)
∧ (ValueError = ValueError ∨ ValueError = IndexError)
∧ exit_status (main one_bound_args start).2 = 1.
Proof.
do 3 (split; [reflexivity|]).
exact (strata_that_cannot_be_read_end_with_1 one_bound_args start O ValueError
         eq_refl eq_refl eq_refl).
Defined.

(** X16 on union mode: the [TypeError] of the wrapper ends the process. *)
Lemma union_TypeError_reaches_the_end :
host_open_w (host start) (Path "clef_evaluation.log") = (O, Ok tt)
∧ valid_arguments union_args = true
∧ get_results "gold.tsv" "team_bundle1_de_1.tsv" "nel" false None [1] true "out" EmptyString
    None [None] [None] (after ([] ++ [EOpenW (Path "clef_evaluation.log")]) O)
  = (after [EOpenW (Path "clef_evaluation.log");
              ENewEvaluator "gold.tsv" "team_bundle1_de_1.tsv" None;
              EEvaluate (ColGroup NEL_COLUMNS) "nel" true 1 None None None] 1%nat,
     Raise TypeError)
∧ main union_args start
  = (after [EOpenW (Path "clef_evaluation.log");
              ENewEvaluator "gold.tsv" "team_bundle1_de_1.tsv" None;
              EEvaluate (ColGroup NEL_COLUMNS) "nel" true 1 None None None] 1%nat,
     Raise TypeError)
∧ exit_status (main union_args start).2 = 1.
Proof.
do 3 (split; [reflexivity|]).
exact (main_prints_an_AssertionError_and_passes_on_the_rest union_args start O [1] [None]
         [None] _ TypeError eq_refl eq_refl eq_refl eq_refl eq_refl eq_refl).
Defined.

(** X18 on a file that is accepted and on one that is not, in a directory. *)
Lemma file_in_a_directory_is_checked_by_its_name :
contains "/" "predictions.tsv" = false
∧ "predictions.tsv" ≠ EmptyString ∧ "predictions.tsv" ≠ "."
∧ (∀ r, enforce_filename ("runs/2020" +:+ "/" +:+ "predictions.tsv") start = (start, Ok r)
        ↔ enforce_filename "predictions.tsv" start = (start, Ok r))
∧ ((∀ r, enforce_filename "predictions.tsv" start ≠ (start, Ok r)) →
   enforce_filename ("runs/2020" +:+ "/" +:+ "predictions.tsv") start
   = (mkWorld (trace start
               ++ [ELogError
                     (enforce_filename_msg ("runs/2020" +:+ "/" +:+ "predictions.tsv"))])
        (host start),
      Raise (AssertionError
               (enforce_filename_msg ("runs/2020" +:+ "/" +:+ "predictions.tsv"))))
   ∧ enforce_filename "predictions.tsv" start
     = (mkWorld (trace start ++ [ELogError (enforce_filename_msg "predictions.tsv")])
          (host start),
        Raise (AssertionError (enforce_filename_msg "predictions.tsv"))))
∧ (∀ task suffix extension,
     output_name ("runs/2020" +:+ "/" +:+ "predictions.tsv") task suffix extension
     = output_name "predictions.tsv" task suffix extension)
∧ (∀ r, enforce_filename "predictions.tsv" start ≠ (start, Ok r))
∧ enforce_filename "runs/2020/team_bundle1_de_1.tsv" start
  = (start, Ok ("team_bundle1_de_1", "de")).
Proof.
assert ("predictions.tsv" ≠ EmptyString) as Hne by discriminate.
assert ("predictions.tsv" ≠ ".") as Hdot by discriminate.
split; [reflexivity|]. split; [exact Hne|]. split; [exact Hdot|].
pose proof (only_the_name_of_the_file_counts "runs/2020" "predictions.tsv" start
              eq_refl Hne Hdot) as (Hiff & Hraise & Hnames).
split; [exact Hiff|]. split; [exact Hraise|]. split; [exact Hnames|].
split; [intros r; discriminate | reflexivity].
Defined.

(** X19 on the coarse task with two noise bands. *)
Lemma coarse_command_line_runs_to_its_end :
cooperative
∧ is_ok (enforce_filename_try (args_f_pred coarse_args)) = true
∧ is_ok (parse_noise_levels (args_noise_level coarse_args)) = true
∧ exit_status (main coarse_args start).2 = 0
∧ ∃ w' before rows content,
    main coarse_args start = (w', Ok tt)
    ∧ trace w'
      = trace start ++ EOpenW (Path "clef_evaluation.log") :: before
        ++ [EOpenW (PathIn "out" "team_bundle1_de_1_nerc_coarse.tsv");
            EWriteTsv (PathIn "out" "team_bundle1_de_1_nerc_coarse.tsv") fieldnames rows;
            EOpenW (PathIn "out" "team_bundle1_de_1_nerc_coarse.json");
            EWriteJson (PathIn "out" "team_bundle1_de_1_nerc_coarse.json") content]
    ∧ forallb (λ e, negb (is_output e)) before = true.
Proof.
assert (is_ok (enforce_filename_try (args_f_pred coarse_args)) = true) as Hname
  by reflexivity.
assert (args_task coarse_args ∈ ["nerc_fine"; "nerc_coarse"; "nel"]) as Htask
  by (apply list_elem_of_further, list_elem_of_here).
split; [exact counter_cooperative|]. do 2 (split; [reflexivity|]).
exact (main_completes_against_a_host_that_does_not_fail coarse_args start counter_cooperative
         Htask eq_refl (or_intror eq_refl) (or_intror Hname) eq_refl eq_refl eq_refl).
Defined.

(** A collaborator whose answer for a column does not depend on the calls
    made before: the counts come from the length of the column's name. *)
Definition steady_evaluate (calls : nat) (col : column) (eval_type : string)
  (merge_lines : bool) (n_best : Z) (noise : noise_level) (time : time_period)
  (tags : tagset) : nat * result (bundle * per_tag) :=
let c := match col with
         | Col name => Z.of_nat (String.length name)
         | ColGroup _ => 0
         end in
(S calls,
 Ok (sample_bundle (5 + c) 2 1,
     [("pers", sample_bundle (3 + c) 1 1); ("loc", sample_bundle (4 + c) 2 1)])).

Definition steady : @Host decimal calendar := {|
  host_state := nat;
  host_new_evaluator := λ h _ _ _, (h, Ok tt);
  host_evaluate := steady_evaluate;
  host_read_text := λ h _, (h, Ok "pers");
  host_open_w := λ h _, (h, Ok tt);
  set_order := id;
  set_order_perm := λ l, reflexivity l;
|}.

Definition steady_run (cols : list string) : @World decimal calendar steady * result stats :=
@evaluation_wrapper decimal calendar steady (Col <$> cols) "nerc" 1 None None None
  (@mkWorld decimal calendar steady [] O).

Definition steady_stats (cols : list string) : stats :=
match (steady_run cols).2 with
| Ok eval_stats => eval_stats
| Raise _ => []
end.

(** X20 on the two coarse columns, in the two orders. *)
Lemma coarse_columns_in_either_order_give_one_report :
steady_stats ["NE-COARSE-LIT"; "NE-COARSE-METO"] ≠ steady_stats ["NE-COARSE-METO"; "NE-COARSE-LIT"]
∧ (∀ col, get col (steady_stats ["NE-COARSE-LIT"; "NE-COARSE-METO"])
          = get col (steady_stats ["NE-COARSE-METO"; "NE-COARSE-LIT"]))
∧ assemble_tsv_output "sys" (steady_stats ["NE-COARSE-LIT"; "NE-COARSE-METO"])
    ["fuzzy"; "strict"] false EmptyString
  = assemble_tsv_output "sys" (steady_stats ["NE-COARSE-METO"; "NE-COARSE-LIT"])
      ["fuzzy"; "strict"] false EmptyString.
Proof.
split; [discriminate|].
refine (@report_does_not_depend_on_the_order_of_the_columns decimal calendar steady
          ["NE-COARSE-LIT"; "NE-COARSE-METO"] ["NE-COARSE-METO"; "NE-COARSE-LIT"]
          "nerc" 1 None None None (@mkWorld decimal calendar steady [] O)
          (steady_run ["NE-COARSE-LIT"; "NE-COARSE-METO"]).1
          (@mkWorld decimal calendar steady [] O)
          (steady_run ["NE-COARSE-METO"; "NE-COARSE-LIT"]).1 _ _ "sys" ["fuzzy"; "strict"] false
          EmptyString _ _ _ _ _ _).
- intros h h' col. reflexivity.
- intros h col h' answer [= _ <-]. apply (bool_decide_unpack _). reflexivity.
- apply (bool_decide_unpack _). reflexivity.
- apply perm_swap.
- reflexivity.
- reflexivity.
Defined.
